(** * CLONER-STARK: the crawl-download-rewrite-package pipeline of api/copy.py

    A shallow embedding of [api/copy.py], the properties its specification
    states about it, and further properties read off the code.  Python strings are modelled as [string] (sequences of
    8-bit characters), the asset set as a [gset string], the parsed page as a
    list of elements in document order, the event stream as a list of typed
    events, and everything the program obtains from outside (HTTP answers, the
    clock, I/O failures) as a record of oracles. *)

From Stdlib Require Import ZArith Lia Ascii.
From stdpp Require Import base option list strings gmap sets sorting relations.

(** ** Python string methods used by the source *)

Module Py.

Definition mem (c : ascii) (cs : list ascii) : bool :=
  existsb (Ascii.eqb c) cs.

(** [s.startswith(p)] *)
Fixpoint startswith (s p : string) {struct p} : bool :=
  match p, s with
  | EmptyString, _ => true
  | String a p', String b s' => Ascii.eqb a b && startswith s' p'
  | String _ _, EmptyString => false
  end.

(** [s.endswith(suf)] *)
Fixpoint endswith (s suf : string) : bool :=
  if String.eqb s suf then true
  else match s with
       | EmptyString => false
       | String _ s' => endswith s' suf
       end.

(** [s.lstrip(chars)] *)
Fixpoint lstrip (chars : list ascii) (s : string) : string :=
  match s with
  | EmptyString => EmptyString
  | String c s' => if mem c chars then lstrip chars s' else s
  end.

(** [s.rstrip(chars)] *)
Fixpoint rstrip (chars : list ascii) (s : string) : string :=
  match s with
  | EmptyString => EmptyString
  | String c s' =>
      match rstrip chars s' with
      | EmptyString => if mem c chars then EmptyString else String c EmptyString
      | r => String c r
      end
  end.

(** [s.strip(chars)] *)
Definition strip (chars : list ascii) (s : string) : string :=
  lstrip chars (rstrip chars s).

(** The characters below 256 that [str.isspace] accepts: what [str.strip()]
    removes when given no argument and what [\s] matches. *)
Definition whitespace : list ascii :=
  [" "; "009"; "010"; "011"; "012"; "013"; "028"; "029"; "030"; "031";
   "133"; "160"]%char.

(** Character-wise rewriting: [s.replace(a, b)] for one-character [a], [b],
    and [re.sub] of a character class by one character. *)
Fixpoint map (f : ascii → ascii) (s : string) : string :=
  match s with
  | EmptyString => EmptyString
  | String c s' => String (f c) (map f s')
  end.

Definition replace (a b : ascii) (s : string) : string :=
  map (λ c, if Ascii.eqb c a then b else c) s.

(** [s.split(sep)] for a one-character separator: never the empty list. *)
Fixpoint split (sep : ascii) (s : string) : list string :=
  match s with
  | EmptyString => [EmptyString]
  | String c s' =>
      if Ascii.eqb c sep then EmptyString :: split sep s'
      else match split sep s' with
           | w :: ws => String c w :: ws
           | [] => [String c EmptyString]
           end
  end.

(** [sep.join(l)] *)
Fixpoint join (sep : string) (l : list string) : string :=
  match l with
  | [] => EmptyString
  | [w] => w
  | w :: ws => w +:+ sep +:+ join sep ws
  end.

(** [sub in s] *)
Fixpoint contains (sub s : string) : bool :=
  if startswith s sub then true
  else match s with
       | EmptyString => false
       | String _ s' => contains sub s'
       end.

(** [s[:n]] *)
Fixpoint take (n : nat) (s : string) : string :=
  match n, s with
  | S n', String c s' => String c (take n' s')
  | _, _ => EmptyString
  end.

(** [s[n:]] *)
Fixpoint drop (n : nat) (s : string) : string :=
  match n, s with
  | S n', String _ s' => drop n' s'
  | _, _ => s
  end.

Definition lower_char (c : ascii) : ascii :=
  let n := nat_of_ascii c in
  if (65 <=? n)%nat && (n <=? 90)%nat then ascii_of_nat (n + 32) else c.

Definition lower : string → string := map lower_char.

Definition is_digit (c : ascii) : bool :=
  let n := nat_of_ascii c in (48 <=? n)%nat && (n <=? 57)%nat.
Definition is_upper (c : ascii) : bool :=
  let n := nat_of_ascii c in (65 <=? n)%nat && (n <=? 90)%nat.
Definition is_lower (c : ascii) : bool :=
  let n := nat_of_ascii c in (97 <=? n)%nat && (n <=? 122)%nat.
Definition is_alpha (c : ascii) : bool := is_upper c || is_lower c.

(** [os.path.join(a, b)] of posixpath. *)
Definition os_path_join (a b : string) : string :=
  if startswith b "/" then b
  else if String.eqb a "" || endswith a "/" then a +:+ b
  else a +:+ "/" +:+ b.

End Py.

(** ** CONFIG *)

Definition USER_AGENT : string := "Stark-Website-Cloner/1.0 (+https://stark.example)".
Definition CONCURRENT_DOWNLOADS : nat := 8.
Definition TMP_ROOT : string := "/tmp".

(** ** urllib.parse, as the source sees it

    [urlparse] and [urljoin] belong to the Python library, not to the
    repository: the development is parametric in them.  Both can raise
    [ValueError] (for instance on an authority with an unbalanced bracket);
    [None] stands for the raised exception.  [PyUrl] below gives the instance
    that follows CPython 3.11. *)

Record ParseResult := {
  scheme : string;
  netloc : string;
  path : string;
  params : string;
  query : string;
  fragment : string
}.

Class UrlLib := {
  urlparse : string → option ParseResult;
  urljoin : string → string → option string
}.

(** ** utilities *)

Definition ensure_scheme (url : string) : string :=
  if negb (Py.startswith url "http://") && negb (Py.startswith url "https://")
  then "http://" +:+ url
  else url.

(** The character class of the first [re.sub] in [safe_filename_from_url]:
    backslash, colon, star, question mark, double quote (character 34), the
    angle brackets and the bar. *)
Definition forbidden_char (c : ascii) : bool :=
  Py.mem c ["\"; ":"; "*"; "?"; "034"; "<"; ">"; "|"]%char.

(** The class [[0-9a-zA-Z]] whose complement the second [re.sub] replaces. *)
Definition alnum_char (c : ascii) : bool :=
  Py.is_digit c || Py.is_lower c || Py.is_upper c.

Definition safe_filename_from_url `{UrlLib} (url : string) : option string :=
  parsed ← urlparse url;
  let path := if String.eqb (path parsed) "" then "/" else path parsed in
  let path := if Py.endswith path "/" then path +:+ "index.html" else path in
  let filename := Py.lstrip ["/"%char] path in
  let filename := if String.eqb filename "" then "index.html" else filename in
  let host := Py.replace ":"%char "_"%char (netloc parsed) in
  let filename := Py.os_path_join host filename in
  let filename := Py.map (λ c, if forbidden_char c then "_"%char else c) filename in
  let filename :=
    if String.eqb (query parsed) "" then filename
    else filename +:+ "_" +:+
         Py.take 40 (Py.map (λ c, if alnum_char c then c else "_"%char) (query parsed)) in
  Some filename.

(** ** The CPython instance of [UrlLib]

    [urlsplit], [urlparse], [urlunparse] and [urljoin] of CPython 3.11's
    [urllib/parse.py], for 8-bit strings.  Two checks of the library are not
    reproduced: an authority with both brackets is accepted without validating
    the address between them, and the NFKC check of non-ASCII authorities is
    omitted.  An authority with exactly one kind of bracket raises. *)

Module Urllib.

Definition uses_relative : list string :=
  [""; "ftp"; "http"; "gopher"; "nntp"; "imap"; "wais"; "file"; "https";
   "shttp"; "mms"; "prospero"; "rtsp"; "rtspu"; "sftp"; "svn"; "svn+ssh";
   "ws"; "wss"].

Definition uses_netloc : list string :=
  [""; "ftp"; "http"; "gopher"; "nntp"; "telnet"; "imap"; "wais"; "file";
   "mms"; "https"; "shttp"; "snews"; "prospero"; "rtsp"; "rtspu"; "rsync";
   "svn"; "svn+ssh"; "sftp"; "nfs"; "git"; "git+ssh"; "ws"; "wss"].

Definition uses_params : list string :=
  [""; "ftp"; "hdl"; "prospero"; "http"; "imap"; "https"; "shttp"; "rtsp";
   "rtspu"; "sip"; "sips"; "mms"; "sftp"; "tel"].

Definition in_list (s : string) (l : list string) : bool :=
  existsb (String.eqb s) l.

Definition scheme_char (c : ascii) : bool :=
  Py.is_alpha c || Py.is_digit c || Py.mem c ["+"; "-"; "."]%char.

Definition c0_control_or_space (c : ascii) : bool := (nat_of_ascii c <=? 32)%nat.

Definition unsafe_byte (c : ascii) : bool := Py.mem c ["009"; "013"; "010"]%char.

Fixpoint lstrip_by (f : ascii → bool) (s : string) : string :=
  match s with
  | EmptyString => EmptyString
  | String c s' => if f c then lstrip_by f s' else s
  end.

Fixpoint remove_by (f : ascii → bool) (s : string) : string :=
  match s with
  | EmptyString => EmptyString
  | String c s' => if f c then remove_by f s' else String c (remove_by f s')
  end.

Fixpoint all_chars (f : ascii → bool) (s : string) : bool :=
  match s with
  | EmptyString => true
  | String c s' => f c && all_chars f s'
  end.

Fixpoint has_char (c : ascii) (s : string) : bool :=
  match s with
  | EmptyString => false
  | String d s' => Ascii.eqb c d || has_char c s'
  end.

(** [s.split(c, 1)] when [c] occurs in [s]: the text before and after its
    first occurrence. *)
Fixpoint cut (c : ascii) (s : string) : option (string * string) :=
  match s with
  | EmptyString => None
  | String d s' =>
      if Ascii.eqb c d then Some (EmptyString, s')
      else '(a, b) ← cut c s'; Some (String d a, b)
  end.

(** The longest prefix made of characters outside [stop], and the rest. *)
Fixpoint span_until (stop : ascii → bool) (s : string) : string * string :=
  match s with
  | EmptyString => (EmptyString, EmptyString)
  | String d s' =>
      if stop d then (EmptyString, s)
      else let '(a, b) := span_until stop s' in (String d a, b)
  end.

Definition _splitnetloc (url : string) : string * string :=
  span_until (λ c, Py.mem c ["/"; "?"; "#"]%char) (Py.drop 2 url).

Record SplitResult := {
  s_scheme : string; s_netloc : string; s_url : string;
  s_query : string; s_fragment : string
}.

Definition urlsplit (url default : string) : option SplitResult :=
  let url := lstrip_by c0_control_or_space url in
  let sch := Py.strip (map ascii_of_nat (seq 0 33)) default in
  let url := remove_by unsafe_byte url in
  let sch := remove_by unsafe_byte sch in
  let '(sch, url) :=
    match cut ":" url with
    | Some (String c0 pre as p, rest) =>
        if Py.is_alpha c0 && all_chars scheme_char p
        then (Py.lower p, rest) else (sch, url)
    | _ => (sch, url)
    end in
  '(host, url) ←
    (if Py.startswith url "//" then
       let '(host, rest) := _splitnetloc url in
       if xorb (has_char "[" host) (has_char "]" host) then None
       else Some (host, rest)
     else Some (EmptyString, url));
  let '(url, frag) :=
    match cut "#" url with Some (a, b) => (a, b) | None => (url, EmptyString) end in
  let '(url, qry) :=
    match cut "?" url with Some (a, b) => (a, b) | None => (url, EmptyString) end in
  Some {| s_scheme := sch; s_netloc := host; s_url := url;
          s_query := qry; s_fragment := frag |}.

(** The text up to and excluding the last slash, and the text from it on. *)
Fixpoint rcut_slash (s : string) : option (string * string) :=
  match s with
  | EmptyString => None
  | String d s' =>
      match rcut_slash s' with
      | Some (a, b) => Some (String d a, b)
      | None => if Ascii.eqb d "/" then Some (EmptyString, s) else None
      end
  end.

Definition _splitparams (url : string) : string * string :=
  match rcut_slash url with
  | Some (dir, last) =>
      match cut ";" last with
      | Some (a, b) => (dir +:+ a, b)
      | None => (url, EmptyString)
      end
  | None =>
      match cut ";" url with
      | Some (a, b) => (a, b)
      | None => (url, EmptyString)
      end
  end.

Definition urlparse_with (url default : string) : option ParseResult :=
  r ← urlsplit url default;
  let '(url, prm) :=
    if in_list (s_scheme r) uses_params && has_char ";" (s_url r)
    then _splitparams (s_url r) else (s_url r, EmptyString) in
  Some {| scheme := s_scheme r; netloc := s_netloc r; path := url;
          params := prm; query := s_query r; fragment := s_fragment r |}.

Definition urlunsplit (sch host url qry frag : string) : string :=
  let url :=
    if negb (String.eqb host "") ||
       (negb (String.eqb sch "") && in_list sch uses_netloc &&
        negb (Py.startswith url "//"))
    then "//" +:+ host +:+
         (if negb (String.eqb url "") && negb (Py.startswith url "/")
          then "/" +:+ url else url)
    else url in
  let url := if String.eqb sch "" then url else sch +:+ ":" +:+ url in
  let url := if String.eqb qry "" then url else url +:+ "?" +:+ qry in
  if String.eqb frag "" then url else url +:+ "#" +:+ frag.

Definition urlunparse (p : ParseResult) : string :=
  let url := if String.eqb (params p) "" then path p
             else path p +:+ ";" +:+ params p in
  urlunsplit (scheme p) (netloc p) url (query p) (fragment p).

(** [segments[1:-1] = filter(None, segments[1:-1])] *)
Definition drop_inner_empties (segments : list string) : list string :=
  match segments with
  | [] => []
  | first :: rest =>
      match reverse rest with
      | [] => [first]
      | last :: rmid =>
          first :: filter (λ s, s ≠ EmptyString) (reverse rmid) ++ [last]
      end
  end.

Definition resolve_segments (segments : list string) : list string :=
  let resolved :=
    foldl (λ acc seg,
             if String.eqb seg ".." then removelast acc
             else if String.eqb seg "." then acc
             else acc ++ [seg]) [] segments in
  match last segments with
  | Some l => if String.eqb l "." || String.eqb l ".." then resolved ++ [EmptyString]
              else resolved
  | None => resolved
  end.

Definition urljoin (base url : string) : option string :=
  if String.eqb base "" then Some url
  else if String.eqb url "" then Some base
  else
    b ← urlparse_with base "";
    u ← urlparse_with url (scheme b);
    if negb (String.eqb (scheme u) (scheme b)) ||
       negb (in_list (scheme u) uses_relative)
    then Some url
    else if in_list (scheme u) uses_netloc && negb (String.eqb (netloc u) "")
    then Some (urlunparse u)
    else
      let netloc' := if in_list (scheme u) uses_netloc then netloc b else netloc u in
      if String.eqb (path u) "" && String.eqb (params u) "" then
        Some (urlunparse
                {| scheme := scheme u; netloc := netloc'; path := path b;
                   params := params b;
                   query := if String.eqb (query u) "" then query b else query u;
                   fragment := fragment u |})
      else
        let base_parts := Py.split "/" (path b) in
        let base_parts :=
          match last base_parts with
          | Some l => if String.eqb l "" then base_parts else removelast base_parts
          | None => base_parts
          end in
        let segments :=
          if Py.startswith (path u) "/" then Py.split "/" (path u)
          else drop_inner_empties (base_parts ++ Py.split "/" (path u)) in
        let resolved := resolve_segments segments in
        let joined := Py.join "/" resolved in
        Some (urlunparse
                {| scheme := scheme u; netloc := netloc';
                   path := if String.eqb joined "" then "/" else joined;
                   params := params u; query := query u; fragment := fragment u |}).

End Urllib.

#[export] Instance PyUrl : UrlLib := {
  urlparse url := Urllib.urlparse_with url "";
  urljoin := Urllib.urljoin
}.

(** ** The regular expressions of the source

    [re.findall] and [re.sub] scan a text from left to right and take, at each
    position, the match the backtracking engine finds first; the next search
    starts where the match ended.  A matcher below answers, for the text that
    starts at the current position, the captured group and the text left after
    the match. *)

Module Re.

Inductive piece :=
| Lit (c : ascii)          (* a character outside every match *)
| Hit (group : string).    (* one match, with its group 1 *)

Fixpoint scan (m : string → option (string * string)) (skip : nat)
    (s : string) : list piece :=
  match s with
  | EmptyString => []
  | String c s' =>
      match skip with
      | S k => scan m k s'
      | O =>
          match m s with
          | Some (g, rest) =>
              Hit g :: scan m (String.length s' - String.length rest) s'
          | None => Lit c :: scan m 0 s'
          end
      end
  end.

(** [re.findall(pattern, s)] for a pattern with one group. *)
Definition findall (m : string → option (string * string)) (s : string)
    : list string :=
  omap (λ p, match p with Hit g => Some g | Lit _ => None end) (scan m 0 s).

(** [re.sub(pattern, repl, s)] where [repl] reads group 1. *)
Definition sub (m : string → option (string * string))
    (repl : string → option string) (s : string) : option string :=
  foldr (λ p acc,
           tl ← acc;
           match p with
           | Lit c => Some (String c tl)
           | Hit g => r ← repl g; Some (r +:+ tl)
           end) (Some EmptyString) (scan m 0 s).

(** [url\(([^)]+)\)] *)
Definition url_pattern (s : string) : option (string * string) :=
  if Py.startswith s "url(" then
    match Urllib.span_until (Ascii.eqb ")") (Py.drop 4 s) with
    | (String _ _ as g, String _ rest) => Some (g, rest)
    | _ => None
    end
  else None.

Definition quote_char (c : ascii) : bool := Py.mem c ["034"; "'"]%char.

(** The group of the [@import] pattern: one or more characters other than
    the two quotes and the closing parenthesis. *)
Definition import_group (t : string) : option (string * string) :=
  match Urllib.span_until (λ c, quote_char c || Ascii.eqb c ")") t with
  | (String _ _ as g, rest) => Some (g, rest)
  | _ => None
  end.

(** An optional quote, then the group. *)
Definition import_quote (t : string) : option (string * string) :=
  match t with
  | String c t' =>
      if quote_char c then
        match import_group t' with
        | Some r => Some r
        | None => import_group t
        end
      else import_group t
  | EmptyString => None
  end.

(** An optional [url(], then the rest. *)
Definition import_tail (t : string) : option (string * string) :=
  if Py.startswith t "url(" then
    match import_quote (Py.drop 4 t) with
    | Some r => Some r
    | None => import_quote t
    end
  else import_quote t.

(** [\s+] and the rest: the longest run of white space is tried first. *)
Fixpoint import_space (t : string) : option (string * string) :=
  match t with
  | String c t' =>
      if Py.mem c Py.whitespace then
        match import_space t' with
        | Some r => Some r
        | None => import_tail t'
        end
      else None
  | EmptyString => None
  end.

(** [@import\s+(?:url\()?[QUOTES]?([^QUOTES)]+)], where QUOTES stands for the
    double and the single quote. *)
Definition import_pattern (s : string) : option (string * string) :=
  if Py.startswith s "@import" then import_space (Py.drop 7 s) else None.

Definition static_extensions : list string :=
  ["css"; "js"; "png"; "jpg"; "jpeg"; "gif"; "svg"; "woff2"; "woff"; "ttf";
   "eot"; "mp4"; "webm"; "ico"].

(** [re.search(r"\.(css|js|png|jpg|jpeg|gif|svg|woff2?|ttf|eot|mp4|webm|ico)",
    s, re.I)]: a dot followed by one of the alternatives, anywhere in [s]. *)
Fixpoint search_static (s : string) : bool :=
  match s with
  | EmptyString => false
  | String c s' =>
      (Ascii.eqb c "." &&
       existsb (λ e, Py.startswith (Py.lower s') e) static_extensions)
      || search_static s'
  end.

End Re.

(** ** The parsed page

    [BeautifulSoup(html, "html.parser")] is modelled by its result: the
    elements of the document in document order, each with its tag name, its
    attributes, and its [.string] (the text of a [<style>] element).
    [el.get(attr)] is the lookup [attrs el !! attr]; an attribute written
    without a value has the empty string as its value. *)

Record element := {
  name : string;
  attrs : gmap string string;
  text : option string
}.

Definition soup := list element.

(** [soup.find_all(tag)] *)
Definition find_all (tag : string) (doc : soup) : list element :=
  filter (λ el, name el = tag) doc.

(** [soup.find_all(attr=True)] *)
Definition find_all_with (attr : string) (doc : soup) : list element :=
  filter (λ el, is_Some (attrs el !! attr)) doc.

(** [el.get(attr)] when the value is present and not empty ([if v:]). *)
Definition get_truthy (attr : string) (el : element) : option string :=
  v ← attrs el !! attr; if String.eqb v "" then None else Some v.

(** The URL token of one [srcset] candidate: [part.strip().split(" ")[0]]. *)
Definition srcset_token (part : string) : string :=
  default "" (head (Py.split " " (Py.strip Py.whitespace part))).

(** [m.strip(' \'QUOTE')] *)
Definition strip_quotes (m : string) : string :=
  Py.strip [" "; "'"; "034"]%char m.

Definition find_asset_urls `{UrlLib} (base_url : string) (doc : soup)
    : option (gset string) :=
  let tags_attrs :=
    [("img", "src"); ("script", "src"); ("link", "href"); ("source", "src");
     ("video", "poster"); ("audio", "src")] in
  tagged ← mapM (urljoin base_url)
    (tags_attrs ≫= λ '(tag, attr), omap (get_truthy attr) (find_all tag doc));
  (* srcset *)
  srcsets ← mapM (urljoin base_url)
    (find_all_with "srcset" doc ≫= λ el,
       filter (λ src, src ≠ "")
         (srcset_token <$> Py.split "," (default "" (attrs el !! "srcset"))));
  (* inline style url(...) *)
  styles ← mapM (urljoin base_url)
    (find_all_with "style" doc ≫= λ el,
       strip_quotes <$> Re.findall Re.url_pattern (default "" (attrs el !! "style")));
  (* CSS-imported URLs inside <style> tags *)
  sheets ← mapM (urljoin base_url)
    (find_all "style" doc ≫= λ el,
       strip_quotes <$> Re.findall Re.url_pattern (default "" (text el)));
  (* hrefs of anchors that look like static resources *)
  anchors ← mapM (urljoin base_url)
    (filter (λ href, Re.search_static href = true)
       (omap (get_truthy "href") (find_all "a" doc)));
  Some (list_to_set (tagged ++ srcsets ++ styles ++ sheets ++ anchors)).

Definition extract_css_urls_from_text `{UrlLib} (base_url css_text : string)
    : option (gset string) :=
  urls ← mapM (urljoin base_url)
    (filter (λ mclean, mclean ≠ "")
       (strip_quotes <$> Re.findall Re.url_pattern css_text));
  (* @import *)
  imports ← mapM (urljoin base_url) (Re.findall Re.import_pattern css_text);
  Some (list_to_set urls ∪ list_to_set imports).

(** ** The Rewriter

    The closures [rewrite_attr] and [repl] of [sse_generator] and the loops
    around them.  [el[attr] = v] is the insertion [<[attr := v]>]; [None] is
    an exception of [urljoin] or [urlparse], which ends the rewriting. *)

Definition set_attr (attr v : string) (el : element) : element :=
  {| name := name el; attrs := <[attr := v]> (attrs el); text := text el |}.

Definition rewrite_attr `{UrlLib} (web_url attr : string) (el : element)
    : option element :=
  match attrs el !! attr with
  | None => Some el
  | Some val =>
      if String.eqb val "" then Some el
      else
        abs_url ← urljoin web_url val;
        new_rel ← safe_filename_from_url abs_url;
        Some (set_attr attr new_rel el)
  end.

(** [for el in soup.find_all(tag): rewrite_attr(el, attr)] *)
Definition rewrite_all `{UrlLib} (web_url tag attr : string) (doc : soup)
    : option soup :=
  mapM (λ el, if decide (name el = tag) then rewrite_attr web_url attr el
              else Some el) doc.

(** The body of the loop over [soup.find_all(srcset=True)]. *)
Definition rewrite_srcset `{UrlLib} (web_url : string) (el : element)
    : option element :=
  match attrs el !! "srcset" with
  | None => Some el
  | Some ss =>
      parts ← mapM (λ part,
                      abs_url ← urljoin web_url (srcset_token part);
                      safe_filename_from_url abs_url) (Py.split "," ss);
      Some (set_attr "srcset" (Py.join ", " parts) el)
  end.

Definition repl `{UrlLib} (web_url group1 : string) : option string :=
  abs_url ← urljoin web_url (strip_quotes group1);
  new ← safe_filename_from_url abs_url;
  Some ("url('" +:+ new +:+ "')").

(** The body of the loop over [soup.find_all(style=True)]. *)
Definition rewrite_style `{UrlLib} (web_url : string) (el : element)
    : option element :=
  match attrs el !! "style" with
  | None => Some el
  | Some style =>
      new_style ← Re.sub Re.url_pattern (repl web_url) style;
      Some (set_attr "style" new_style el)
  end.

Definition rewrite_html `{UrlLib} (web_url : string) (doc : soup) : option soup :=
  doc ← rewrite_all web_url "img" "src" doc;
  doc ← rewrite_all web_url "script" "src" doc;
  doc ← rewrite_all web_url "link" "href" doc;
  doc ← rewrite_all web_url "source" "src" doc;
  doc ← rewrite_all web_url "video" "poster" doc;
  doc ← mapM (rewrite_srcset web_url) doc;
  mapM (rewrite_style web_url) doc.

(** ** The Workspace: a directory tree

    The directory that [make_workspace] creates, with the files the run puts
    under it.  A file holds raw data (page text, downloaded bytes) or the JSON
    document [write_json] writes.  What lies outside the workspace is not
    modelled. *)

Record Info := {
  cloned_from : string;
  timestamp_utc : string;
  total_files_downloaded : nat;
  downloaded_bytes : nat;
  zip_name : string
}.

Inductive fdata :=
| Data (content : string)
| Json (info : Info).

#[warnings="-register-all"]
Inductive node :=
| File (d : fdata)
| Dir (entries : list (string * node)).

Module Fs.

Fixpoint entry_lookup (nm : string) (es : list (string * node)) : option node :=
  match es with
  | [] => None
  | (k, v) :: es' => if String.eqb k nm then Some v else entry_lookup nm es'
  end.

(** Replace the entry called [nm], or add it at the end. *)
Fixpoint entry_set (nm : string) (new : node) (es : list (string * node))
    : list (string * node) :=
  match es with
  | [] => [(nm, new)]
  | (k, v) :: es' =>
      if String.eqb k nm then (k, new) :: es' else (k, v) :: entry_set nm new es'
  end.

Fixpoint node_at (p : list string) (n : node) : option node :=
  match p with
  | [] => Some n
  | nm :: p' =>
      match n with
      | Dir es => entry_lookup nm es ≫= node_at p'
      | File _ => None
      end
  end.

(** Put [new] at path [p]; the directory that is to hold it exists. *)
Fixpoint set_at (p : list string) (new : node) (n : node) : node :=
  match p, n with
  | [], _ => new
  | [nm], Dir es => Dir (entry_set nm new es)
  | nm :: p', Dir es =>
      match entry_lookup nm es with
      | Some sub => Dir (entry_set nm (set_at p' new sub) es)
      | None => n
      end
  | _ :: _, File _ => n
  end.

Inductive position :=
| Inside (dir : list string)   (* a directory of the workspace *)
| Outside.                     (* above the workspace root *)

(** [Path.mkdir(parents=True, exist_ok=True)] on the directory part of a
    path, resolved as the operating system does: a name is entered (and
    created when missing), [..] goes to the parent.  The directories made
    stay, also when a later component fails; [None] is the raised [OSError]
    (a component is a regular file). *)
Fixpoint mkdirs (comps : list string) (cur : position) (t : node)
    : node * option position :=
  match comps with
  | [] => (t, Some cur)
  | c :: comps' =>
      match cur with
      | Outside => mkdirs comps' Outside t
      | Inside p =>
          if String.eqb c ".." then
            match p with
            | [] => mkdirs comps' Outside t
            | _ :: _ => mkdirs comps' (Inside (removelast p)) t
            end
          else
            match node_at (p ++ [c]) t with
            | Some (Dir _) => mkdirs comps' (Inside (p ++ [c])) t
            | Some (File _) => (t, None)
            | None => mkdirs comps' (Inside (p ++ [c])) (set_at (p ++ [c]) (Dir []) t)
            end
      end
  end.

(** The components of a relative path as [pathlib] keeps them: empty
    components and [.] are dropped. *)
Definition components (rel : string) : list string :=
  filter (λ c, c ≠ "" ∧ c ≠ ".") (Py.split "/" rel).

(** [p = root / rel; p.parent.mkdir(parents=True, exist_ok=True);
    open(p, "w").write(d)]: the workspace afterwards, and whether the write
    raised no exception.  A path that climbs above the workspace root names
    a file outside the workspace, which the write leaves as it is. *)
Definition write_file (rel : string) (d : fdata) (t : node) : node * bool :=
  match reverse (components rel) with
  | [] => (t, false)
  | fname :: rdirs =>
      match mkdirs (reverse rdirs) (Inside []) t with
      | (t', None) => (t', false)
      | (t', Some Outside) => (t', true)
      | (t', Some (Inside p)) =>
          if String.eqb fname ".." then (t', false)
          else match node_at (p ++ [fname]) t' with
               | Some (Dir _) => (t', false)
               | _ => (set_at (p ++ [fname]) (File d) t', true)
               end
      end
  end.

(** [open(root / rel).read()] *)
Definition read_file (rel : list string) (t : node) : option fdata :=
  match node_at rel t with
  | Some (File d) => Some d
  | _ => None
  end.

(** [str(root / rel)] *)
Definition path_str (root rel : string) : string :=
  Py.join "/" (root :: components rel).

Definition dir_names (es : list (string * node)) : list string :=
  omap (λ e, match e.2 with Dir _ => Some e.1 | File _ => None end) es.

Definition file_names (es : list (string * node)) : list string :=
  omap (λ e, match e.2 with File _ => Some e.1 | Dir _ => None end) es.

(** [os.walk(top)], top-down: for every directory below [top] its path (a
    list of names), the names of its sub-directories and the names of its
    files; the sub-directories are visited in the order of [dirnames]. *)
Fixpoint os_walk (dirpath : list string) (n : node)
    : list (list string * list string * list string) :=
  match n with
  | File _ => []
  | Dir es =>
      (dirpath, dir_names es, file_names es)
      :: (fix subdirs (l : list (string * node)) :=
            match l with
            | [] => []
            | (nm, sub) :: l' => os_walk (dirpath ++ [nm]) sub ++ subdirs l'
            end) es
  end.

(** The regular files below a directory, each with its path from that
    directory prefixed by [pre], in the order in which [os.walk] meets
    them. *)
Fixpoint files (pre : list string) (n : node) : list (list string * fdata) :=
  match n with
  | File _ => []
  | Dir es =>
      omap (λ e, match e.2 with
                 | File d => Some (pre ++ [e.1], d)
                 | Dir _ => None
                 end) es
      ++ (fix subdirs (l : list (string * node)) :=
            match l with
            | [] => []
            | (nm, sub) :: l' => files (pre ++ [nm]) sub ++ subdirs l'
            end) es
  end.

(** The path [p] seen from [root], when [p] lies below [root]. *)
Fixpoint below (root p : list string) : option (list string) :=
  match root, p with
  | [], _ => Some p
  | r :: root', c :: p' => if String.eqb r c then below root' p' else None
  | _ :: _, [] => None
  end.

(** [os.path.relpath(path, start)] on lists of names. *)
Fixpoint relpath (p start : list string) : list string :=
  match p, start with
  | a :: p', b :: start' =>
      if String.eqb a b then relpath p' start'
      else replicate (length start) ".." ++ p
  | _, _ => replicate (length start) ".." ++ p
  end.

End Fs.

(** ** Events and the outside world *)

(** One server-sent event; the generator yields its text form
    [event: <kind>\ndata: <payload>\n\n]. *)
Inductive event :=
| Status (stage : string)
| Meta (total_items : nat)
| Asset (url saved : string) (size : nat)
| AssetError (url error : string)
| Progress (bytes_total speed_bps : nat)
| Error (message : string)
| Done (zip_path zip_name : string) (elapsed_seconds : nat).

(** What [client.get] does: it returns a response, or raises (network error,
    timeout, too many redirects). *)
Inductive response :=
| Response (status_code : nat) (body : string)
| Raised (message : string).

(** The file operations of the run that can fail for reasons the workspace
    tree does not show (permissions, a full disk). *)
Inductive io_op :=
| WritePage               (* main_html_path.write_text(html) *)
| SaveAsset (url : string)
| ReadPage                (* main_html_path.read_text(...) *)
| WriteRewritten          (* main_html_path.write_text(soup.prettify()) *)
| WriteInfo               (* write_json(root / "info.json", info) *)
| WriteZip.               (* zipfile.ZipFile(...) and its writes *)

Inductive failure :=
| BadStatus (url : string) (status_code : nat)
| OsError (op : io_op)
| ValueError.

(** Everything one run obtains from outside.  Times are in milliseconds. *)
Record World := {
  utcnow_stamp : string;               (* utcnow().strftime("%Y%m%d%H%M%S") *)
  utcnow_iso : string;                 (* utcnow().isoformat() *)
  get_page : response;                 (* GET of the root page *)
  get_css : nat → string → response;   (* GET of the k-th stylesheet link *)
  get_asset : string → response;       (* GET of an asset *)
  io_ok : io_op → bool;
  str_e : failure → string;            (* str(e) *)
  time_start : Z;
  time_downloads : Z;                  (* last_update = time.time() *)
  time_after_batch : nat → Z;          (* now = time.time() after batch k *)
  time_end : Z
}.

(** [r.raise_for_status()] raises unless the status is 2xx. *)
Definition is_success (status_code : nat) : bool :=
  (200 <=? status_code) && (status_code <=? 299).

(** The HTML library: [BeautifulSoup(html, "html.parser")] and
    [soup.prettify()]. *)
Class HtmlLib := {
  BeautifulSoup : string → soup;
  prettify : soup → string
}.

(** [list(asset_urls)]: Python fixes no order for the elements of a set. *)
Class PySet := {
  list_of_set : gset string → list string;
  list_of_set_perm : ∀ s, list_of_set s ≡ₚ elements s
}.

#[export] Program Instance ElementsOrder : PySet := {
  list_of_set := elements
}.
Next Obligation. done. Qed.

(** ** The pipeline *)

Inductive outcome :=
| Completed      (* the generator returned after [done] *)
| Aborted        (* the generator returned after a fatal [error] *)
| Blocked        (* the generator waits for ever *)
| Crashed.       (* an exception left the generator *)

Record Run := {
  trace : list event;
  outcome_of : outcome;
  discovered : option (gset string);        (* asset_urls when [meta] is sent *)
  workspace : node;
  manifest : option Info;                   (* the info.json written, if any *)
  archive : option (list (string * fdata))  (* entries of the zip, if written *)
}.

(** The state the download stage shares between its tasks. *)
Record dstate := {
  sem : nat;                                (* permits left in [sem] *)
  ws : node;
  bytes_downloaded : nat;
  bytes_since_last : nat;
  last_update : Z;
  downloaded_files : list (string * string * nat)
}.

Section Pipeline.
Context {U : UrlLib} {L : HtmlLib} {P : PySet}.
Variable w : World.

Definition make_workspace : string :=
  Py.join "/" [TMP_ROOT; "stark_clone_" +:+ utcnow_stamp w].

Definition zipped_name : string :=
  "stark_" +:+ default "" (last (Py.split "_" ("stark_clone_" +:+ utcnow_stamp w)))
  +:+ ".zip".

Definition zipped_fullpath : string := Py.join "/" [TMP_ROOT; zipped_name].

(** The first [try]: fetch main html. *)
Definition fetch_html (web_url : string) : list event * option string :=
  match get_page w with
  | Response code body =>
      if is_success code
      then ([Status "fetching_html"; Status "fetched_html"], Some body)
      else ([Status "fetching_html";
             Error ("failed_fetch_html: " +:+ str_e w (BadStatus web_url code))],
            None)
  | Raised msg =>
      ([Status "fetching_html"; Error ("failed_fetch_html: " +:+ msg)], None)
  end.

(** [rel=lambda v: v and "stylesheet" in v] *)
Definition is_stylesheet (el : element) : bool :=
  match attrs el !! "rel" with
  | Some v => Py.contains "stylesheet" v
  | None => false
  end.

Definition css_links (web_url : string) (doc : soup) : option (list string) :=
  mapM (urljoin web_url)
    (omap (get_truthy "href") (filter (λ el, is_stylesheet el = true)
                                      (find_all "link" doc))).

(** fetch CSS to discover url(...) references: one [status] event per link;
    a failed request, a status other than 200 and an exception of the
    extraction are passed over in silence. *)
Fixpoint fetch_css (web_url : string) (k : nat) (links : list string)
    (asset_urls : gset string) : list event * gset string :=
  match links with
  | [] => ([], asset_urls)
  | css_url :: rest =>
      let asset_urls :=
        match get_css w k css_url with
        | Response code text =>
            if Nat.eqb code 200 then
              match extract_css_urls_from_text web_url text with
              | Some css_assets => asset_urls ∪ css_assets
              | None => asset_urls
              end
            else asset_urls
        | Raised _ => asset_urls
        end in
      let '(evs, asset_urls) := fetch_css web_url (S k) rest asset_urls in
      (Status ("fetching_css " +:+ css_url) :: evs, asset_urls)
  end.

(** collect asset urls; [None] when [urljoin] raises outside every [try]. *)
Definition discover (web_url : string) (doc : soup)
    : option (list event * gset string) :=
  found ← find_asset_urls web_url doc;
  links ← css_links web_url doc;
  let '(evs, asset_urls) := fetch_css web_url 0 links found in
  Some (evs, (asset_urls ∪ list_to_set links) ∖ {[web_url]}).

(** One [download_and_save(url)] generator driven by [consume] to its first
    [yield].  [None]: the task waits in [sem.acquire()].  A task that got a
    permit keeps it: the generator stays suspended at its [yield], inside
    [async with sem], and nothing resumes or closes it. *)
Definition download_and_save (root url : string) (st : dstate)
    : option (event * dstate) :=
  match sem st with
  | O => None
  | S permits =>
      let fail (st : dstate) (e : string) := (AssetError url e, st) in
      let st := {| sem := permits; ws := ws st;
                   bytes_downloaded := bytes_downloaded st;
                   bytes_since_last := bytes_since_last st;
                   last_update := last_update st;
                   downloaded_files := downloaded_files st |} in
      Some
        match get_asset w url with
        | Raised msg => fail st msg
        | Response code content =>
            if is_success code then
              match safe_filename_from_url url with
              | None => fail st (str_e w ValueError)
              | Some local_rel =>
                  let local_path := Fs.path_str root local_rel in
                  if io_ok w (SaveAsset url) then
                    match Fs.write_file local_rel (Data content) (ws st) with
                    | (ws', true) =>
                        let size := String.length content in
                        (Asset url local_path size,
                         {| sem := permits; ws := ws';
                            bytes_downloaded := bytes_downloaded st + size;
                            bytes_since_last := bytes_since_last st + size;
                            last_update := last_update st;
                            downloaded_files :=
                              downloaded_files st ++ [(url, local_path, size)] |})
                    | (ws', false) =>
                        fail {| sem := permits; ws := ws';
                                bytes_downloaded := bytes_downloaded st;
                                bytes_since_last := bytes_since_last st;
                                last_update := last_update st;
                                downloaded_files := downloaded_files st |}
                             (str_e w (OsError (SaveAsset url)))
                    end
                  else fail st (str_e w (OsError (SaveAsset url)))
              end
            else fail st (str_e w (BadStatus url code))
        end
  end.

(** [await asyncio.gather] of [consume(g)] for [g] in [batch]: the events of the
    batch in the order of the batch, once every task has yielded; [None]
    when a task never gets a permit, so that [gather] never returns. *)
Fixpoint gather (root : string) (batch : list string) (st : dstate)
    : option (list event * dstate) :=
  match batch with
  | [] => Some ([], st)
  | url :: rest =>
      '(ev, st) ← download_and_save root url st;
      '(evs, st) ← gather root rest st;
      Some (ev :: evs, st)
  end.

(** emit progress *)
Definition emit_progress (k : nat) (st : dstate) : list event * dstate :=
  let now := time_after_batch w k in
  let elapsed := (now - last_update st)%Z in
  if (500 <=? elapsed)%Z then
    let speed := Z.to_nat (Z.of_nat (bytes_since_last st) * 1000 / elapsed) in
    ([Progress (bytes_downloaded st) speed],
     {| sem := sem st; ws := ws st;
        bytes_downloaded := bytes_downloaded st;
        bytes_since_last := 0;
        last_update := now;
        downloaded_files := downloaded_files st |})
  else ([], st).

(** The body of [run_tasks_and_emit] over the batches that remain: the
    events sent, the state reached, and whether every batch returned
    ([false]: a batch blocks, and the state is the one before it). *)
Fixpoint run_batches (root : string) (batches : list (list string)) (k : nat)
    (st : dstate) : list event * dstate * bool :=
  match batches with
  | [] => ([], st, true)
  | batch :: rest =>
      match gather root batch st with
      | None => ([], st, false)
      | Some (results, st) =>
          let '(prog, st) := emit_progress k st in
          let '(evs, st, finished) := run_batches root rest (S k) st in
          (results ++ prog ++ evs, st, finished)
      end
  end.

(** [task_generators[i : i + CONCURRENT_DOWNLOADS]] for [i] in
    [range(0, len(task_generators), CONCURRENT_DOWNLOADS)]. *)
Definition batches_of (tasks : list string) : list (list string) :=
  (λ k, take CONCURRENT_DOWNLOADS (drop (k * CONCURRENT_DOWNLOADS) tasks))
    <$> seq 0 ((length tasks + CONCURRENT_DOWNLOADS - 1) / CONCURRENT_DOWNLOADS).

Definition run_tasks_and_emit (root : string) (tasks : list string)
    (st : dstate) : list event * dstate * bool :=
  run_batches root (batches_of tasks) 0 st.

(** rewrite HTML to point to local files *)
Definition rewrite_stage (web_url : string) (t : node) : list event * node :=
  let failed (t : node) (f : failure) :=
    ([Status "rewriting_html"; Error ("rewrite_failed: " +:+ str_e w f)], t) in
  if io_ok w ReadPage then
    match Fs.read_file ["index.html"] t with
    | Some (Data html_text) =>
        match rewrite_html web_url (BeautifulSoup html_text) with
        | Some doc =>
            if io_ok w WriteRewritten then
              match Fs.write_file "index.html" (Data (prettify doc)) t with
              | (t, true) => ([Status "rewriting_html"; Status "html_rewritten"], t)
              | (t, false) => failed t (OsError WriteRewritten)
              end
            else failed t (OsError WriteRewritten)
        | None => failed t ValueError
        end
    | _ => failed t (OsError ReadPage)
    end
  else failed t (OsError ReadPage).

(** create info.json *)
Definition info_stage (web_url : string) (st : dstate) (t : node)
    : list event * node * option Info :=
  let info := {| cloned_from := web_url;
                 timestamp_utc := utcnow_iso w +:+ "Z";
                 total_files_downloaded := length (downloaded_files st) + 1;
                 downloaded_bytes := bytes_downloaded st;
                 zip_name := zipped_name |} in
  let failed (t : node) :=
    ([Status "creating_info_json";
      Error ("info_json_failed: " +:+ str_e w (OsError WriteInfo))], t, None) in
  if io_ok w WriteInfo then
    match Fs.write_file "info.json" (Json info) t with
    | (t, true) =>
        ([Status "creating_info_json"; Status "info_json_created"], t, Some info)
    | (t, false) => failed t
    end
  else failed t.

(** The names of the workspace root from the file-system root down. *)
Definition root_parts : list string :=
  Fs.components make_workspace.

(** [zf.write(file_path, arcname)] for one file of a directory that
    [os.walk] lists: the name of the entry and the data read from the file;
    [None] when the file cannot be read. *)
Definition zip_file (t : node) (foldername : list string) (filename : string)
    : option (string * fdata) :=
  let file_path := foldername ++ [filename] in
  let arcname := Py.join "/" (Fs.relpath file_path root_parts) in
  rel ← Fs.below root_parts file_path;
  content ← Fs.read_file rel t;
  Some (arcname, content).

(** The inner loop: [for filename in filenames]. *)
Definition zip_dir (t : node) (x : list string * list string * list string)
    : option (list (string * fdata)) :=
  let '(foldername, _, filenames) := x in mapM (zip_file t foldername) filenames.

(** The outer loop: [for foldername, _, filenames in os.walk(root)]. *)
Definition zip_entries (t : node) : option (list (string * fdata)) :=
  written ← mapM (zip_dir t) (Fs.os_walk root_parts t);
  Some (mjoin written).

(** create zip *)
Definition zip_stage (t : node) : list event * option (list (string * fdata)) :=
  let failed :=
    ([Status "creating_zip";
      Error ("zip_failed: " +:+ str_e w (OsError WriteZip))], None) in
  if io_ok w WriteZip then
    match zip_entries t with
    | Some zf => ([Status "creating_zip"; Status "zip_created"], Some zf)
    | None => failed
    end
  else failed.

(** The generator: the events it yields, how it ends, and what it leaves.
    The handler [download_batch_failed] around [run_tasks_and_emit] is not
    reachable: [gather] is called with [return_exceptions=True] and
    [download_and_save] catches what its body raises. *)
Definition sse_generator (web : string) : Run :=
  let web_url := ensure_scheme web in
  let root := make_workspace in
  let stop (o : outcome) (evs : list event) (found : option (gset string))
           (t : node) :=
    {| trace := evs; outcome_of := o; discovered := found; workspace := t;
       manifest := None; archive := None |} in
  match fetch_html web_url with
  | (evs1, None) => stop Aborted evs1 None (Dir [])
  | (evs1, Some html) =>
      match discover web_url (BeautifulSoup html) with
      | None => stop Crashed evs1 None (Dir [])
      | Some (evs2, asset_urls) =>
          let total_items := size asset_urls + 1 in
          let evs3 := evs1 ++ evs2 ++ [Meta total_items] in
          if negb (io_ok w WritePage) then stop Crashed evs3 (Some asset_urls) (Dir [])
          else
            let t := (Fs.write_file "index.html" (Data html) (Dir [])).1 in
            let st := {| sem := CONCURRENT_DOWNLOADS; ws := t;
                         bytes_downloaded := 0; bytes_since_last := 0;
                         last_update := time_downloads w;
                         downloaded_files := [] |} in
            let url_list := list_of_set asset_urls in
            match run_tasks_and_emit root url_list st with
            | (evs4, st, false) =>
                stop Blocked (evs3 ++ evs4) (Some asset_urls) (ws st)
            | (evs4, st, true) =>
                let '(evs5, t) := rewrite_stage web_url (ws st) in
                let '(evs6, t, info) := info_stage web_url st t in
                match zip_stage t with
                | (evs7, None) =>
                    {| trace := evs3 ++ evs4 ++ evs5 ++ evs6 ++ evs7;
                       outcome_of := Aborted; discovered := Some asset_urls;
                       workspace := t; manifest := info; archive := None |}
                | (evs7, Some zf) =>
                    let elapsed := ((time_end w - time_start w) / 1000)%Z in
                    {| trace := evs3 ++ evs4 ++ evs5 ++ evs6 ++ evs7 ++
                                [Done zipped_fullpath zipped_name (Z.to_nat elapsed)];
                       outcome_of := Completed; discovered := Some asset_urls;
                       workspace := t; manifest := info; archive := Some zf |}
                end
            end
      end
  end.

End Pipeline.

(** ** What the specification says, in its own words

    Definitions that follow the wording of the specification; the theorems
    compare them with the code above. *)

(** The characters the specification lists as not allowed in a file name:
    backslash, colon, star, question mark, double quote (character 34), the
    angle brackets and the bar. *)
Definition disallowed_characters : list ascii :=
  ["\"; ":"; "*"; "?"; "034"; "<"; ">"; "|"]%char.

(** The letters and the digits. *)
Definition alphanumeric_characters : list ascii :=
  String.list_ascii_of_string
    "0123456789abcdefghijklmnopqrstuvwxyzABCDEFGHIJKLMNOPQRSTUVWXYZ".

(** A text in which every character that satisfies [replaced] has become an
    underscore. *)
Definition underscore_for (replaced : ascii → Prop) `{∀ c, Decision (replaced c)}
    (l : list ascii) : list ascii :=
  (λ c, if decide (replaced c) then "_"%char else c) <$> l.

(** A path made relative: without its leading slashes. *)
Fixpoint made_relative (l : list ascii) : list ascii :=
  match l with
  | c :: l' => if decide (c = "/"%char) then made_relative l' else l
  | [] => []
  end.

(** The Local Path Mapper as the specification describes it, on the text of
    the URL's components as lists of characters: the host with its colons
    replaced is the path prefix (no prefix when the URL has no host); the
    path component follows, with [index.html] as its file when it is empty or
    ends with a slash; the characters that are not allowed are replaced by an
    underscore; and, when there is a query, an underscore and the first 40
    characters of the query, with what is not a letter or a digit replaced,
    are appended.  It is written with the list functions of the library and
    uses none of the definitions that embed the code. *)
Definition claimed_local_path (p : ParseResult) : string :=
  let host :=
    underscore_for (λ c, c = ":"%char) (String.list_ascii_of_string (netloc p)) in
  let path := String.list_ascii_of_string (path p) in
  let file :=
    if decide (path = [] ∨ last path = Some "/"%char)
    then path ++ String.list_ascii_of_string "index.html" else path in
  let joined :=
    if decide (host = []) then made_relative file
    else host ++ "/"%char :: made_relative file in
  let cleaned := underscore_for (λ c, c ∈ disallowed_characters) joined in
  let fingerprint :=
    take 40 (underscore_for (λ c, c ∉ alphanumeric_characters)
               (String.list_ascii_of_string (query p))) in
  String.string_of_list_ascii
    (if decide (query p = "") then cleaned else cleaned ++ "_"%char :: fingerprint).

(** The path component of a URL has a static-resource extension: it ends with
    a dot and one of the extensions, in any case. *)
Definition path_has_static_extension `{UrlLib} (url : string) : bool :=
  match urlparse url with
  | Some p =>
      existsb (λ e, Py.endswith (Py.lower (path p)) ("." +:+ e)) Re.static_extensions
  | None => false
  end.

(** The references the two patterns of [extract_css_urls_from_text] find in a
    stylesheet. *)
Definition css_references (css_text : string) : list string :=
  filter (λ mclean, mclean ≠ "")
    (strip_quotes <$> Re.findall Re.url_pattern css_text)
  ++ Re.findall Re.import_pattern css_text.

(** The directory of a URL: its path up to the last slash. *)
Definition url_directory `{UrlLib} (url : string) : option string :=
  p ← urlparse url;
  Some (match Urllib.rcut_slash (path p) with
        | Some (dir, _) => dir +:+ "/"
        | None => ""
        end).

Definition url_host `{UrlLib} (url : string) : option string :=
  netloc <$> urlparse url.

(** A reference is relative when it names no scheme. *)
Definition relative_reference `{UrlLib} (r : string) : Prop :=
  scheme <$> urlparse r = Some "".

(** The sentence of the specification about stylesheets, read literally: a
    relative reference resolves differently from the page and from a
    stylesheet whenever the two lie in different directories or on different
    hosts. *)
Definition resolves_differently_whenever_elsewhere `{UrlLib} : Prop :=
  ∀ page_url stylesheet_url r,
    relative_reference r →
    (url_directory page_url ≠ url_directory stylesheet_url ∨
     url_host page_url ≠ url_host stylesheet_url) →
    urljoin page_url r ≠ urljoin stylesheet_url r.

(** ** Observations on a run *)

Definition is_meta (e : event) : bool :=
  match e with Meta _ => true | _ => false end.

Definition is_done (e : event) : bool :=
  match e with Done _ _ _ => true | _ => false end.

Definition is_error (e : event) : bool :=
  match e with Error _ => true | _ => false end.

Definition is_progress (e : event) : bool :=
  match e with Progress _ _ => true | _ => false end.

(** An [asset] or [asset_error] event. *)
Definition is_download_event (e : event) : bool :=
  match e with Asset _ _ _ | AssetError _ _ => true | _ => false end.

(** The URL an [asset] or [asset_error] event reports on. *)
Definition download_url (e : event) : option string :=
  match e with
  | Asset url _ _ | AssetError url _ => Some url
  | _ => None
  end.

(** The [size] field of an [asset] event; other events carry none. *)
Definition asset_size (e : event) : nat :=
  match e with Asset _ _ size => size | _ => 0 end.

(** The four stages whose order the specification fixes: [meta] (1), the
    download events (2), [status: rewriting_html] (3), and the events of the
    manifest and of the archive, [done] included (4). *)
Definition stage (e : event) : option nat :=
  match e with
  | Meta _ => Some 1
  | Asset _ _ _ | AssetError _ _ => Some 2
  | Status s =>
      if String.eqb s "rewriting_html" then Some 3
      else if Urllib.in_list s ["creating_info_json"; "info_json_created";
                                "creating_zip"; "zip_created"]
      then Some 4 else None
  | Error m =>
      if Py.startswith m "info_json_failed: " || Py.startswith m "zip_failed: "
      then Some 4 else None
  | Done _ _ _ => Some 4
  | Progress _ _ => None
  end.

(** An event that belongs to none of the four stages and reports on no
    download. *)
Definition quiet (e : event) : Prop :=
  stage e = None ∧ is_meta e = false ∧ is_done e = false ∧
  is_download_event e = false ∧ asset_size e = 0.

(** An event of the manifest or of the archive other than [done]. *)
Definition closing (e : event) : Prop :=
  stage e = Some 4 ∧ is_meta e = false ∧ is_done e = false ∧
  is_download_event e = false ∧ asset_size e = 0.

(** No event of a later stage comes before an event of an earlier one. *)
Definition in_stage_order (e1 e2 : event) : Prop :=
  ∀ a b, stage e1 = Some a → stage e2 = Some b → a ≤ b.

(** A piece of a trace whose events are in stage order and whose stages lie
    between [lo] and [hi]. *)
Definition seg (lo hi : nat) (l : list event) : Prop :=
  lo ≤ hi ∧
  StronglySorted in_stage_order l ∧
  Forall (λ e, ∀ a, stage e = Some a → lo ≤ a ≤ hi) l.

(** The outcome of [download_and_save] on [url], seen from outside: the
    request answered with a 2xx status, the URL mapped to a local path, and
    the file was written. *)
Definition download_succeeds `{UrlLib} (w : World) (url : string) (t : node) : bool :=
  match get_asset w url with
  | Response code content =>
      is_success code &&
      match safe_filename_from_url url with
      | Some local_rel =>
          io_ok w (SaveAsset url) && (Fs.write_file local_rel (Data content) t).2
      | None => false
      end
  | Raised _ => false
  end.

(** ** Files of a workspace *)

(** [file_at t p d]: the tree [t] has a regular file with data [d] at the
    relative path [p]. *)
Inductive file_at : node → list string → fdata → Prop :=
| file_here es nm d :
    (nm, File d) ∈ es → file_at (Dir es) [nm] d
| file_below es nm sub p d :
    (nm, sub) ∈ es → file_at sub p d → file_at (Dir es) (nm :: p) d.

(** The archive entry of a file: its path from the root, joined by slashes,
    and its data. *)
Definition entry_of (pd : list string * fdata) : string * fdata :=
  (Py.join "/" pd.1, pd.2).

Definition is_dir (t : node) : Prop :=
  match t with Dir _ => True | File _ => False end.

(** A name a directory entry can have. *)
Definition valid_name (nm : string) : Prop :=
  nm ≠ "" ∧ nm ≠ "." ∧ nm ≠ ".." ∧ Urllib.has_char "/" nm = false.

(** A tree as a file system keeps it: the names of a directory are valid and
    pairwise distinct. *)
#[warnings="-register-all"]
Inductive wf_node : node → Prop :=
| wf_file d : wf_node (File d)
| wf_dir es :
    NoDup es.*1 →
    Forall (λ e, valid_name e.1 ∧ wf_node e.2) es →
    wf_node (Dir es).

(** ** The download stage as a transition system

    The scheduling of lines 199-241, with the fetches abstracted to their
    begin and end.  Task [k] is the generator [download_and_save(url_list[k])].
    [gather] starts the tasks of the current batch; a started task takes a
    permit of [sem] when one is left ([acquire]) and its request is then in
    flight, or waits for a permit.  When the answer arrives the task yields
    its event and stays suspended inside [async with sem]: its permit is not
    given back.  No transition releases a permit, since nothing resumes or
    closes a generator after its first [yield]; so a waiting task stays
    waiting.  The loop of [run_tasks_and_emit] moves to the next batch when
    [gather] has returned, that is when every task of the batch has yielded. *)

Module Scheduler.

Inductive task :=
| Created     (* generator object made, not started *)
| Waiting     (* in [sem.acquire()] *)
| InFlight    (* holds a permit; [client.get] under way *)
| Yielded.    (* event yielded; suspended, permit still held *)

Global Instance task_eq_dec : EqDecision task.
Proof. solve_decision. Defined.

Record state := {
  permits : nat;            (* value of [sem] *)
  batch_start : nat;        (* [i] of the loop over batches *)
  tasks : list task
}.

Definition init (n : nat) : state :=
  {| permits := CONCURRENT_DOWNLOADS; batch_start := 0;
     tasks := replicate n Created |}.

Definition in_batch (s : state) (k : nat) : bool :=
  (batch_start s <=? k) && (k <? batch_start s + CONCURRENT_DOWNLOADS).

Definition batch_yielded (s : state) : bool :=
  forallb (λ t, bool_decide (t = Yielded))
    (take CONCURRENT_DOWNLOADS (drop (batch_start s) (tasks s))).

Inductive action :=
| Start (k : nat)      (* task [k] reaches [async with sem] *)
| Finish (k : nat)     (* the request of task [k] ends; the task yields *)
| NextBatch.           (* [gather] returns; the loop takes the next batch *)

Definition set_task (k : nat) (t : task) (s : state) (permits' : nat) : state :=
  {| permits := permits'; batch_start := batch_start s;
     tasks := <[k := t]> (tasks s) |}.

Definition exec (a : action) (s : state) : option state :=
  match a with
  | Start k =>
      match tasks s !! k with
      | Some Created =>
          if in_batch s k then
            match permits s with
            | S p => Some (set_task k InFlight s p)
            | O => Some (set_task k Waiting s 0)
            end
          else None
      | _ => None
      end
  | Finish k =>
      match tasks s !! k with
      | Some InFlight => Some (set_task k Yielded s (permits s))
      | _ => None
      end
  | NextBatch =>
      if batch_yielded s &&
         (batch_start s + CONCURRENT_DOWNLOADS <? length (tasks s))
      then Some {| permits := permits s;
                   batch_start := batch_start s + CONCURRENT_DOWNLOADS;
                   tasks := tasks s |}
      else None
  end.

Definition step (s s' : state) : Prop := ∃ a, exec a s = Some s'.

(** The states a download stage over [n] URLs can be in. *)
Definition reachable (n : nat) (s : state) : Prop := rtc step (init n) s.

Fixpoint run (acts : list action) (s : state) : option state :=
  match acts with
  | [] => Some s
  | a :: acts' => exec a s ≫= run acts'
  end.

(** The number of HTTP fetches in flight. *)
Definition in_flight (s : state) : nat :=
  length (filter (λ t, t = InFlight) (tasks s)).

(** The permits taken are those of the tasks in flight or suspended. *)
Definition holds_permit (t : task) : Prop := t = InFlight ∨ t = Yielded.

(** What holds in every reachable state: the permits left and the permits
    held add up to [CONCURRENT_DOWNLOADS]; the tasks of the batches before
    the current one have yielded; those of the batches after it have not
    been started. *)
Definition invariant (n : nat) (s : state) : Prop :=
  length (tasks s) = n ∧
  permits s + length (filter holds_permit (tasks s)) = CONCURRENT_DOWNLOADS ∧
  (∀ k t, tasks s !! k = Some t → k < batch_start s → t = Yielded) ∧
  (∀ k t, tasks s !! k = Some t →
          batch_start s + CONCURRENT_DOWNLOADS ≤ k → t = Created).

(** Nine downloads: the first batch of eight has been started and the first
    fetch has ended. *)
Definition busy_schedule : list action :=
  [Start 0; Start 1; Start 2; Start 3; Start 4; Start 5; Start 6; Start 7;
   Finish 0].

Definition busy_state : state :=
  {| permits := 0; batch_start := 0;
     tasks := [Yielded; InFlight; InFlight; InFlight; InFlight; InFlight;
               InFlight; InFlight; Created] |}.

(** Nine downloads, later on: the first batch of eight has reported, the
    loop has moved to the second batch and started the ninth download, which
    finds no permit left. *)
Definition later_schedule : list action :=
  [Start 0; Start 1; Start 2; Start 3; Start 4; Start 5; Start 6; Start 7;
   Finish 0; Finish 1; Finish 2; Finish 3; Finish 4; Finish 5; Finish 6;
   Finish 7; NextBatch; Start 8].

Definition later_state : state :=
  {| permits := 0; batch_start := 8;
     tasks := [Yielded; Yielded; Yielded; Yielded; Yielded; Yielded; Yielded;
               Yielded; Waiting] |}.

(** The second sentence of the specification on concurrency, read as it
    stands: a requested download waits only as long as the ceiling is
    reached, so it can start once fewer than [CONCURRENT_DOWNLOADS] fetches
    are in flight. *)
Definition waits_until_one_completes : Prop :=
  ∀ n s k,
    reachable n s →
    tasks s !! k = Some Created →
    in_flight s < CONCURRENT_DOWNLOADS →
    ∃ s', step s s' ∧ tasks s' !! k = Some InFlight.

End Scheduler.

(** ** Example pages and worlds *)

Module Examples.

Definition el (tag : string) (kv : list (string * string)) : element :=
  {| name := tag; attrs := list_to_map kv; text := None |}.

(** A printer standing for [prettify] in the examples. *)
Definition show (doc : soup) : string :=
  Py.join "" ((λ e, "<" +:+ name e +:+
                    Py.join "" ((λ kv, " " +:+ kv.1 +:+ "='" +:+ kv.2 +:+ "'")
                                  <$> map_to_list (attrs e)) +:+ ">") <$> doc).

(** A parser that knows the pages of a table. *)
Definition table_html (table : list (string * soup)) : HtmlLib :=
  {| BeautifulSoup html :=
       match list_find (λ kv, kv.1 = html) table with
       | Some (_, kv) => kv.2
       | None => []
       end;
     prettify := show |}.

(** The scenario of the specification: one image and one inline style. *)
Definition scenario_html : string :=
  "<img src='/a.png'><div style='background:url(/b.png)'>".
Definition scenario_page : soup :=
  [el "img" [("src", "/a.png")]; el "div" [("style", "background:url(/b.png)")]].

(** A page with nine images. *)
Definition nine_html : string :=
  "<img src='/0.png'><img src='/1.png'><img src='/2.png'><img src='/3.png'><img src='/4.png'><img src='/5.png'><img src='/6.png'><img src='/7.png'><img src='/8.png'>".
Definition nine_page : soup :=
  (λ k, el "img" [("src", "/" +:+ String (ascii_of_nat (48 + k)) ".png")]) <$> seq 0 9.

(** A navigational link whose query string mentions an image. *)
Definition anchor_html : string := "<a href='/article?ref=logo.png'>".
Definition anchor_page : soup := [el "a" [("href", "/article?ref=logo.png")]].

(** An image with an empty [srcset]. *)
Definition srcset_html : string := "<img srcset=''>".
Definition srcset_page : soup := [el "img" [("srcset", "")]].

(** A page that links a stylesheet kept in another directory. *)
Definition linked_html : string := "<link rel='stylesheet' href='/css/main.css'>".
Definition linked_page : soup :=
  [el "link" [("rel", "stylesheet"); ("href", "/css/main.css")]].
Definition linked_css : string :=
  "a{background:url(/img/a.png)} b{background:url(icon.svg)}".

#[export] Instance ExampleHtml : HtmlLib :=
  table_html [(scenario_html, scenario_page); (nine_html, nine_page);
              (anchor_html, anchor_page); (srcset_html, srcset_page);
              (linked_html, linked_page)].

(** A world in which the server answers every request with the body it is
    given for the page, [css] for every stylesheet and four bytes for every
    asset, no file operation fails, and each batch takes a second. *)
Definition serving (html css : string) : World :=
  {| utcnow_stamp := "20250101120000";
     utcnow_iso := "2025-01-01T12:00:05";
     get_page := Response 200 html;
     get_css := λ _ _, Response 200 css;
     get_asset := λ _, Response 200 "DATA";
     io_ok := λ _, true;
     str_e := λ _, "error";
     time_start := 0;
     time_downloads := 10;
     time_after_batch := λ k, (1000 * Z.of_nat (S k))%Z;
     time_end := 5000 |}.

(** The same world, except that the asset [lost] times out. *)
Definition losing (html : string) (lost : string) : World :=
  {| utcnow_stamp := "20250101120000";
     utcnow_iso := "2025-01-01T12:00:05";
     get_page := Response 200 html;
     get_css := λ _ _, Response 200 "";
     get_asset := λ url, if String.eqb url lost then Raised "timed out"
                         else Response 200 "DATA";
     io_ok := λ _, true;
     str_e := λ _, "error";
     time_start := 0;
     time_downloads := 10;
     time_after_batch := λ k, (1000 * Z.of_nat (S k))%Z;
     time_end := 5000 |}.

(** The runs of the examples. *)
Definition nine_run : Run :=
  sse_generator (L := ExampleHtml) (serving nine_html "") "http://ex.com/".

Definition scenario_run : Run :=
  sse_generator (L := ExampleHtml)
    (losing scenario_html "http://ex.com/b.png") "ex.com/".

Definition linked_run : Run :=
  sse_generator (L := ExampleHtml) (serving linked_html linked_css)
    "http://ex.com/index.html".

End Examples.

(** ** The endpoints

    The routes [/copy] and [/download/{zipname}] of the application. *)

(** What [copy_endpoint] returns: the dictionary with the error, or the
    streaming response over the events of a run. *)
Inductive copy_result :=
| MissingWeb                  (* the dictionary with error: missing web parameter *)
| StreamingResponse (r : Run).

(** [copy_endpoint(request, web)] *)
Definition copy_endpoint {U : UrlLib} {L : HtmlLib} {P : PySet}
    (w : World) (web : string) : copy_result :=
  if String.eqb web "" then MissingWeb
  else
    let web :=
      if negb (Py.startswith web "http://") && negb (Py.startswith web "https://")
      then "http://" +:+ web else web in
    StreamingResponse (sse_generator w web).

(** What [download_zip] returns: the dictionary with error: not_found, or
    the file response for the archive. *)
Inductive download_result :=
| NotFound
| FileResponse (path filename : string).

(** [download_zip(zipname)].  [zipname] is a path parameter of the route: it
    is not empty and holds no slash.  [path_exists] tells which paths exist
    when the request comes. *)
Definition download_zip (path_exists : string → bool) (zipname : string)
    : download_result :=
  let path := Fs.path_str TMP_ROOT zipname in
  if negb (path_exists path) then NotFound else FileResponse path zipname.

(** ** More observations on a run *)

Definition is_asset (e : event) : bool :=
  match e with Asset _ _ _ => true | _ => false end.

(** A [status] or an [error] event. *)
Definition is_report (e : event) : bool :=
  match e with Status _ | Error _ => true | _ => false end.

(** What an [asset] event says of its download: the server answered the
    request for the URL with a 2xx status, [size] is the length of the body,
    and [saved] is the workspace root extended by the mapped path of the
    URL. *)
Definition saved_as `{UrlLib} (w : World) (root : string) (e : event) : Prop :=
  match e with
  | Asset url saved size =>
      ∃ code content local_rel,
        get_asset w url = Response code content ∧ is_success code = true ∧
        size = String.length content ∧
        safe_filename_from_url url = Some local_rel ∧
        saved = Fs.path_str root local_rel
  | _ => True
  end.

(** The [status] event that announces the request for a stylesheet. *)
Definition fetching_css (css_url : string) : event :=
  Status ("fetching_css " +:+ css_url).

(** The tree [t] has a regular file at the path [p]. *)
Definition has_file (t : node) (p : list string) : Prop :=
  ∃ d, Fs.node_at p t = Some (File d).

(** The file of an [asset] event is in the tree [t], at the mapped path of
    the URL, when that path does not climb out of a directory. *)
Definition stored `{UrlLib} (t : node) (e : event) : Prop :=
  match e with
  | Asset url _ _ =>
      ∀ local_rel, safe_filename_from_url url = Some local_rel →
                   ".." ∉ Fs.components local_rel →
                   has_file t (Fs.components local_rel)
  | _ => True
  end.

(** ** The Rewriter, element by element *)

(** What [rewrite_all] does with one element. *)
Definition rewrite_one `{UrlLib} (web_url tag attr : string) (el : element)
    : option element :=
  if decide (name el = tag) then rewrite_attr web_url attr el else Some el.

(** Two elements that differ at most in the values of their attributes. *)
Definition alike (el el' : element) : Prop :=
  name el' = name el ∧ text el' = text el ∧ dom (attrs el') = dom (attrs el).

(** ** Further example pages and worlds *)

Module Cases.

(** An audio player, which the extractor knows and the Rewriter does not. *)
Definition audio_page : soup :=
  [Examples.el "img" [("src", "/a.png")]; Examples.el "audio" [("src", "/song.mp3")]].

Definition audio_html : string := "<img src='/a.png'><audio src='/song.mp3'>".

(** A page with a reference that [urljoin] rejects: an authority with an
    opening bracket and no closing one. *)
Definition broken_html : string := "<img src='http://['>".
Definition broken_page : soup := [Examples.el "img" [("src", "http://[")]].

Definition pages : HtmlLib :=
  Examples.table_html [(audio_html, audio_page); (broken_html, broken_page)].

(** A world whose server does not answer. *)
Definition offline : World :=
  {| utcnow_stamp := "20250101120000";
     utcnow_iso := "2025-01-01T12:00:05";
     get_page := Raised "connection refused";
     get_css := λ _ _, Raised "connection refused";
     get_asset := λ _, Raised "connection refused";
     io_ok := λ _, true;
     str_e := λ _, "error";
     time_start := 0;
     time_downloads := 10;
     time_after_batch := λ k, (1000 * Z.of_nat (S k))%Z;
     time_end := 5000 |}.

(** A world that serves [html] and in which the page cannot be written to
    the workspace. *)
Definition read_only (html : string) : World :=
  {| utcnow_stamp := "20250101120000";
     utcnow_iso := "2025-01-01T12:00:05";
     get_page := Response 200 html;
     get_css := λ _ _, Response 200 "";
     get_asset := λ _, Response 200 "DATA";
     io_ok := λ op, match op with WritePage => false | _ => true end;
     str_e := λ _, "error";
     time_start := 0;
     time_downloads := 10;
     time_after_batch := λ k, (1000 * Z.of_nat (S k))%Z;
     time_end := 5000 |}.

Definition offline_run : Run :=
  sse_generator (L := pages) offline "http://ex.com/".

Definition read_only_run : Run :=
  sse_generator (L := pages) (read_only audio_html) "http://ex.com/".

Definition broken_run : Run :=
  sse_generator (L := pages) (Examples.serving broken_html "") "http://ex.com/".

End Cases.

(** ** Example stylesheets

    Runs on the page [Examples.linked_html], served at
    [http://ex.com/index.html], whose one stylesheet is
    [http://ex.com/css/main.css]. *)

Module Sheets.

(** A stylesheet that names the page itself. *)
Definition self_css : string :=
  "a{background:url(index.html)} b{background:url(icon.svg)}".

(** A stylesheet with a reference that [urljoin] rejects. *)
Definition unresolvable_css : string :=
  "a{background:url(a.png)} b{background:url(http://[)}".

(** The world [Examples.serving], except that every stylesheet is answered
    with the status [code]. *)
Definition answering (code : nat) (html css : string) : World :=
  {| utcnow_stamp := "20250101120000";
     utcnow_iso := "2025-01-01T12:00:05";
     get_page := Response 200 html;
     get_css := λ _ _, Response code css;
     get_asset := λ _, Response 200 "DATA";
     io_ok := λ _, true;
     str_e := λ _, "error";
     time_start := 0;
     time_downloads := 10;
     time_after_batch := λ k, (1000 * Z.of_nat (S k))%Z;
     time_end := 5000 |}.

Definition run_of (w : World) : Run :=
  sse_generator (L := Examples.ExampleHtml) w "http://ex.com/index.html".

(** The stylesheet of [Examples.linked_css], answered with status 203. *)
Definition non_authoritative_run : Run :=
  run_of (answering 203 Examples.linked_html Examples.linked_css).

Definition self_run : Run :=
  run_of (answering 200 Examples.linked_html self_css).

Definition unresolvable_run : Run :=
  run_of (answering 200 Examples.linked_html unresolvable_css).

End Sheets.

(** * Properties *)

(** ** The Local Path Mapper *)

Lemma startswith_cons c s : Py.startswith (String c s) "/" = Ascii.eqb c "/".
Proof.
  simpl. rewrite Ascii.eqb_sym. apply andb_true_r.
Qed.

Lemma lstrip_slash_head s : Py.startswith (Py.lstrip ["/"%char] s) "/" = false.
Proof.
  induction s as [|c s IH]; [done|]. cbn [Py.lstrip].
  destruct (Py.mem c _) eqn:E; [done|].
  rewrite startswith_cons. unfold Py.mem in E. simpl in E.
  by rewrite orb_false_r in E.
Qed.

Lemma endswith_nil suf : Py.endswith "" suf = String.eqb "" suf.
Proof. by destruct suf. Qed.

Lemma app_cons c s t : String c s +:+ t = String c (s +:+ t).
Proof. reflexivity. Qed.

Lemma app_nil_l t : "" +:+ t = t.
Proof. reflexivity. Qed.

Lemma lstrip_app_keep cs s c t :
  Py.mem c cs = false → Py.lstrip cs (s +:+ String c t) ≠ "".
Proof.
  intros Hc. induction s as [|d s IH].
  - rewrite app_nil_l. cbn [Py.lstrip]. by rewrite Hc.
  - rewrite app_cons. cbn [Py.lstrip]. destruct (Py.mem d cs); [done|discriminate].
Qed.

Lemma lstrip_empty_endswith s :
  s ≠ "" → Py.lstrip ["/"%char] s = "" → Py.endswith s "/" = true.
Proof.
  induction s as [|c s IH]; [done|]. intros _. simpl.
  destruct (Ascii.eqb c "/") eqn:E; simpl; [|discriminate].
  apply Ascii.eqb_eq in E as ->. intros Hs.
  destruct s as [|d s]; [done|].
  rewrite IH; [|done|done].
  by destruct (String.eqb _ _).
Qed.

Lemma replace_eq_nil a b s : Py.replace a b s = "" → s = "".
Proof. by destruct s. Qed.

Lemma eqb_false_ne s t : s ≠ t → String.eqb s t = false.
Proof. intros. by apply String.eqb_neq. Qed.

(** [s.endswith("/")], by the last character. *)
Lemma endswith_slash_cons (c : ascii) (s : string) :
  Py.endswith (String c s) "/"
  = match s with
    | EmptyString => Ascii.eqb c "/"
    | String _ _ => Py.endswith s "/"
    end.
Proof.
  cbn [Py.endswith]. destruct s as [|d s].
  - cbn. by destruct (Ascii.eqb c "/").
  - cbn [String.eqb]. by destruct (Ascii.eqb c "/").
Qed.

Lemma endswith_map (g : ascii → ascii) (s : string) :
  (∀ c, Ascii.eqb (g c) "/" = Ascii.eqb c "/") →
  Py.endswith (Py.map g s) "/" = Py.endswith s "/".
Proof.
  intros Hg. induction s as [|c s IH]; [done|].
  cbn [Py.map]. rewrite !endswith_slash_cons. destruct s as [|d s]; [apply Hg|].
  exact IH.
Qed.

Lemma no_slash_endswith (s : string) :
  Urllib.has_char "/" s = false → Py.endswith s "/" = false.
Proof.
  induction s as [|c s IH]; [done|]. simpl Urllib.has_char.
  intros [Hc Hs]%orb_false_iff. rewrite endswith_slash_cons.
  destruct s as [|d s]; [by rewrite Ascii.eqb_sym|by apply IH].
Qed.

(** *** Python strings as lists of characters *)

Lemma chars_app (s t : string) :
  String.list_ascii_of_string (s +:+ t)
  = String.list_ascii_of_string s ++ String.list_ascii_of_string t.
Proof. induction s as [|c s IH]; [done|]. simpl. by rewrite <- IH. Qed.

Lemma of_chars_app (l k : list ascii) :
  String.string_of_list_ascii (l ++ k)
  = String.string_of_list_ascii l +:+ String.string_of_list_ascii k.
Proof. induction l as [|c l IH]; [done|]. simpl. by rewrite IH. Qed.

Lemma chars_eq_nil (s : string) : String.list_ascii_of_string s = [] ↔ s = "".
Proof. by destruct s. Qed.

Lemma map_chars (f : ascii → ascii) (l : list ascii) :
  String.string_of_list_ascii (f <$> l) = Py.map f (String.string_of_list_ascii l).
Proof. induction l as [|c l IH]; [done|]. simpl. by rewrite <- IH. Qed.

Lemma take_chars (n : nat) (l : list ascii) :
  String.string_of_list_ascii (take n l) = Py.take n (String.string_of_list_ascii l).
Proof. revert n. induction l as [|c l IH]; intros [|n]; try done. simpl. by rewrite IH. Qed.

Lemma made_relative_chars (l : list ascii) :
  String.string_of_list_ascii (made_relative l)
  = Py.lstrip ["/"%char] (String.string_of_list_ascii l).
Proof.
  induction l as [|c l IH]; [done|]. simpl.
  destruct (decide (c = "/"%char)) as [->|Hc]; [by rewrite IH|].
  apply Ascii.eqb_neq in Hc. by rewrite Hc.
Qed.

Lemma last_chars (s : string) :
  last (String.list_ascii_of_string s) = Some "/"%char ↔ Py.endswith s "/" = true.
Proof.
  induction s as [|c s IH]; [done|]. rewrite endswith_slash_cons.
  destruct s as [|d s]; [|exact IH]. simpl. rewrite Ascii.eqb_eq. split; congruence.
Qed.

Lemma disallowed_spec (c : ascii) :
  bool_decide (c ∈ disallowed_characters) = forbidden_char c.
Proof. destruct c as [[] [] [] [] [] [] [] []]; vm_compute; reflexivity. Qed.

Lemma alphanumeric_spec (c : ascii) :
  bool_decide (c ∈ alphanumeric_characters) = alnum_char c.
Proof. destruct c as [[] [] [] [] [] [] [] []]; vm_compute; reflexivity. Qed.

(** *** The authority of a URL holds no slash *)

Lemma span_until_stops (stop : ascii → bool) (c : ascii) (s : string) :
  stop c = true → Urllib.has_char c (Urllib.span_until stop s).1 = false.
Proof.
  intros Hc. induction s as [|d s IH]; [done|]. simpl.
  destruct (stop d) eqn:Hd; [done|].
  destruct (Urllib.span_until stop s) as [a b]. simpl in *. rewrite IH.
  destruct (Ascii.eqb_spec c d) as [->|]; [congruence|done].
Qed.

Lemma urlsplit_netloc (url default : string) (r : Urllib.SplitResult) :
  Urllib.urlsplit url default = Some r →
  Urllib.has_char "/" (Urllib.s_netloc r) = false.
Proof.
  unfold Urllib.urlsplit.
  set (u0 := Urllib.remove_by _ _). set (d0 := Urllib.remove_by _ _).
  destruct (match Urllib.cut ":" u0 with
            | Some (String c0 pre as p, rest) =>
                if Py.is_alpha c0 && Urllib.all_chars Urllib.scheme_char p
                then (Py.lower p, rest) else (d0, u0)
            | _ => (d0, u0)
            end) as [sch u1].
  intros Hr. apply bind_Some in Hr as ([host u2] & Hh & Hr).
  assert (Urllib.has_char "/" host = false) as Hhost.
  { destruct (Py.startswith u1 "//"); [|by injection Hh as <- _].
    unfold Urllib._splitnetloc in Hh.
    pose proof (span_until_stops (λ c, Py.mem c ["/"; "?"; "#"]%char) "/"
                  (Py.drop 2 u1) eq_refl) as Hs.
    destruct (Urllib.span_until _ _) as [h rest]. simpl in Hs.
    destruct (xorb _ _); [done|]. by injection Hh as <- _. }
  destruct (match Urllib.cut "#" u2 with Some (a, b) => (a, b) | None => (u2, "") end)
    as [u3 frag].
  destruct (match Urllib.cut "?" u3 with Some (a, b) => (a, b) | None => (u3, "") end)
    as [u4 qry].
  by injection Hr as <-.
Qed.

Lemma urlparse_netloc (url : string) (p : ParseResult) :
  urlparse (UrlLib := PyUrl) url = Some p → Urllib.has_char "/" (netloc p) = false.
Proof.
  simpl. unfold Urllib.urlparse_with. intros Hp.
  apply bind_Some in Hp as (r & Hr%urlsplit_netloc & Hp).
  destruct (if _ && _ then _ else _) as [u prm]. by injection Hp as <-.
Qed.

(** *** The description and the code *)

Lemma underscore_for_map (replaced : ascii → Prop) `{∀ c, Decision (replaced c)}
    (f : ascii → ascii) (l : list ascii) :
  (∀ c, (if decide (replaced c) then "_"%char else c) = f c) →
  String.string_of_list_ascii (underscore_for replaced l)
  = Py.map f (String.string_of_list_ascii l).
Proof.
  intros Hf. unfold underscore_for. rewrite <- map_chars. f_equal.
  apply list_fmap_ext. intros _ c _. apply Hf.
Qed.

Lemma replace_no_slash (s : string) :
  Urllib.has_char "/" s = false →
  Py.endswith (Py.replace ":" "_" s) "/" = false.
Proof.
  intros Hs. unfold Py.replace. rewrite endswith_map; [by apply no_slash_endswith|].
  intros c. destruct (Ascii.eqb_spec c ":") as [->|]; done.
Qed.

(** The description, with the operations of the code. *)
Lemma claimed_local_path_unfold (p : ParseResult) :
  claimed_local_path p
  = let host := Py.replace ":" "_" (netloc p) in
    let file :=
      if String.eqb (path p) "" || Py.endswith (path p) "/"
      then path p +:+ "index.html" else path p in
    let joined :=
      if String.eqb host "" then Py.lstrip ["/"%char] file
      else host +:+ "/" +:+ Py.lstrip ["/"%char] file in
    let cleaned := Py.map (λ c, if forbidden_char c then "_"%char else c) joined in
    if String.eqb (query p) "" then cleaned
    else cleaned +:+ "_" +:+
         Py.take 40 (Py.map (λ c, if alnum_char c then c else "_"%char) (query p)).
Proof.
  unfold claimed_local_path. cbv zeta.
  set (hostL := underscore_for _ (String.list_ascii_of_string (netloc p))).
  set (fileL := if decide (_ ∨ _) then _ else _).
  set (file := if String.eqb (path p) "" || _ then _ else _).
  assert (String.string_of_list_ascii hostL = Py.replace ":" "_" (netloc p)) as Hhost.
  { unfold hostL, Py.replace.
    rewrite (underscore_for_map _ (λ c, if Ascii.eqb c ":" then "_"%char else c)).
    - by rewrite String.string_of_list_ascii_of_string.
    - intros c. destruct (decide (c = ":"%char)) as [->|Hc]; [done|].
      apply Ascii.eqb_neq in Hc. by rewrite Hc. }
  assert (String.string_of_list_ascii fileL = file) as Hfile.
  { unfold fileL, file. destruct (decide _) as [Hd|Hd].
    - rewrite of_chars_app, !String.string_of_list_ascii_of_string.
      rewrite chars_eq_nil, last_chars in Hd.
      destruct Hd as [->| ->]; [done|]. by rewrite orb_true_r.
    - rewrite String.string_of_list_ascii_of_string.
      rewrite chars_eq_nil, last_chars in Hd.
      destruct (String.eqb_spec (path p) ""); [tauto|].
      destruct (Py.endswith (path p) "/"); [tauto|done]. }
  assert (String.string_of_list_ascii
            (if decide (hostL = []) then made_relative fileL
             else hostL ++ "/"%char :: made_relative fileL)
          = if String.eqb (Py.replace ":" "_" (netloc p)) ""
            then Py.lstrip ["/"%char] file
            else Py.replace ":" "_" (netloc p) +:+ "/" +:+ Py.lstrip ["/"%char] file)
    as Hjoined.
  { rewrite <- Hhost. destruct (decide (hostL = [])) as [->|Hne].
    - simpl. by rewrite made_relative_chars, Hfile.
    - destruct hostL as [|c hostL]; [done|]. simpl.
      by rewrite of_chars_app; simpl; rewrite made_relative_chars, Hfile. }
  assert (∀ l, String.string_of_list_ascii
                 (underscore_for (λ c, c ∈ disallowed_characters) l)
               = Py.map (λ c, if forbidden_char c then "_"%char else c)
                   (String.string_of_list_ascii l)) as Hclean.
  { intros l. apply underscore_for_map. intros c. rewrite <- disallowed_spec.
    destruct (decide (c ∈ disallowed_characters)) as [Hc|Hc].
    - by rewrite bool_decide_true.
    - by rewrite bool_decide_false. }
  destruct (decide (query p = "")) as [Hq|Hq].
  - rewrite Hq. simpl String.eqb. cbv iota. by rewrite Hclean, Hjoined.
  - rewrite (eqb_false_ne _ _ Hq). rewrite of_chars_app, Hclean, Hjoined.
    f_equal. simpl. f_equal. rewrite take_chars. f_equal.
    rewrite (underscore_for_map _ (λ c, if alnum_char c then c else "_"%char)).
    + by rewrite String.string_of_list_ascii_of_string.
    + intros c. rewrite <- alphanumeric_spec.
      destruct (decide (c ∈ alphanumeric_characters)) as [Hc|Hc].
      * rewrite bool_decide_true by done. by rewrite decide_False by tauto.
      * rewrite bool_decide_false by done. by rewrite decide_True.
Qed.

Lemma safe_filename_from_url_described `{UrlLib} (url : string) (p : ParseResult) :
  urlparse url = Some p →
  Urllib.has_char "/" (netloc p) = false →
  safe_filename_from_url url = Some (claimed_local_path p).
Proof.
  intros Hp Hhost. rewrite claimed_local_path_unfold.
  unfold safe_filename_from_url.
  rewrite Hp. cbn [mbind option_bind]. cbv zeta. f_equal.
  set (host := Py.replace ":" "_" (netloc p)).
  assert (Hjoin : ∀ f, f ≠ "" → Py.startswith f "/" = false →
    Py.os_path_join host (if String.eqb f "" then "index.html" else f)
    = if String.eqb host "" then f else host +:+ "/" +:+ f).
  { intros f Hf Hs. rewrite (eqb_false_ne f "") by done.
    unfold Py.os_path_join. rewrite Hs. unfold host.
    rewrite (replace_no_slash _ Hhost), orb_false_r.
    destruct (String.eqb_spec (Py.replace ":" "_" (netloc p)) "") as [->|]; done. }
  destruct (String.eqb (path p) "") eqn:Hempty.
  - apply String.eqb_eq in Hempty. rewrite Hempty.
    change (Py.endswith "/" "/") with true. cbn [orb].
    change (Py.lstrip ["/"%char] ("/" +:+ "index.html")) with "index.html".
    change (Py.lstrip ["/"%char] ("" +:+ "index.html")) with "index.html".
    by rewrite (Hjoin "index.html").
  - cbn [orb]. destruct (Py.endswith (path p) "/") eqn:Hend.
    + rewrite Hjoin; [done| |apply lstrip_slash_head].
      by apply (lstrip_app_keep _ _ "i" "ndex.html").
    + rewrite Hjoin; [done| |apply lstrip_slash_head].
      intros E. apply lstrip_empty_endswith in E; [congruence|].
      by apply String.eqb_neq.
Qed.

(** ** The download stage *)

Lemma download_event_facts e :
  is_download_event e = true →
  stage e = Some 2 ∧ is_meta e = false ∧ is_done e = false ∧ is_error e = false.
Proof. destruct e; simpl; intros; try discriminate; auto. Qed.

Lemma progress_event_facts e :
  is_progress e = true →
  stage e = None ∧ is_download_event e = false ∧ asset_size e = 0 ∧
  is_meta e = false ∧ is_done e = false ∧ is_error e = false.
Proof. destruct e; simpl; intros; try discriminate; auto 10. Qed.

Lemma no_download_urls (l : list event) :
  Forall (λ e, is_download_event e = false) l → omap download_url l = [].
Proof.
  induction 1 as [|e l He _ IH]; [done|].
  destruct e; try discriminate; exact IH.
Qed.

Lemma no_asset_sizes (l : list event) :
  Forall (λ e, asset_size e = 0) l → sum_list_with asset_size l = 0.
Proof. induction 1 as [|e l He _ IH]; simpl; lia. Qed.

Section DownloadStage.
Context {U : UrlLib} {L : HtmlLib} {P : PySet}.
Variable w : World.

(** What one task does to the shared state, and what it reports. *)
Lemma download_and_save_spec root url st ev st' :
  download_and_save w root url st = Some (ev, st') →
  is_download_event ev = true ∧
  download_url ev = Some url ∧
  sem st = S (sem st') ∧
  bytes_downloaded st' = bytes_downloaded st + asset_size ev ∧
  last_update st' = last_update st ∧
  (match ev with Asset _ _ _ => true | _ => false end
   = download_succeeds w url (ws st)).
Proof.
  unfold download_and_save, download_succeeds.
  destruct (sem st) as [|permits] eqn:Hsem; [done|].
  destruct (get_asset w url) as [code content|msg]; simpl.
  - destruct (is_success code); simpl.
    + destruct (safe_filename_from_url url) as [local_rel|]; simpl.
      * destruct (io_ok w (SaveAsset url)); simpl.
        -- destruct (Fs.write_file local_rel (Data content) (ws st)) as [t' [|]];
             intros [= <- <-]; simpl; repeat split; lia.
        -- intros [= <- <-]; simpl; repeat split; lia.
      * intros [= <- <-]; simpl; repeat split; lia.
    + intros [= <- <-]; simpl; repeat split; lia.
  - intros [= <- <-]; simpl; repeat split; lia.
Qed.

Lemma download_and_save_blocks root url st :
  download_and_save w root url st = None ↔ sem st = 0.
Proof.
  unfold download_and_save. destruct (sem st); [done|].
  split; [|done]. by destruct (get_asset w url).
Qed.

Lemma gather_spec root batch : ∀ st evs st',
  gather w root batch st = Some (evs, st') →
  Forall (λ e, is_download_event e = true) evs ∧
  omap download_url evs = batch ∧
  length evs = length batch ∧
  sem st = sem st' + length batch ∧
  bytes_downloaded st' = bytes_downloaded st + sum_list_with asset_size evs ∧
  last_update st' = last_update st.
Proof.
  induction batch as [|url rest IH]; intros st evs st'; simpl.
  - intros [= <- <-]. split_and!; [constructor|done|done|lia|simpl; lia|done].
  - destruct (download_and_save w root url st) as [[ev st1]|] eqn:Hd; [|done].
    simpl. destruct (gather w root rest st1) as [[evs1 st2]|] eqn:Hg; [|done].
    simpl. intros [= <- <-].
    apply download_and_save_spec in Hd as (Hk & Hu & Hs & Hb & Hl & _).
    apply IH in Hg as (Hks & Hus & Hlen & Hss & Hbs & Hls).
    split_and!.
    + by constructor.
    + change (omap download_url (ev :: evs1)) with
        (match download_url ev with
         | Some y => y :: omap download_url evs1
         | None => omap download_url evs1
         end).
      by rewrite Hu, Hus.
    + simpl. lia.
    + simpl. lia.
    + simpl. lia.
    + congruence.
Qed.

Lemma gather_blocks root batch : ∀ st,
  gather w root batch st = None ↔ sem st < length batch.
Proof.
  induction batch as [|url rest IH]; intros st; simpl.
  - split; [done|lia].
  - destruct (download_and_save w root url st) as [[ev st1]|] eqn:Hd; simpl.
    + apply download_and_save_spec in Hd as (_ & _ & Hs & _).
      destruct (gather w root rest st1) as [[evs1 st2]|] eqn:Hg; simpl.
      * split; [done|]. intros Hlt.
        assert (gather w root rest st1 = None) as E by (apply IH; lia).
        congruence.
      * split; [|done]. intros _. apply IH in Hg. lia.
    + apply download_and_save_blocks in Hd. split; [lia|done].
Qed.

Lemma emit_progress_spec k st prog st' :
  emit_progress w k st = (prog, st') →
  Forall (λ e, is_progress e = true) prog ∧
  sem st' = sem st ∧ ws st' = ws st ∧
  bytes_downloaded st' = bytes_downloaded st ∧
  downloaded_files st' = downloaded_files st.
Proof.
  unfold emit_progress. destruct (500 <=? _)%Z; intros [= <- <-]; simpl.
  - split_and!; try done. by repeat constructor.
  - by split_and!.
Qed.

(** The events of the download stage are download events and progress
    events, and the byte counter grows by the sizes the [asset] events
    carry. *)
Lemma run_batches_spec root batches : ∀ k st evs st' fin,
  run_batches w root batches k st = (evs, st', fin) →
  Forall (λ e, stage e = Some 2 ∨ stage e = None) evs ∧
  Forall (λ e, is_meta e = false ∧ is_done e = false ∧ is_error e = false) evs ∧
  bytes_downloaded st' = bytes_downloaded st + sum_list_with asset_size evs.
Proof.
  induction batches as [|batch rest IH]; intros k st evs st' fin; simpl.
  - intros [= <- <- <-]. split_and!; [constructor..|simpl; lia].
  - destruct (gather w root batch st) as [[results st1]|] eqn:Hg.
    + destruct (emit_progress w k st1) as [prog st2] eqn:Hp.
      destruct (run_batches w root rest (S k) st2) as [[evs' st3] fin'] eqn:Hr.
      intros [= <- <- <-].
      apply gather_spec in Hg as (Hres & _ & _ & _ & Hb1 & _).
      apply emit_progress_spec in Hp as (Hprog & _ & _ & Hb2 & _).
      apply IH in Hr as (Hst & Hk & Hb3).
      split_and!.
      * rewrite !Forall_app. split_and!; [|  |done].
        -- eapply Forall_impl; [exact Hres|].
           intros e He. left. by apply download_event_facts.
        -- eapply Forall_impl; [exact Hprog|].
           intros e He. right. by apply progress_event_facts.
      * rewrite !Forall_app. split_and!; [| |done].
        -- eapply Forall_impl; [exact Hres|].
           intros e He. by apply download_event_facts in He as (_ & ? & ? & ?).
        -- eapply Forall_impl; [exact Hprog|].
           intros e He. by apply progress_event_facts in He as (_ & _ & _ & ? & ? & ?).
      * rewrite !sum_list_with_app, (no_asset_sizes prog); [lia|].
        eapply Forall_impl; [exact Hprog|].
        intros e He. by apply progress_event_facts in He as (_ & _ & ? & _).
    + intros [= <- <- <-]. split_and!; [constructor..|simpl; lia].
Qed.

(** The batches cut the task list into consecutive pieces. *)
Lemma concat_batches_take (tasks : list string) (m : nat) :
  concat ((λ k, take CONCURRENT_DOWNLOADS (drop (k * CONCURRENT_DOWNLOADS) tasks))
            <$> seq 0 m)
  = take (m * CONCURRENT_DOWNLOADS) tasks.
Proof.
  induction m as [|m IH]; [done|].
  rewrite seq_S, fmap_app, concat_app, IH. simpl.
  rewrite app_nil_r, take_take_drop. f_equal. unfold CONCURRENT_DOWNLOADS. lia.
Qed.

Lemma concat_batches_of (tasks : list string) :
  concat (batches_of tasks) = tasks.
Proof.
  unfold batches_of. rewrite concat_batches_take. apply take_ge.
  unfold CONCURRENT_DOWNLOADS.
  pose proof (Nat.div_mod_eq (length tasks + 8 - 1) 8).
  pose proof (Nat.mod_upper_bound (length tasks + 8 - 1) 8). lia.
Qed.

(** While the permits last, every batch returns. *)
Lemma run_batches_enough root batches : ∀ k st,
  length (concat batches) ≤ sem st →
  ∃ evs st',
    run_batches w root batches k st = (evs, st', true) ∧
    omap download_url evs = concat batches.
Proof.
  induction batches as [|batch rest IH]; intros k st Hlen; simpl in *.
  - by eexists _, _.
  - rewrite length_app in Hlen.
    destruct (gather w root batch st) as [[results st1]|] eqn:Hg; last first.
    { apply gather_blocks in Hg. lia. }
    destruct (emit_progress w k st1) as [prog st2] eqn:Hp.
    apply gather_spec in Hg as (_ & Hurls & _ & Hsem & _).
    apply emit_progress_spec in Hp as (Hprog & Hsem2 & _).
    destruct (IH (S k) st2) as (evs & st' & -> & Hu); [lia|].
    eexists _, _. split; [done|].
    rewrite !omap_app, Hurls, Hu, (no_download_urls prog); [done|].
    eapply Forall_impl; [exact Hprog|].
    intros e He. by apply progress_event_facts in He as (_ & ? & _).
Qed.

(** With as many URLs as permits or fewer, the download stage reports on
    every URL, in the order of the list. *)
Lemma run_tasks_within_limit root tasks st :
  length tasks ≤ sem st →
  ∃ evs st',
    run_tasks_and_emit w root tasks st = (evs, st', true) ∧
    omap download_url evs = tasks.
Proof.
  intros Hlen. unfold run_tasks_and_emit.
  destruct (run_batches_enough root (batches_of tasks) 0 st) as (evs & st' & Hr & Hu).
  { by rewrite concat_batches_of. }
  exists evs, st'. by rewrite Hr, Hu, concat_batches_of.
Qed.

(** A batch that uses the permits up makes the next one block. *)
Lemma run_batches_second_blocks root b1 b2 rest k st :
  length b1 = sem st →
  0 < length b2 →
  ∃ evs st',
    run_batches w root (b1 :: b2 :: rest) k st = (evs, st', false) ∧
    omap download_url evs = b1.
Proof.
  intros Hsem Hlen. cbn [run_batches].
  destruct (gather w root b1 st) as [[results st1]|] eqn:Hg; last first.
  { apply gather_blocks in Hg. lia. }
  destruct (emit_progress w k st1) as [prog st2] eqn:Hp.
  apply gather_spec in Hg as (_ & Hurls & _ & Hsem1 & _).
  apply emit_progress_spec in Hp as (Hprog & Hsem2 & _).
  assert (gather w root b2 st2 = None) as ->.
  { apply gather_blocks. lia. }
  eexists _, _. split; [done|].
  rewrite !omap_app, Hurls, (no_download_urls prog); [by rewrite !app_nil_r|].
  eapply Forall_impl; [exact Hprog|].
  intros e He. by apply progress_event_facts in He as (_ & ? & _).
Qed.

Lemma batches_of_above_limit (tasks : list string) :
  CONCURRENT_DOWNLOADS < length tasks →
  ∃ rest,
    batches_of tasks
    = take CONCURRENT_DOWNLOADS tasks
      :: take CONCURRENT_DOWNLOADS (drop CONCURRENT_DOWNLOADS tasks) :: rest.
Proof.
  intros Hlen. unfold batches_of, CONCURRENT_DOWNLOADS in *.
  assert (∃ m, (length tasks + 8 - 1) / 8 = S (S m)) as [m ->].
  { pose proof (Nat.div_mod_eq (length tasks + 8 - 1) 8).
    pose proof (Nat.mod_upper_bound (length tasks + 8 - 1) 8).
    destruct ((length tasks + 8 - 1) / 8) as [|[|m]]; [lia..|by exists m]. }
  eexists. reflexivity.
Qed.

(** With more URLs than permits, the first batch uses the permits up and
    the second one never returns: only the first [CONCURRENT_DOWNLOADS] URLs
    are reported on. *)
Lemma run_tasks_above_limit root tasks st :
  sem st = CONCURRENT_DOWNLOADS →
  CONCURRENT_DOWNLOADS < length tasks →
  ∃ evs st',
    run_tasks_and_emit w root tasks st = (evs, st', false) ∧
    omap download_url evs = take CONCURRENT_DOWNLOADS tasks.
Proof.
  intros Hsem Hlen. unfold run_tasks_and_emit.
  destruct (batches_of_above_limit tasks Hlen) as [rest ->].
  apply run_batches_second_blocks.
  - rewrite length_take. lia.
  - rewrite length_take, length_drop. unfold CONCURRENT_DOWNLOADS in *. lia.
Qed.

End DownloadStage.

(** ** The workspace tree *)

(** Induction on trees, with the hypothesis for every entry of a directory. *)
Lemma node_ind' (P : node → Prop) :
  (∀ d, P (File d)) →
  (∀ es, Forall (λ e, P e.2) es → P (Dir es)) →
  ∀ n, P n.
Proof.
  intros Hf Hd. fix IH 1. intros [d|es]; [apply Hf|]. apply Hd.
  induction es as [|[nm sub] es IHes]; constructor; [apply IH|apply IHes].
Qed.

Lemma os_walk_dir dirpath es :
  Fs.os_walk dirpath (Dir es)
  = (dirpath, Fs.dir_names es, Fs.file_names es)
    :: (es ≫= λ e, Fs.os_walk (dirpath ++ [e.1]) e.2).
Proof.
  simpl. f_equal. induction es as [|[nm sub] es IH]; [done|].
  simpl. by rewrite IH.
Qed.

Lemma files_dir pre es :
  Fs.files pre (Dir es)
  = omap (λ e, match e.2 with
               | File d => Some (pre ++ [e.1], d)
               | Dir _ => None
               end) es
    ++ (es ≫= λ e, Fs.files (pre ++ [e.1]) e.2).
Proof.
  simpl. f_equal. induction es as [|[nm sub] es IH]; [done|].
  simpl. by rewrite IH.
Qed.

(** *** Directory entries *)

Lemma entry_lookup_Some_in nm es v :
  Fs.entry_lookup nm es = Some v → (nm, v) ∈ es.
Proof.
  induction es as [|[k x] es IH]; simpl; [done|].
  destruct (String.eqb k nm) eqn:E.
  - apply String.eqb_eq in E as ->. intros [= ->]. left.
  - intros Hl. right. by apply IH.
Qed.

Lemma entry_lookup_None nm es :
  Fs.entry_lookup nm es = None ↔ nm ∉ es.*1.
Proof.
  induction es as [|[k x] es IH]; simpl.
  - split; [|done]. intros _. apply not_elem_of_nil.
  - rewrite not_elem_of_cons. destruct (String.eqb k nm) eqn:E.
    + apply String.eqb_eq in E as ->. intuition congruence.
    + apply String.eqb_neq in E. rewrite IH. intuition congruence.
Qed.

Lemma entry_lookup_in nm es v :
  NoDup es.*1 → (nm, v) ∈ es → Fs.entry_lookup nm es = Some v.
Proof.
  induction es as [|[k x] es IH]; simpl.
  - intros _ Hin. by apply elem_of_nil in Hin.
  - rewrite NoDup_cons. intros [Hk Hnd] Hin.
    apply elem_of_cons in Hin as [[= <- <-]|Hin].
    + by rewrite String.eqb_refl.
    + destruct (String.eqb k nm) eqn:E; [|by apply IH].
      apply String.eqb_eq in E as ->. destruct Hk.
      apply list_elem_of_fmap. by exists (nm, v).
Qed.

Lemma entry_set_names nm new es :
  (Fs.entry_set nm new es).*1
  = if decide (nm ∈ es.*1) then es.*1 else es.*1 ++ [nm].
Proof.
  induction es as [|[k x] es IH]; [done|].
  cbn [Fs.entry_set]. destruct (String.eqb k nm) eqn:E.
  - apply String.eqb_eq in E as ->. rewrite decide_True; [done|]. rewrite fmap_cons. left.
  - apply String.eqb_neq in E. rewrite !fmap_cons, IH. cbn [fst].
    destruct (decide (nm ∈ es.*1)) as [Hin|Hin].
    + rewrite decide_True; [done|by right].
    + rewrite decide_False; [done|]. rewrite not_elem_of_cons. intuition congruence.
Qed.

Lemma entry_lookup_set_eq nm new es :
  Fs.entry_lookup nm (Fs.entry_set nm new es) = Some new.
Proof.
  induction es as [|[k x] es IH]; simpl.
  - by rewrite String.eqb_refl.
  - destruct (String.eqb k nm) eqn:E; simpl; by rewrite E.
Qed.

Lemma entry_lookup_set_ne nm k new es :
  nm ≠ k → Fs.entry_lookup k (Fs.entry_set nm new es) = Fs.entry_lookup k es.
Proof.
  intros Hne. induction es as [|[j x] es IH]; simpl.
  - by rewrite (proj2 (String.eqb_neq nm k)).
  - destruct (String.eqb j nm) eqn:E; simpl.
    + apply String.eqb_eq in E as ->. by rewrite (proj2 (String.eqb_neq nm k)).
    + by rewrite IH.
Qed.

Lemma entry_set_Forall (P : string * node → Prop) nm new es :
  Forall P es → P (nm, new) → (∀ k v, P (k, v) → P (k, new)) →
  Forall P (Fs.entry_set nm new es).
Proof.
  intros Hes Hnew Hrep. induction Hes as [|[k x] es Hk Hes IH]; simpl.
  - by constructor.
  - destruct (String.eqb k nm); constructor; eauto.
Qed.

(** *** Well-formed trees stay well-formed *)

Lemma wf_node_Dir es :
  wf_node (Dir es) ↔ NoDup es.*1 ∧ Forall (λ e, valid_name e.1 ∧ wf_node e.2) es.
Proof. split; [by inversion 1|intros []; by constructor]. Qed.

Lemma wf_entry_set nm new es :
  wf_node (Dir es) → valid_name nm → wf_node new →
  wf_node (Dir (Fs.entry_set nm new es)).
Proof.
  rewrite !wf_node_Dir. intros [Hnd Hall] Hnm Hnew. split.
  - rewrite entry_set_names. case_decide; [done|].
    apply NoDup_app. split_and!; [done| |apply NoDup_singleton].
    intros k Hk ->%list_elem_of_singleton. done.
  - apply entry_set_Forall; [done|done|]. intros k v [? _]. done.
Qed.

Lemma wf_entry_lookup nm es sub :
  wf_node (Dir es) → Fs.entry_lookup nm es = Some sub → wf_node sub.
Proof.
  rewrite wf_node_Dir. intros [_ Hall] Hl%entry_lookup_Some_in.
  rewrite Forall_forall in Hall. by apply (Hall _ Hl).
Qed.

Lemma wf_node_at p : ∀ t n,
  wf_node t → Fs.node_at p t = Some n → wf_node n.
Proof.
  induction p as [|nm p IH]; intros t n Hwf; simpl.
  - by intros [= <-].
  - destruct t as [d|es]; [done|].
    destruct (Fs.entry_lookup nm es) as [sub|] eqn:Hl; [|done]. simpl.
    apply IH. by eapply wf_entry_lookup.
Qed.

Lemma wf_set_at new p : ∀ t,
  wf_node t → wf_node new → Forall valid_name p → wf_node (Fs.set_at p new t).
Proof.
  induction p as [|nm p IH]; intros t Hwf Hnew Hp; [done|].
  apply Forall_cons in Hp as [Hnm Hp].
  destruct t as [d|es]; [by destruct p|].
  destruct p as [|nm' p'].
  - by apply wf_entry_set.
  - cbn [Fs.set_at]. destruct (Fs.entry_lookup nm es) as [sub|] eqn:Hl; [|done].
    apply wf_entry_set; [done..|]. apply IH; [|done..].
    by eapply wf_entry_lookup.
Qed.

Lemma is_dir_set_at new p t :
  is_dir t → p ≠ [] → is_dir (Fs.set_at p new t).
Proof.
  destruct t as [d|es]; [done|]. intros _ Hp.
  destruct p as [|nm [|nm' p']]; [done|done|].
  cbn [Fs.set_at]. by destruct (Fs.entry_lookup nm es).
Qed.

Lemma Forall_removelast {A} (P : A → Prop) (l : list A) :
  Forall P l → Forall P (removelast l).
Proof.
  induction 1 as [|x l Hx Hl IH]; [constructor|].
  simpl. destruct l; [constructor|]. by constructor.
Qed.

Lemma has_char_cons c d s :
  Urllib.has_char c (String d s) = Ascii.eqb c d || Urllib.has_char c s.
Proof. done. Qed.

Lemma split_no_sep sep s :
  Forall (λ c, Urllib.has_char sep c = false) (Py.split sep s).
Proof.
  induction s as [|c s IH]; [by repeat constructor|].
  cbn [Py.split]. destruct (Ascii.eqb c sep) eqn:E.
  - by constructor.
  - destruct (Py.split sep s) as [|w ws].
    + constructor; [|constructor]. by rewrite has_char_cons, Ascii.eqb_sym, E.
    + apply Forall_cons in IH as [Hw Hws]. constructor; [|done].
      by rewrite has_char_cons, Hw, Ascii.eqb_sym, E.
Qed.

Lemma components_valid rel :
  Forall (λ c, c = ".." ∨ valid_name c) (Fs.components rel).
Proof.
  unfold Fs.components. apply Forall_forall. intros c Hc.
  apply list_elem_of_filter in Hc as [[Hne Hdot] Hin].
  pose proof (split_no_sep "/" rel) as Hall. rewrite Forall_forall in Hall.
  destruct (decide (c = "..")) as [->|Hdd]; [by left|right].
  split_and!; [done..|]. by apply Hall.
Qed.

Lemma mkdirs_wf comps : ∀ cur t,
  wf_node t → is_dir t →
  (∀ p, cur = Fs.Inside p → Forall valid_name p) →
  Forall (λ c, c = ".." ∨ valid_name c) comps →
  wf_node (Fs.mkdirs comps cur t).1 ∧ is_dir (Fs.mkdirs comps cur t).1 ∧
  ∀ p, (Fs.mkdirs comps cur t).2 = Some (Fs.Inside p) → Forall valid_name p.
Proof.
  induction comps as [|c comps IH]; intros cur t Hwf Hdir Hcur Hcomps.
  - simpl. split_and!; [done..|]. intros p [= ->]. by apply Hcur.
  - apply Forall_cons in Hcomps as [Hc Hcomps]. cbn [Fs.mkdirs].
    destruct cur as [p|]; [|apply IH; done].
    specialize (Hcur p eq_refl).
    destruct (String.eqb c "..") eqn:E.
    + destruct p as [|a p]; [apply IH; done|].
      apply IH; [done..| |done]. intros q [= <-].
      by apply (Forall_removelast _ (a :: p)).
    + apply String.eqb_neq in E. destruct Hc as [->|Hc]; [done|].
      assert (Forall valid_name (p ++ [c])) as Hpc.
      { apply Forall_app. split; [done|by constructor]. }
      destruct (Fs.node_at (p ++ [c]) t) as [[d|es]|] eqn:Hn.
      * simpl. split_and!; done.
      * apply IH; [done..| |done]. by intros q [= <-].
      * apply IH; [| | |done].
        -- apply wf_set_at; [done| |done]. constructor; [constructor|constructor].
        -- apply is_dir_set_at; [done|]. by destruct p.
        -- by intros q [= <-].
Qed.

Lemma write_file_wf rel d t :
  wf_node t → is_dir t →
  wf_node (Fs.write_file rel d t).1 ∧ is_dir (Fs.write_file rel d t).1.
Proof.
  intros Hwf Hdir. unfold Fs.write_file.
  pose proof (components_valid rel) as Hcomps.
  rewrite <-(reverse_involutive (Fs.components rel)) in Hcomps.
  destruct (reverse (Fs.components rel)) as [|fname rdirs]; [done|].
  rewrite reverse_cons in Hcomps. apply Forall_app in Hcomps as [Hdirs Hf].
  rewrite Forall_singleton in Hf.
  destruct (mkdirs_wf (reverse rdirs) (Fs.Inside []) t) as (Hwf' & Hdir' & Hpos);
    [done|done|by intros p [= <-]|done|].
  destruct (Fs.mkdirs (reverse rdirs) (Fs.Inside []) t) as [t' [[p|]|]]; simpl in *;
    [|done|done].
  specialize (Hpos p eq_refl).
  destruct (String.eqb fname "..") eqn:E; [done|].
  apply String.eqb_neq in E. destruct Hf as [Hf|Hf]; [congruence|].
  assert (wf_node (Fs.set_at (p ++ [fname]) (File d) t') ∧
          is_dir (Fs.set_at (p ++ [fname]) (File d) t')) as Hset.
  { split.
    - apply wf_set_at; [done|constructor|]. apply Forall_app. split; [done|by constructor].
    - apply is_dir_set_at; [done|]. by destruct p. }
  by destruct (Fs.node_at (p ++ [fname]) t') as [[?|?]|].
Qed.

(** Writing a file by its bare name puts it into the root directory. *)
Lemma write_root_file nm d es t' :
  Fs.components nm = [nm] → nm ≠ ".." →
  Fs.write_file nm d (Dir es) = (t', true) →
  t' = Dir (Fs.entry_set nm (File d) es).
Proof.
  intros Hc Hdd. unfold Fs.write_file. rewrite Hc. cbn [reverse rev_append Fs.mkdirs].
  change (reverse [nm]) with [nm]. cbn [reverse Fs.mkdirs app].
  rewrite (proj2 (String.eqb_neq nm "..")) by done.
  cbn [Fs.node_at mbind option_bind].
  destruct (Fs.entry_lookup nm es) as [[?|?]|]; simpl; intros ?; by simplify_eq.
Qed.

(** *** The files a walk lists *)

Lemma file_at_nonempty n q d : file_at n q d → q ≠ [].
Proof. by inversion 1. Qed.

Lemma file_at_valid n q d :
  wf_node n → file_at n q d → Forall valid_name q.
Proof.
  intros Hwf Hat. induction Hat as [es nm d Hin|es nm sub p d Hin Hat IH].
  - apply wf_node_Dir in Hwf as [_ Hall]. rewrite Forall_forall in Hall.
    constructor; [|constructor]. by apply (Hall _ Hin).
  - apply wf_node_Dir in Hwf as [_ Hall]. rewrite Forall_forall in Hall.
    destruct (Hall _ Hin) as [Hn Hs]. constructor; [done|by apply IH].
Qed.

Lemma files_spec n : ∀ pre p d,
  (p, d) ∈ Fs.files pre n ↔ ∃ q, p = pre ++ q ∧ file_at n q d.
Proof.
  induction n as [d'|es IH] using node_ind'; intros pre p d.
  - simpl. split; [by intros ?%elem_of_nil|]. intros (q & _ & Hat). inversion Hat.
  - rewrite files_dir, elem_of_app, list_elem_of_omap, list_elem_of_bind.
    rewrite Forall_forall in IH. split.
    + intros [([nm sub] & Hin & Hs)|([nm sub] & Hf & Hin)]; simpl in *.
      * destruct sub as [d''|]; [|done]. injection Hs as <- <-.
        exists [nm]. split; [done|by constructor].
      * apply (IH _ Hin) in Hf as (q & -> & Hat).
        exists (nm :: q). split; [by rewrite <-app_assoc|].
        by eapply file_below.
    + intros (q & -> & Hat). inversion Hat as [es' nm d' Hin|es' nm sub q' d' Hin Hat']; subst.
      * left. by exists (nm, File d).
      * right. exists (nm, sub). split; [|done].
        apply (IH _ Hin). exists q'. split; [|done]. by rewrite <-app_assoc.
Qed.

Lemma same_name_same_entry (es : list (string * node)) e1 e2 :
  NoDup es.*1 → e1 ∈ es → e2 ∈ es → e1.1 = e2.1 → e1 = e2.
Proof.
  destruct e1 as [n1 s1], e2 as [n2 s2]. simpl. intros Hnd H1 H2 <-. f_equal.
  apply (entry_lookup_in _ _ _ Hnd) in H1, H2. congruence.
Qed.

Lemma file_at_unique n q d1 :
  file_at n q d1 → ∀ d2, wf_node n → file_at n q d2 → d1 = d2.
Proof.
  induction 1 as [es nm d Hin|es nm sub p d Hin Hat IH]; intros d2 Hwf Hat2;
    apply wf_node_Dir in Hwf as [Hnd Hall]; rewrite Forall_forall in Hall;
    inversion Hat2 as [? ? ? Hin2|? ? sub2 ? ? Hin2 Hat2']; subst.
  - pose proof (same_name_same_entry es _ _ Hnd Hin Hin2 eq_refl). congruence.
  - by apply file_at_nonempty in Hat2'.
  - by apply file_at_nonempty in Hat.
  - pose proof (same_name_same_entry es _ _ Hnd Hin Hin2 eq_refl) as [= <-].
    apply IH; [|done]. by apply (Hall _ Hin).
Qed.

Lemma local_files_NoDup pre (es : list (string * node)) :
  NoDup es.*1 →
  NoDup (omap (λ e : string * node,
                 match e.2 with
                 | File d => Some (pre ++ [e.1], d)
                 | Dir _ => None
                 end) es).
Proof.
  induction es as [|[nm sub] es IH]; [constructor|].
  rewrite fmap_cons, NoDup_cons. intros [Hnm Hnd]. specialize (IH Hnd).
  destruct sub as [d|]; [|exact IH].
  change (NoDup ((pre ++ [nm], d) :: omap (λ e : string * node,
                 match e.2 with
                 | File d => Some (pre ++ [e.1], d)
                 | Dir _ => None
                 end) es)).
  constructor; [|exact IH].
  rewrite list_elem_of_omap. intros ([nm' sub'] & Hin & Hs). simpl in Hs.
  destruct sub'; [|done]. injection Hs as Hs <-.
  apply app_inv_head in Hs. injection Hs as ->.
  apply Hnm. apply list_elem_of_fmap. by eexists (_, _).
Qed.

Lemma files_NoDup n : ∀ pre, wf_node n → NoDup (Fs.files pre n).
Proof.
  induction n as [d'|es IH] using node_ind'; intros pre Hwf; [constructor|].
  apply wf_node_Dir in Hwf as [Hnd Hall]. rewrite Forall_forall in IH, Hall.
  rewrite files_dir. apply NoDup_app. split_and!.
  - by apply local_files_NoDup.
  - (* a file of this directory is not a file of a sub-directory *)
    intros [p d] Hl Hs. apply list_elem_of_omap in Hl as ([nm sub] & Hin & Hl).
    simpl in Hl. destruct sub as [d'|]; [|done]. injection Hl as <- <-.
    apply list_elem_of_bind in Hs as ([nm' sub'] & Hs & Hin').
    apply files_spec in Hs as (q & Hq & Hat). simpl in Hq.
    rewrite <-app_assoc in Hq. apply app_inv_head in Hq. injection Hq as -> Hq.
    apply file_at_nonempty in Hat. congruence.
  - (* the files of the sub-directories *)
    apply NoDup_bind.
    + intros e1 e2 [p d] H1 H2 Hf1 Hf2. apply (same_name_same_entry es); [done..|].
      apply files_spec in Hf1 as (q1 & Hq1 & _).
      apply files_spec in Hf2 as (q2 & Hq2 & _).
      rewrite Hq1, <-!app_assoc in Hq2. apply app_inv_head in Hq2. by injection Hq2.
    + intros e He. apply IH; [done|]. by apply Hall.
    + by eapply NoDup_fmap_1.
Qed.

(** In a well-formed tree no two listed files have the same path. *)
Lemma files_paths_NoDup n pre :
  wf_node n → NoDup (Fs.files pre n).*1.
Proof.
  intros Hwf. apply NoDup_fmap_fst; [|by apply files_NoDup].
  intros p d1 d2 (q1 & -> & Hat1)%files_spec (q2 & Hq & Hat2)%files_spec.
  apply app_inv_head in Hq as <-. by eapply file_at_unique.
Qed.

(** *** Paths as strings *)

Lemma split_sepfree sep w :
  Urllib.has_char sep w = false → Py.split sep w = [w].
Proof.
  induction w as [|c w IH]; [done|]. rewrite has_char_cons.
  intros [Hc Hw]%orb_false_elim. cbn [Py.split].
  rewrite Ascii.eqb_sym, Hc, (IH Hw). done.
Qed.

Lemma split_app_sep sep w rest :
  Urllib.has_char sep w = false →
  Py.split sep (w +:+ String sep rest) = w :: Py.split sep rest.
Proof.
  induction w as [|c w IH].
  - intros _. change ("" +:+ String sep rest) with (String sep rest).
    cbn [Py.split]. by rewrite Ascii.eqb_refl.
  - rewrite has_char_cons. intros [Hc Hw]%orb_false_elim.
    change (String c w +:+ String sep rest) with (String c (w +:+ String sep rest)).
    cbn [Py.split]. rewrite Ascii.eqb_sym, Hc, (IH Hw). done.
Qed.

Lemma split_join (p : list string) :
  p ≠ [] → Forall (λ c, Urllib.has_char "/" c = false) p →
  Py.split "/" (Py.join "/" p) = p.
Proof.
  induction p as [|w p IH]; [done|]. intros _ [Hw Hp]%Forall_cons.
  destruct p as [|w' p'].
  - by apply split_sepfree.
  - change (Py.join "/" (w :: w' :: p')) with (w +:+ String "/" (Py.join "/" (w' :: p'))).
    rewrite split_app_sep by done. by rewrite IH.
Qed.

Lemma join_inj (p q : list string) :
  Forall valid_name p → Forall valid_name q → p ≠ [] → q ≠ [] →
  Py.join "/" p = Py.join "/" q → p = q.
Proof.
  intros Hp Hq Hpn Hqn E.
  rewrite <-(split_join p), <-(split_join q), E; [done|done| |done|].
  - eapply Forall_impl; [exact Hq|]. by intros c (_ & _ & _ & ?).
  - eapply Forall_impl; [exact Hp|]. by intros c (_ & _ & _ & ?).
Qed.

Lemma below_app root p : Fs.below root (root ++ p) = Some p.
Proof. induction root as [|r root IH]; [done|]. simpl. by rewrite String.eqb_refl. Qed.

Lemma relpath_app root p : Fs.relpath (root ++ p) root = p.
Proof.
  induction root as [|r root IH]; [by destruct p|].
  simpl. by rewrite String.eqb_refl.
Qed.

Lemma node_at_app p q t :
  Fs.node_at (p ++ q) t = Fs.node_at p t ≫= Fs.node_at q.
Proof.
  revert t. induction p as [|nm p IH]; intros t; [done|].
  simpl. destruct t as [d|es]; [done|].
  destruct (Fs.entry_lookup nm es); simpl; [apply IH|done].
Qed.

Lemma mapM_app_Some {A B} (f : A → option B) l1 l2 k1 k2 :
  mapM f l1 = Some k1 → mapM f l2 = Some k2 → mapM f (l1 ++ l2) = Some (k1 ++ k2).
Proof.
  rewrite !mapM_Some. apply Forall2_app.
Qed.

(** *** The archive *)

Section Zip.
Variable w : World.
Variable t : node.

Lemma zip_local_files pre es (l : list (string * node)) :
  NoDup es.*1 → Fs.node_at pre t = Some (Dir es) → l ⊆ es →
  mapM (zip_file w t (root_parts w ++ pre)) (Fs.file_names l)
  = Some (entry_of <$>
            omap (λ e : string * node,
                    match e.2 with
                    | File d => Some (pre ++ [e.1], d)
                    | Dir _ => None
                    end) l).
Proof.
  intros Hnd Hat. induction l as [|[nm sub] l IH]; intros Hl; [done|].
  assert (l ⊆ es) as Hl' by (intros x Hx; apply Hl; by right). specialize (IH Hl').
  destruct sub as [d|]; [|exact IH].
  change (Fs.file_names ((nm, File d) :: l)) with (nm :: Fs.file_names l).
  change (omap _ ((nm, File d) :: l)) with
    ((pre ++ [nm], d) :: omap (λ e : string * node,
                    match e.2 with
                    | File d => Some (pre ++ [e.1], d)
                    | Dir _ => None
                    end) l).
  rewrite fmap_cons. cbn [mapM]. rewrite IH.
  assert (zip_file w t (root_parts w ++ pre) nm = Some (entry_of (pre ++ [nm], d))) as ->; [|done].
  unfold zip_file, entry_of. cbn zeta.
  rewrite <-app_assoc, below_app, relpath_app. cbn [mbind option_bind].
  unfold Fs.read_file. rewrite node_at_app, Hat. cbn [mbind option_bind Fs.node_at].
  rewrite (entry_lookup_in nm es (File d)); [done|done|]. apply Hl. left.
Qed.

Lemma zip_walk n : ∀ pre,
  wf_node n → Fs.node_at pre t = Some n →
  ∃ chunks,
    mapM (zip_dir w t) (Fs.os_walk (root_parts w ++ pre) n) = Some chunks ∧
    mjoin chunks = entry_of <$> Fs.files pre n.
Proof.
  induction n as [d|es IH] using node_ind'; intros pre Hwf Hat.
  - by exists [].
  - apply wf_node_Dir in Hwf as [Hnd Hall]. rewrite Forall_forall in IH, Hall.
    rewrite os_walk_dir, files_dir, fmap_app.
    assert (∀ l : list (string * node), l ⊆ es →
      ∃ chunks,
        mapM (zip_dir w t) (l ≫= λ e, Fs.os_walk ((root_parts w ++ pre) ++ [e.1]) e.2)
        = Some chunks ∧
        mjoin chunks = entry_of <$> (l ≫= λ e, Fs.files (pre ++ [e.1]) e.2))
      as Hsubs.
    { induction l as [|e l IHl]; intros Hl; [by exists []|].
      assert (e ∈ es) as He by (apply Hl; left).
      destruct IHl as (ch2 & Hm2 & Hj2); [intros x Hx; apply Hl; by right|].
      destruct (IH e He (pre ++ [e.1])) as (ch1 & Hm1 & Hj1).
      { by apply Hall. }
      { rewrite node_at_app, Hat. destruct e as [nm sub]. simpl.
        by rewrite (entry_lookup_in nm es sub). }
      exists (ch1 ++ ch2). rewrite !bind_cons, fmap_app, <-app_assoc. split.
      - by apply mapM_app_Some.
      - by rewrite join_app, Hj1, Hj2. }
    destruct (Hsubs es) as (chunks & Hm & Hj); [done|].
    eexists. cbn [mapM]. rewrite Hm. unfold zip_dir at 1.
    rewrite (zip_local_files pre es es); [|done..].
    cbn [mbind option_bind mret option_ret]. split; [done|].
    by rewrite <-Hj.
Qed.

Lemma zip_entries_files :
  wf_node t → zip_entries w t = Some (entry_of <$> Fs.files [] t).
Proof.
  intros Hwf. unfold zip_entries.
  destruct (zip_walk t [] Hwf eq_refl) as (chunks & Hm & Hj).
  rewrite app_nil_r in Hm. rewrite Hm. cbn [mbind option_bind]. by rewrite Hj.
Qed.

(** Packaging: the entries of the archive are the regular files of the
    tree, one entry each, named by their path from the root. *)
Lemma zip_entries_spec zf :
  wf_node t → zip_entries w t = Some zf →
  NoDup zf.*1 ∧
  ∀ nm d, (nm, d) ∈ zf ↔ ∃ p, nm = Py.join "/" p ∧ file_at t p d.
Proof.
  intros Hwf. rewrite zip_entries_files by done. intros [= <-]. split.
  - rewrite <-list_fmap_compose.
    change (fst ∘ entry_of) with (Py.join "/" ∘ (fst : list string * fdata → _)).
    rewrite list_fmap_compose. apply NoDup_fmap_2_strong; [|by apply files_paths_NoDup].
    intros p q [[p' dp] [-> Hp]]%list_elem_of_fmap [[q' dq] [-> Hq]]%list_elem_of_fmap.
    apply files_spec in Hp as (p'' & -> & Hp), Hq as (q'' & -> & Hq). simpl.
    apply join_inj; eauto using file_at_valid, file_at_nonempty.
  - intros nm d. rewrite list_elem_of_fmap. split.
    + intros ([p d'] & [= -> ->] & Hin). apply files_spec in Hin as (q & -> & Hat).
      by exists q.
    + intros (p & -> & Hat). exists (p, d). split; [done|].
      apply files_spec. by exists p.
Qed.

End Zip.

(** ** The stages and their events *)

Section Stages.
Context {U : UrlLib} {L : HtmlLib} {P : PySet}.
Variable w : World.

Lemma fetch_html_quiet web_url evs r :
  fetch_html w web_url = (evs, r) → Forall quiet evs.
Proof.
  unfold fetch_html. destruct (get_page w) as [code body|msg].
  - destruct (is_success code); intros [= <- <-]; by repeat constructor.
  - intros [= <- <-]; by repeat constructor.
Qed.

Lemma fetch_css_quiet web_url links : ∀ k asset_urls evs asset_urls',
  fetch_css w web_url k links asset_urls = (evs, asset_urls') → Forall quiet evs.
Proof.
  induction links as [|css_url rest IH]; intros k a evs a'; simpl.
  - intros [= <- <-]. constructor.
  - destruct (fetch_css w web_url (S k) rest _) as [evs' a''] eqn:Hrest.
    intros [= <- <-]. constructor; [by repeat constructor|by eapply IH].
Qed.

Lemma discover_quiet web_url doc evs asset_urls :
  discover w web_url doc = Some (evs, asset_urls) → Forall quiet evs.
Proof.
  unfold discover. destruct (find_asset_urls web_url doc) as [found|]; [|done].
  simpl. destruct (css_links web_url doc) as [links|]; [|done]. simpl.
  destruct (fetch_css w web_url 0 links found) as [evs' a] eqn:Hcss.
  intros [= <- <-]. by eapply fetch_css_quiet.
Qed.

Lemma rewrite_stage_events web_url t evs t' :
  rewrite_stage w web_url t = (evs, t') →
  ∃ e, evs = [Status "rewriting_html"; e] ∧ quiet e.
Proof.
  unfold rewrite_stage.
  repeat (case_match; simplify_eq; try (intros [= <- <-]));
    eexists; (split; [reflexivity|by repeat constructor]).
Qed.

Lemma info_stage_events web_url st t evs t' info :
  info_stage w web_url st t = (evs, t', info) → Forall closing evs.
Proof.
  unfold info_stage.
  repeat (case_match; simplify_eq; try (intros [= <- <- <-]));
    by repeat constructor.
Qed.

Lemma zip_stage_events t evs zf :
  zip_stage w t = (evs, zf) → Forall closing evs.
Proof.
  unfold zip_stage.
  repeat (case_match; simplify_eq; try (intros [= <- <-]));
    by repeat constructor.
Qed.

End Stages.

(** ** Segments of a trace *)

Lemma quiet_sorted (l : list event) :
  Forall (λ e, stage e = None) l → StronglySorted in_stage_order l.
Proof.
  induction 1 as [|e l He Hl IH]; constructor; [done|].
  apply Forall_forall. intros e' _ a b Ha. congruence.
Qed.

Lemma seg_quiet lo hi l : lo ≤ hi → Forall quiet l → seg lo hi l.
Proof.
  intros Hle Hq. split_and!; [done| |].
  - apply quiet_sorted. eapply Forall_impl; [exact Hq|]. by intros e [? _].
  - eapply Forall_impl; [exact Hq|]. intros e [He _] a Ha. congruence.
Qed.

Lemma seg_flat n l :
  Forall (λ e, stage e = Some n ∨ stage e = None) l → seg n n l.
Proof.
  intros Hl. split_and!; [done| |].
  - induction Hl as [|e l He Hl IH]; constructor; [done|].
    apply Forall_forall. intros e' He' a b Ha Hb.
    rewrite Forall_forall in Hl. destruct He, (Hl _ He'); simplify_eq; lia.
  - eapply Forall_impl; [exact Hl|]. intros e [He|He] a Ha; simplify_eq; lia.
Qed.

Lemma seg_app lo m hi l1 l2 :
  seg lo m l1 → seg m hi l2 → seg lo hi (l1 ++ l2).
Proof.
  intros (Hle1 & Hs1 & Hb1) (Hle2 & Hs2 & Hb2). split_and!; [lia| |].
  - apply StronglySorted_app. split_and!; [|done..].
    intros e1 e2 H1 H2 a b Ha Hb. rewrite Forall_forall in Hb1, Hb2.
    specialize (Hb1 _ H1 _ Ha). specialize (Hb2 _ H2 _ Hb). lia.
  - apply Forall_app. split.
    + eapply Forall_impl; [exact Hb1|]. intros e He a Ha. specialize (He a Ha). lia.
    + eapply Forall_impl; [exact Hb2|]. intros e He a Ha. specialize (He a Ha). lia.
Qed.

Lemma seg_widen lo lo' hi hi' l :
  lo' ≤ lo → hi ≤ hi' → seg lo hi l → seg lo' hi' l.
Proof.
  intros ? ? (? & ? & Hb). split_and!; [lia|done|].
  eapply Forall_impl; [exact Hb|]. intros e He a Ha. specialize (He a Ha). lia.
Qed.

Lemma seg_closing l : Forall closing l → seg 4 4 l.
Proof.
  intros Hl. apply seg_flat. eapply Forall_impl; [exact Hl|]. intros e [? _]. by left.
Qed.

Lemma seg_single n e : stage e = Some n → seg n n [e].
Proof. intros He. apply seg_flat. constructor; [by left|constructor]. Qed.

Lemma sorted_lookup {A} (R : relation A) (l : list A) i j x y :
  StronglySorted R l → i < j → l !! i = Some x → l !! j = Some y → R x y.
Proof.
  intros Hs Hij Hi Hj.
  rewrite <-(take_drop j l) in Hs.
  eapply StronglySorted_app_1_elem_of; [exact Hs| |].
  - apply elem_of_take. eauto.
  - apply list_elem_of_lookup. exists 0. by rewrite lookup_drop, Nat.add_0_r.
Qed.

(** ** Counting over the segments *)

Lemma quiet_sizes l : Forall quiet l → sum_list_with asset_size l = 0.
Proof. induction 1 as [|e l (_ & _ & _ & _ & He) _ IH]; simpl; lia. Qed.

Lemma closing_sizes l : Forall closing l → sum_list_with asset_size l = 0.
Proof. induction 1 as [|e l (_ & _ & _ & _ & He) _ IH]; simpl; lia. Qed.

Lemma no_meta_filter l :
  Forall (λ e, is_meta e = false) l → filter (λ e, is_meta e = true) l = [].
Proof.
  induction 1 as [|e l He _ IH]; [done|].
  rewrite filter_cons_False; [done|congruence].
Qed.

Lemma quiet_no_meta l : Forall quiet l → filter (λ e, is_meta e = true) l = [].
Proof.
  intros Hl. apply no_meta_filter. eapply Forall_impl; [exact Hl|]. by intros e (_ & ? & _).
Qed.

Lemma closing_no_meta l : Forall closing l → filter (λ e, is_meta e = true) l = [].
Proof.
  intros Hl. apply no_meta_filter. eapply Forall_impl; [exact Hl|]. by intros e (_ & ? & _).
Qed.

(** ** Whole runs *)

Ltac run_cases w web :=
  unfold sse_generator; cbv zeta;
  destruct (fetch_html w (ensure_scheme web)) as [evs1 [html|]] eqn:Hfetch;
  [ destruct (discover w (ensure_scheme web) (BeautifulSoup html))
      as [[evs2 asset_urls]|] eqn:Hdisc;
    [ destruct (io_ok w WritePage) eqn:Hwp; cbn [negb];
      [ match goal with
        | |- context [run_tasks_and_emit w ?root ?tasks ?st0] =>
            destruct (run_tasks_and_emit w root tasks st0) as [[evs4 st] [|]] eqn:Hrun
        end;
        [ match goal with
          | |- context [rewrite_stage w ?u ?t] =>
              destruct (rewrite_stage w u t) as [evs5 t5] eqn:Hrw
          end;
          match goal with
          | |- context [info_stage w ?u ?s ?t] =>
              destruct (info_stage w u s t) as [[evs6 t6] info] eqn:Hinfo
          end;
          match goal with
          | |- context [zip_stage w ?t] =>
              destruct (zip_stage w t) as [evs7 [zf|]] eqn:Hzip
          end
        | ]
      | ]
    | ]
  | ]; cbn [trace outcome_of discovered workspace manifest archive].

Section Runs.
Context {U : UrlLib} {L : HtmlLib} {P : PySet}.
Variable w : World.
Variable web : string.

Lemma trace_in_stage_order : seg 1 4 (trace (sse_generator w web)).
Proof.
  run_cases w web.
  all: try (apply fetch_html_quiet in Hfetch).
  all: try (apply discover_quiet in Hdisc).
  all: try (apply run_batches_spec in Hrun as (Hrun & _ & _)).
  all: try (apply rewrite_stage_events in Hrw as (e5 & -> & He5)).
  all: try (apply info_stage_events in Hinfo).
  all: try (apply zip_stage_events in Hzip).
  - (* completed *)
    apply (seg_app 1 1 4); [apply (seg_app 1 1 1); [by apply seg_quiet|]
                           ; apply (seg_app 1 1 1); [by apply seg_quiet|by apply seg_single]|].
    apply (seg_app 1 2 4); [apply (seg_widen 2 1 2 2); [lia..|by apply seg_flat]|].
    apply (seg_app 2 3 4).
    { apply (seg_app 2 3 3 [_] [_]); [apply (seg_widen 3 2 3 3); [lia..|by apply seg_single]|].
      apply seg_quiet; [lia|by constructor]. }
    apply (seg_widen 4 3 4 4); [lia..|].
    apply (seg_app 4 4 4); [by apply seg_closing|].
    apply (seg_app 4 4 4); [by apply seg_closing|by apply seg_single].
  - (* the archive could not be written *)
    apply (seg_app 1 1 4); [apply (seg_app 1 1 1); [by apply seg_quiet|]
                           ; apply (seg_app 1 1 1); [by apply seg_quiet|by apply seg_single]|].
    apply (seg_app 1 2 4); [apply (seg_widen 2 1 2 2); [lia..|by apply seg_flat]|].
    apply (seg_app 2 3 4).
    { apply (seg_app 2 3 3 [_] [_]); [apply (seg_widen 3 2 3 3); [lia..|by apply seg_single]|].
      apply seg_quiet; [lia|by constructor]. }
    apply (seg_widen 4 3 4 4); [lia..|].
    apply (seg_app 4 4 4); by apply seg_closing.
  - (* blocked *)
    apply (seg_app 1 1 4); [apply (seg_app 1 1 1); [by apply seg_quiet|]
                           ; apply (seg_app 1 1 1); [by apply seg_quiet|by apply seg_single]|].
    apply (seg_widen 2 1 2 4); [lia..|by apply seg_flat].
  - (* the page could not be written *)
    apply (seg_widen 1 1 1 4); [lia..|].
    apply (seg_app 1 1 1); [by apply seg_quiet|].
    apply (seg_app 1 1 1); [by apply seg_quiet|by apply seg_single].
  - apply seg_quiet; [lia|done].
  - apply seg_quiet; [lia|done].
Qed.

Lemma trace_meta_once :
  length (filter (λ e, is_meta e = true) (trace (sse_generator w web))) ≤ 1.
Proof.
  run_cases w web.
  all: try (apply fetch_html_quiet, quiet_no_meta in Hfetch).
  all: try (apply discover_quiet, quiet_no_meta in Hdisc).
  all: try (apply run_batches_spec in Hrun as (_ & Hrun & _);
            assert (filter (λ e, is_meta e = true) evs4 = []) as Hrun'
              by (apply no_meta_filter; eapply Forall_impl; [exact Hrun|]; by intros e (? & _))).
  all: try (apply rewrite_stage_events in Hrw as (e5 & -> & (_ & He5 & _));
            assert (filter (λ e, is_meta e = true) [Status "rewriting_html"; e5] = []) as Hrw'
              by (apply no_meta_filter; by repeat constructor)).
  all: try (apply info_stage_events, closing_no_meta in Hinfo).
  all: try (apply zip_stage_events, closing_no_meta in Hzip).
  all: rewrite ?filter_app, ?Hfetch, ?Hdisc, ?Hrun', ?Hrw', ?Hinfo, ?Hzip.
  all: rewrite ?(no_meta_filter [Done _ _ _]) by (by repeat constructor).
  all: simpl; lia.
Qed.

End Runs.

(** ** The workspace along a run *)

Section WorkspaceInvariant.
Context {U : UrlLib} {L : HtmlLib} {P : PySet}.
Variable w : World.

Lemma download_and_save_ws root url st ev st' :
  download_and_save w root url st = Some (ev, st') →
  wf_node (ws st) → is_dir (ws st) →
  wf_node (ws st') ∧ is_dir (ws st').
Proof.
  unfold download_and_save. intros Hd Hwf Hdir.
  destruct (sem st); [done|].
  destruct (get_asset w url) as [code content|msg]; [|by simplify_eq/=].
  destruct (is_success code); [|by simplify_eq/=].
  destruct (safe_filename_from_url url) as [local_rel|]; [|by simplify_eq/=].
  destruct (io_ok w (SaveAsset url)); [|by simplify_eq/=].
  simpl in Hd.
  pose proof (write_file_wf local_rel (Data content) (ws st) Hwf Hdir) as Hw.
  destruct (Fs.write_file local_rel (Data content) (ws st)) as [t' [|]];
    by simplify_eq/=.
Qed.

Lemma gather_ws root batch : ∀ st evs st',
  gather w root batch st = Some (evs, st') →
  wf_node (ws st) → is_dir (ws st) →
  wf_node (ws st') ∧ is_dir (ws st').
Proof.
  induction batch as [|url rest IH]; intros st evs st'; simpl.
  - by intros [= <- <-].
  - destruct (download_and_save w root url st) as [[ev st1]|] eqn:Hd; [|done].
    simpl. destruct (gather w root rest st1) as [[evs1 st2]|] eqn:Hg; [|done].
    simpl. intros [= <- <-] Hwf Hdir.
    destruct (download_and_save_ws _ _ _ _ _ Hd Hwf Hdir). by eapply IH.
Qed.

Lemma run_batches_ws root batches : ∀ k st evs st' fin,
  run_batches w root batches k st = (evs, st', fin) →
  wf_node (ws st) → is_dir (ws st) →
  wf_node (ws st') ∧ is_dir (ws st').
Proof.
  induction batches as [|batch rest IH]; intros k st evs st' fin; simpl.
  - by intros [= <- <- <-].
  - destruct (gather w root batch st) as [[results st1]|] eqn:Hg.
    + destruct (emit_progress w k st1) as [prog st2] eqn:Hp.
      destruct (run_batches w root rest (S k) st2) as [[evs' st3] fin'] eqn:Hr.
      intros [= <- <- <-] Hwf Hdir.
      destruct (gather_ws _ _ _ _ _ Hg Hwf Hdir).
      apply emit_progress_spec in Hp as (_ & _ & Hws & _).
      eapply IH; [exact Hr|by rewrite Hws..].
    + by intros [= <- <- <-].
Qed.

Lemma rewrite_stage_ws web_url t evs t' :
  rewrite_stage w web_url t = (evs, t') →
  wf_node t → is_dir t → wf_node t' ∧ is_dir t'.
Proof.
  unfold rewrite_stage. intros Hr Hwf Hdir.
  destruct (io_ok w ReadPage); [|by simplify_eq/=].
  destruct (Fs.read_file ["index.html"] t) as [[html_text|?]|]; [|by simplify_eq/=..].
  destruct (rewrite_html web_url (BeautifulSoup html_text)) as [doc|]; [|by simplify_eq/=].
  destruct (io_ok w WriteRewritten); [|by simplify_eq/=].
  pose proof (write_file_wf "index.html" (Data (prettify doc)) t Hwf Hdir) as Hw.
  destruct (Fs.write_file "index.html" (Data (prettify doc)) t) as [t1 [|]];
    by simplify_eq/=.
Qed.

(** The manifest stage keeps the tree well-formed; the manifest it reports
    carries the byte counter of the download stage and is then the content
    of [info.json] in the root of the workspace. *)
Lemma info_stage_spec web_url st t evs t' info :
  info_stage w web_url st t = (evs, t', info) →
  wf_node t → is_dir t →
  wf_node t' ∧ is_dir t' ∧
  ∀ i, info = Some i →
    downloaded_bytes i = bytes_downloaded st ∧
    file_at t' ["info.json"] (Json i).
Proof.
  unfold info_stage. intros Hi Hwf Hdir.
  destruct (io_ok w WriteInfo); [|by simplify_eq/=].
  match type of Hi with
  | context [Fs.write_file "info.json" (Json ?i) t] =>
      pose proof (write_file_wf "info.json" (Json i) t Hwf Hdir) as Hw;
      destruct (Fs.write_file "info.json" (Json i) t) as [t1 [|]] eqn:Hwr
  end; simplify_eq/=; destruct Hw; split_and!; try done.
  intros i [= <-]. split; [done|].
  destruct t as [|es]; [done|].
  apply write_root_file in Hwr as ->; [|done..].
  constructor. apply entry_lookup_Some_in, entry_lookup_set_eq.
Qed.

End WorkspaceInvariant.

Section RunResults.
Context {U : UrlLib} {L : HtmlLib} {P : PySet}.
Variable w : World.
Variable web : string.

Lemma first_write_wf html :
  wf_node (Fs.write_file "index.html" (Data html) (Dir [])).1 ∧
  is_dir (Fs.write_file "index.html" (Data html) (Dir [])).1.
Proof. apply write_file_wf; [|done]. constructor; constructor. Qed.

Lemma workspace_wf : wf_node (workspace (sse_generator w web)).
Proof.
  run_cases w web; try (constructor; constructor).
  all: destruct (first_write_wf html) as [Hwf0 Hdir0].
  all: destruct (run_batches_ws _ _ _ _ _ _ _ _ Hrun Hwf0 Hdir0) as [Hwf4 Hdir4]; try done.
  all: destruct (rewrite_stage_ws _ _ _ _ _ Hrw Hwf4 Hdir4) as [Hwf5 Hdir5].
  all: by destruct (info_stage_spec _ _ _ _ _ _ _ Hinfo Hwf5 Hdir5) as (? & _).
Qed.

Lemma manifest_spec i :
  manifest (sse_generator w web) = Some i →
  downloaded_bytes i = sum_list_with asset_size (trace (sse_generator w web)) ∧
  file_at (workspace (sse_generator w web)) ["info.json"] (Json i).
Proof.
  run_cases w web; try done.
  all: intros ->.
  all: destruct (first_write_wf html) as [Hwf0 Hdir0].
  all: destruct (run_batches_ws _ _ _ _ _ _ _ _ Hrun Hwf0 Hdir0) as [Hwf4 Hdir4].
  all: destruct (rewrite_stage_ws _ _ _ _ _ Hrw Hwf4 Hdir4) as [Hwf5 Hdir5].
  all: destruct (info_stage_spec _ _ _ _ _ _ _ Hinfo Hwf5 Hdir5) as (_ & _ & Hi).
  all: destruct (Hi i eq_refl) as [-> Hfile]; split; [|done].
  all: apply fetch_html_quiet, quiet_sizes in Hfetch.
  all: apply discover_quiet, quiet_sizes in Hdisc.
  all: apply run_batches_spec in Hrun as (_ & _ & ->).
  all: apply rewrite_stage_events in Hrw as (e5 & -> & (_ & _ & _ & _ & He5)).
  all: apply info_stage_events, closing_sizes in Hinfo.
  all: apply zip_stage_events, closing_sizes in Hzip.
  all: rewrite !sum_list_with_app, Hfetch, Hdisc, Hinfo, Hzip; simpl; lia.
Qed.

Lemma archive_spec entries :
  archive (sse_generator w web) = Some entries →
  zip_entries w (workspace (sse_generator w web)) = Some entries.
Proof.
  pose proof workspace_wf as Hwf. revert Hwf.
  run_cases w web; try done. intros Hwf [= <-].
  unfold zip_stage in Hzip. destruct (io_ok w WriteZip); [|done].
  by destruct (zip_entries w t6); simplify_eq.
Qed.

End RunResults.

(** ** How many downloads a run reports on *)

Section Reports.
Context {U : UrlLib} {L : HtmlLib} {P : PySet}.
Variable w : World.
Variable web : string.

Lemma list_of_set_length (s : gset string) : length (list_of_set s) = size s.
Proof. by rewrite (list_of_set_perm s). Qed.

Lemma quiet_no_urls l : Forall quiet l → omap download_url l = [].
Proof.
  intros Hl. apply no_download_urls. eapply Forall_impl; [exact Hl|].
  by intros e (_ & _ & _ & ? & _).
Qed.

Lemma closing_no_urls l : Forall closing l → omap download_url l = [].
Proof.
  intros Hl. apply no_download_urls. eapply Forall_impl; [exact Hl|].
  by intros e (_ & _ & _ & ? & _).
Qed.

(** Once discovery is over, the run sends [meta] with the number of
    discovered URLs plus one. *)
Lemma meta_reports_total (s : gset string) :
  discovered (sse_generator w web) = Some s →
  filter (λ e, is_meta e = true) (trace (sse_generator w web)) = [Meta (size s + 1)].
Proof.
  run_cases w web; try done.
  all: intros [= ->].
  all: try (apply fetch_html_quiet, quiet_no_meta in Hfetch).
  all: try (apply discover_quiet, quiet_no_meta in Hdisc).
  all: try (apply run_batches_spec in Hrun as (_ & Hrun & _);
            assert (filter (λ e, is_meta e = true) evs4 = []) as Hrun'
              by (apply no_meta_filter; eapply Forall_impl; [exact Hrun|]; by intros e (? & _))).
  all: try (apply rewrite_stage_events in Hrw as (e5 & -> & (_ & He5 & _));
            assert (filter (λ e, is_meta e = true) [Status "rewriting_html"; e5] = []) as Hrw'
              by (apply no_meta_filter; by repeat constructor)).
  all: try (apply info_stage_events, closing_no_meta in Hinfo).
  all: try (apply zip_stage_events, closing_no_meta in Hzip).
  all: rewrite ?filter_app, ?Hfetch, ?Hdisc, ?Hrun', ?Hrw', ?Hinfo, ?Hzip.
  all: rewrite ?(no_meta_filter [Done _ _ _]) by (by repeat constructor).
  all: by rewrite ?app_nil_r.
Qed.

(** With at most [CONCURRENT_DOWNLOADS] discovered URLs, the run reports on
    each of them exactly once. *)
Lemma within_limit_all_reported (s : gset string) :
  discovered (sse_generator w web) = Some s →
  size s ≤ CONCURRENT_DOWNLOADS →
  io_ok w WritePage = true →
  omap download_url (trace (sse_generator w web)) ≡ₚ elements s ∧
  outcome_of (sse_generator w web) ≠ Blocked.
Proof.
  run_cases w web; try done.
  all: intros [= ->] Hsize Hio; try congruence.
  all: match type of Hrun with
       | run_tasks_and_emit _ ?root ?tasks ?st0 = _ =>
           destruct (run_tasks_within_limit w root tasks st0) as (evs & st' & Hr & Hu);
             [by rewrite list_of_set_length|]
       end.
  all: rewrite Hr in Hrun; simplify_eq.
  all: split; [|done].
  all: apply fetch_html_quiet, quiet_no_urls in Hfetch.
  all: apply discover_quiet, quiet_no_urls in Hdisc.
  all: apply rewrite_stage_events in Hrw as (e5 & -> & (_ & _ & _ & He5 & _)).
  all: apply info_stage_events, closing_no_urls in Hinfo.
  all: apply zip_stage_events, closing_no_urls in Hzip.
  all: rewrite !omap_app, Hfetch, Hdisc, Hu, Hinfo, Hzip.
  all: rewrite (no_download_urls [Status "rewriting_html"; e5]) by (by repeat constructor).
  all: simpl; rewrite ?app_nil_r; apply list_of_set_perm.
Qed.

(** With more, the run reports on [CONCURRENT_DOWNLOADS] of them and then
    waits for ever: no further event, no archive. *)
Lemma above_limit_blocked (s : gset string) :
  discovered (sse_generator w web) = Some s →
  CONCURRENT_DOWNLOADS < size s →
  io_ok w WritePage = true →
  outcome_of (sse_generator w web) = Blocked ∧
  omap download_url (trace (sse_generator w web))
    = take CONCURRENT_DOWNLOADS (list_of_set s) ∧
  archive (sse_generator w web) = None.
Proof.
  run_cases w web; try done.
  all: intros [= ->] Hsize Hio; try congruence.
  all: match type of Hrun with
       | run_tasks_and_emit _ ?root ?tasks ?st0 = _ =>
           destruct (run_tasks_above_limit w root tasks st0) as (evs & st' & Hr & Hu);
             [done|by rewrite list_of_set_length|]
       end.
  all: rewrite Hr in Hrun; simplify_eq.
  split_and!; [done| |done].
  apply fetch_html_quiet, quiet_no_urls in Hfetch.
  apply discover_quiet, quiet_no_urls in Hdisc.
  by rewrite !omap_app, Hfetch, Hdisc, Hu.
Qed.

End Reports.

(** ** How a run ends *)

Section Endings.
Context {U : UrlLib} {L : HtmlLib} {P : PySet}.
Variable w : World.
Variable web : string.

Lemma quiet_not_done l : Forall quiet l → Forall (λ e, is_done e = false) l.
Proof. intros Hl. eapply Forall_impl; [exact Hl|]. by intros e (_ & _ & ? & _). Qed.

Lemma closing_not_done l : Forall closing l → Forall (λ e, is_done e = false) l.
Proof. intros Hl. eapply Forall_impl; [exact Hl|]. by intros e (_ & _ & ? & _). Qed.

(** Only the last event of a run can be [done], and it is exactly when the
    generator returns after packaging; the archive then exists. *)
Lemma done_is_last :
  (outcome_of (sse_generator w web) = Completed ∧
   is_Some (archive (sse_generator w web)) ∧
   ∃ pre e, trace (sse_generator w web) = pre ++ [e] ∧ is_done e = true ∧
            Forall (λ e, is_done e = false) pre)
  ∨
  (outcome_of (sse_generator w web) ≠ Completed ∧
   archive (sse_generator w web) = None ∧
   Forall (λ e, is_done e = false) (trace (sse_generator w web))).
Proof.
  run_cases w web.
  all: try (apply fetch_html_quiet, quiet_not_done in Hfetch).
  all: try (apply discover_quiet, quiet_not_done in Hdisc).
  all: try (apply run_batches_spec in Hrun as (_ & Hrun & _);
            assert (Forall (λ e, is_done e = false) evs4) as Hrun'
              by (eapply Forall_impl; [exact Hrun|]; by intros e (_ & ? & _))).
  all: try (apply rewrite_stage_events in Hrw as (e5 & -> & (_ & _ & He5 & _))).
  all: try (apply info_stage_events, closing_not_done in Hinfo).
  all: try (apply zip_stage_events, closing_not_done in Hzip).
  1: { left. split_and!; [done|by eexists|].
       rewrite !app_assoc. eexists _, _.
       split_and!; [reflexivity|done|].
       rewrite !Forall_app. split_and!; try done; by repeat constructor. }
  all: right; split_and!; [done|done|].
  all: rewrite ?Forall_app; try split_and!; try done; by repeat constructor.
Qed.

(** A failed fetch of the root page ends the run after one [error] event. *)
Lemma root_fetch_failure evs :
  fetch_html w (ensure_scheme web) = (evs, None) →
  ∃ m, trace (sse_generator w web) = [Status "fetching_html"; Error m] ∧
       outcome_of (sse_generator w web) = Aborted ∧
       archive (sse_generator w web) = None.
Proof.
  intros Hf. unfold sse_generator. cbv zeta. rewrite Hf.
  cbn [trace outcome_of archive]. unfold fetch_html in Hf. destruct (get_page w) as [code body|msg].
  - destruct (is_success code); simplify_eq. by eexists.
  - simplify_eq. by eexists.
Qed.

(** A run that is given up after the discovery ends with an [error] event
    of the packaging. *)
Lemma aborted_ends_with_error :
  outcome_of (sse_generator w web) = Aborted →
  ∃ pre m, trace (sse_generator w web) = pre ++ [Error m].
Proof.
  run_cases w web; try done; intros _.
  - unfold zip_stage in Hzip.
    destruct (io_ok w WriteZip); [destruct (zip_entries w t6)|]; simplify_eq.
    all: rewrite !app_assoc; change [?a; ?b] with ([a] ++ [b]);
      rewrite !app_assoc; by eexists _, _.
  - unfold fetch_html in Hfetch. destruct (get_page w) as [code body|msg].
    + destruct (is_success code); simplify_eq. by eexists [_], _.
    + simplify_eq. by eexists [_], _.
Qed.

End Endings.

(** ** The scheduler of the download stage *)

Section SchedulerFacts.
Import Scheduler.

(** Replacing one element changes a count by what the old and the new
    element contribute. *)
Lemma filter_insert_length {A} (P : A → Prop) `{!∀ x, Decision (P x)}
    (l : list A) (k : nat) (old new : A) :
  l !! k = Some old →
  length (filter P (<[k := new]> l)) + (if decide (P old) then 1 else 0)
  = length (filter P l) + (if decide (P new) then 1 else 0).
Proof.
  revert k. induction l as [|x l IH]; intros k; [done|].
  destruct k as [|k]; simpl.
  - intros [= ->]. rewrite !filter_cons.
    destruct (decide (P new)), (decide (P old)); simpl; lia.
  - intros Hk. specialize (IH k Hk). rewrite !filter_cons.
    destruct (decide (P x)); simpl; lia.
Qed.

Lemma invariant_init n : invariant n (init n).
Proof.
  unfold invariant, init. simpl. split_and!.
  - apply length_replicate.
  - assert (filter holds_permit (replicate n Created) = []) as ->; [|unfold CONCURRENT_DOWNLOADS; cbn [length]; lia].
    induction n as [|n IH]; [done|]. simpl. rewrite filter_cons_False; [done|].
    by intros [|].
  - intros k t _ ?. lia.
  - by intros k t [-> _]%lookup_replicate _.
Qed.

Lemma in_batch_spec s k :
  in_batch s k = true ↔ batch_start s ≤ k < batch_start s + CONCURRENT_DOWNLOADS.
Proof.
  unfold in_batch. rewrite andb_true_iff, Nat.leb_le, Nat.ltb_lt. lia.
Qed.

Lemma batch_yielded_spec s k t :
  batch_yielded s = true → tasks s !! k = Some t →
  batch_start s ≤ k < batch_start s + CONCURRENT_DOWNLOADS → t = Yielded.
Proof.
  unfold batch_yielded. rewrite forallb_forall. intros Hall Hk Hin.
  assert (t ∈ take CONCURRENT_DOWNLOADS (drop (batch_start s) (tasks s))) as Ht.
  { apply elem_of_take. exists (k - batch_start s). split; [|lia].
    rewrite lookup_drop. by replace (batch_start s + (k - batch_start s)) with k by lia. }
  apply list_elem_of_In, Hall in Ht. by apply bool_decide_eq_true in Ht.
Qed.

Lemma invariant_step n s s' : invariant n s → step s s' → invariant n s'.
Proof.
  intros (Hlen & Hperm & Hpast & Hfuture) [a Hexec].
  destruct a as [k|k|]; simpl in Hexec.
  - (* Start *)
    destruct (tasks s !! k) as [[| | |]|] eqn:Hk; try done.
    destruct (in_batch s k) eqn:Hin; [|done]. apply in_batch_spec in Hin.
    destruct (permits s) as [|p] eqn:Hp; simplify_eq; unfold invariant; simpl.
    + split_and!.
      * by rewrite length_insert.
      * pose proof (filter_insert_length holds_permit _ k Created Waiting Hk) as Hc.
        rewrite decide_False in Hc by (by intros [|]).
        rewrite decide_False in Hc by (by intros [|]). lia.
      * intros j t Hj Hlt. apply (Hpast j); [|done].
        rewrite list_lookup_insert_ne in Hj; [done|lia].
      * intros j t Hj Hge. apply (Hfuture j); [|done].
        rewrite list_lookup_insert_ne in Hj; [done|lia].
    + split_and!.
      * by rewrite length_insert.
      * pose proof (filter_insert_length holds_permit _ k Created InFlight Hk) as Hc.
        rewrite decide_False in Hc by (by intros [|]).
        rewrite decide_True in Hc by (by left). lia.
      * intros j t Hj Hlt. apply (Hpast j); [|done].
        rewrite list_lookup_insert_ne in Hj; [done|lia].
      * intros j t Hj Hge. apply (Hfuture j); [|done].
        rewrite list_lookup_insert_ne in Hj; [done|lia].
  - (* Finish *)
    destruct (tasks s !! k) as [[| | |]|] eqn:Hk; try done. simplify_eq.
    assert (batch_start s ≤ k < batch_start s + CONCURRENT_DOWNLOADS) as Hin.
    { split.
      - destruct (decide (k < batch_start s)) as [Hlt|]; [|lia].
        by specialize (Hpast k _ Hk Hlt).
      - destruct (decide (batch_start s + CONCURRENT_DOWNLOADS ≤ k)) as [Hge|]; [|lia].
        by specialize (Hfuture k _ Hk Hge). }
    unfold invariant; simpl. split_and!.
    + by rewrite length_insert.
    + pose proof (filter_insert_length holds_permit _ k InFlight Yielded Hk) as Hc.
      rewrite decide_True in Hc by (by left).
      rewrite decide_True in Hc by (by right). lia.
    + intros j t Hj Hlt. apply (Hpast j); [|done].
      rewrite list_lookup_insert_ne in Hj; [done|lia].
    + intros j t Hj Hge. apply (Hfuture j); [|done].
      rewrite list_lookup_insert_ne in Hj; [done|lia].
  - (* NextBatch *)
    destruct (batch_yielded s) eqn:Hy; [|done].
    destruct (_ <? _) eqn:Hmore; [|done]. simpl in Hexec. simplify_eq.
    unfold invariant; simpl. split_and!; [done|done| |].
    + intros j t Hj Hlt. destruct (decide (j < batch_start s)) as [Hlt'|].
      * by apply (Hpast j).
      * apply (batch_yielded_spec s j); [done..|lia].
    + intros j t Hj Hge. apply (Hfuture j); [done|lia].
Qed.

Lemma invariant_reachable n s : reachable n s → invariant n s.
Proof.
  revert s. apply (rtc_ind_r (invariant n) (init n)).
  - apply invariant_init.
  - intros s s' _ Hstep Hinv. by eapply invariant_step.
Qed.

Lemma run_reachable_from acts : ∀ s0 s,
  run acts s0 = Some s → rtc step s0 s.
Proof.
  induction acts as [|a acts IH]; intros s0 s; simpl.
  - by intros [= ->].
  - destruct (exec a s0) as [s1|] eqn:Ha; [|done]. simpl. intros Hr.
    eapply rtc_l; [by exists a|by apply IH].
Qed.

Lemma in_flight_le_holding s :
  in_flight s ≤ length (filter holds_permit (tasks s)).
Proof.
  unfold in_flight. induction (tasks s) as [|t l IH]; [done|].
  rewrite !filter_cons. destruct (decide (t = InFlight)) as [->|].
  - rewrite decide_True by (by left). simpl. lia.
  - destruct (decide (holds_permit t)); simpl; lia.
Qed.

End SchedulerFacts.

(** The schedule [busy_schedule] leads to [busy_state]: eight downloads of
    the first batch in flight, the ninth not started. *)
Lemma busy_state_reachable : Scheduler.reachable 9 Scheduler.busy_state.
Proof. apply (run_reachable_from Scheduler.busy_schedule). reflexivity. Qed.

(** ** Stylesheets *)

Lemma mapM_elem_of {A B} (f : A → option B) (l : list A) (k : list B) (x : A) :
  mapM f l = Some k → x ∈ l → ∃ y, f x = Some y ∧ y ∈ k.
Proof.
  rewrite mapM_Some. intros Hl Hx. revert x Hx.
  induction Hl as [|a b l k Hab _ IH]; intros x Hx.
  - by apply elem_of_nil in Hx.
  - apply elem_of_cons in Hx as [->|Hx].
    + exists b. split; [done|left].
    + destruct (IH x Hx) as (y & ? & ?). exists y. split; [done|by right].
Qed.

Section Stylesheets.
Context {U : UrlLib} {L : HtmlLib} {P : PySet}.
Variable w : World.

(** The extractor resolves every reference it finds against the base it is
    given. *)
Lemma extract_css_resolves base_url css_text (found : gset string) r :
  extract_css_urls_from_text base_url css_text = Some found →
  r ∈ css_references css_text →
  ∃ u, urljoin base_url r = Some u ∧ u ∈ found.
Proof.
  unfold extract_css_urls_from_text, css_references.
  destruct (mapM _ (filter _ _)) as [urls|] eqn:Hu; [|done]. simpl.
  destruct (mapM _ (Re.findall Re.import_pattern css_text)) as [imports|] eqn:Hi; [|done].
  simpl. intros [= <-] [Hr|Hr]%elem_of_app.
  - destruct (mapM_elem_of _ _ _ _ Hu Hr) as (u & ? & ?).
    exists u. split; [done|]. apply elem_of_union_l. by apply elem_of_list_to_set.
  - destruct (mapM_elem_of _ _ _ _ Hi Hr) as (u & ? & ?).
    exists u. split; [done|]. apply elem_of_union_r. by apply elem_of_list_to_set.
Qed.

Lemma fetch_css_mono web_url links : ∀ k asset_urls evs asset_urls',
  fetch_css w web_url k links asset_urls = (evs, asset_urls') →
  asset_urls ⊆ asset_urls'.
Proof.
  induction links as [|css_url rest IH]; intros k a evs a'; simpl.
  - by intros [= <- <-].
  - destruct (fetch_css w web_url (S k) rest _) as [evs' a''] eqn:Hrest.
    intros [= <- <-]. apply IH in Hrest. etrans; [|exact Hrest].
    destruct (get_css w k css_url) as [code text|]; [|done].
    destruct (Nat.eqb code 200); [|done].
    destruct (extract_css_urls_from_text web_url text); [|done].
    apply union_subseteq_l.
Qed.

(** What a stylesheet answered with status 200 contributes is computed with
    the URL of the page as base, and stays in the set. *)
Lemma fetch_css_receives web_url links : ∀ k asset_urls evs asset_urls' i css_url text found,
  fetch_css w web_url k links asset_urls = (evs, asset_urls') →
  links !! i = Some css_url →
  get_css w (k + i) css_url = Response 200 text →
  extract_css_urls_from_text web_url text = Some found →
  found ⊆ asset_urls'.
Proof.
  induction links as [|css_url' rest IH];
    intros k a evs a' i css_url text found; simpl; [done|].
  destruct (fetch_css w web_url (S k) rest _) as [evs' a''] eqn:Hrest.
  intros [= <- <-] Hi Hget Hex. destruct i as [|i]; simpl in Hi.
  - injection Hi as ->. rewrite Nat.add_0_r in Hget.
    rewrite Hget, Hex in Hrest. simpl in Hrest.
    apply fetch_css_mono in Hrest. etrans; [|exact Hrest]. apply union_subseteq_r.
  - eapply (IH (S k)); [exact Hrest|exact Hi| |exact Hex].
    by replace (S k + i) with (k + S i) by lia.
Qed.

Lemma discover_receives web_url doc evs asset_urls links i css_url text found r :
  discover w web_url doc = Some (evs, asset_urls) →
  css_links web_url doc = Some links →
  links !! i = Some css_url →
  get_css w i css_url = Response 200 text →
  extract_css_urls_from_text web_url text = Some found →
  r ∈ css_references text →
  ∃ u, urljoin web_url r = Some u ∧ (u = web_url ∨ u ∈ asset_urls).
Proof.
  unfold discover. intros Hd Hl Hi Hget Hex Hr.
  destruct (find_asset_urls web_url doc) as [base|]; [|done]. simpl in Hd.
  rewrite Hl in Hd. simpl in Hd.
  destruct (fetch_css w web_url 0 links base) as [evs' a] eqn:Hcss.
  injection Hd as <- <-.
  destruct (extract_css_resolves _ _ _ _ Hex Hr) as (u & Hu & Hin).
  exists u. split; [done|].
  destruct (decide (u = web_url)) as [|Hne]; [by left|right].
  apply elem_of_difference. split; [|by rewrite elem_of_singleton].
  apply elem_of_union_l.
  eapply (fetch_css_receives web_url links 0); [exact Hcss|exact Hi|exact Hget|exact Hex|done].
Qed.

(** The asset set of a run is what the discovery computed from the page the
    server sent. *)
Lemma discovered_spec web asset_urls :
  discovered (sse_generator w web) = Some asset_urls →
  ∃ code html evs,
    get_page w = Response code html ∧ is_success code = true ∧
    discover w (ensure_scheme web) (BeautifulSoup html) = Some (evs, asset_urls).
Proof.
  unfold sse_generator. cbv zeta.
  destruct (fetch_html w (ensure_scheme web)) as [evs1 [html|]] eqn:Hfetch; [|done].
  unfold fetch_html in Hfetch.
  destruct (get_page w) as [code body|msg]; [|by simplify_eq].
  destruct (is_success code) eqn:Hc; [|by simplify_eq]. simplify_eq.
  destruct (discover w (ensure_scheme web) (BeautifulSoup html))
    as [[evs2 found]|] eqn:Hdisc; [|done].
  intros Hd. exists code, html, evs2. split_and!; [done..|].
  f_equal. f_equal.
  destruct (negb (io_ok w WritePage)); [by simplify_eq/=|].
  match type of Hd with
  | context [run_tasks_and_emit w ?root ?tasks ?st0] =>
      destruct (run_tasks_and_emit w root tasks st0) as [[evs4 st] [|]]
  end; [|by simplify_eq/=].
  destruct (rewrite_stage _ _ _) as [evs5 t5].
  destruct (info_stage _ _ _ _) as [[evs6 t6] info].
  destruct (zip_stage _ _) as [evs7 [zf|]]; by simplify_eq/=.
Qed.

End Stylesheets.

(** ** The Rewriter and the Asset Extractor *)

Section Rewriter.
Context {U : UrlLib}.

(** [rewrite_attr] leaves an element alone when the attribute is missing or
    empty, and otherwise puts the mapped path of the resolved reference. *)
Lemma rewrite_attr_spec web_url attr el el' :
  rewrite_attr web_url attr el = Some el' →
  match get_truthy attr el with
  | None => el' = el
  | Some v =>
      ∃ abs_url new_rel,
        urljoin web_url v = Some abs_url ∧
        safe_filename_from_url abs_url = Some new_rel ∧
        el' = set_attr attr new_rel el
  end.
Proof.
  unfold rewrite_attr, get_truthy.
  destruct (attrs el !! attr) as [val|]; simpl; [|by intros [= <-]].
  destruct (String.eqb val ""); [by intros [= <-]|].
  destruct (urljoin web_url val) as [abs_url|]; simpl; [|done].
  destruct (safe_filename_from_url abs_url) as [new_rel|] eqn:Hs; simpl; [|done].
  intros [= <-]. by exists abs_url, new_rel.
Qed.

(** An anchor whose [href] the pattern matches anywhere is collected. *)
Lemma anchor_collected base_url doc found el href :
  find_asset_urls base_url doc = Some found →
  el ∈ doc → name el = "a" → get_truthy "href" el = Some href →
  Re.search_static href = true →
  ∃ u, urljoin base_url href = Some u ∧ u ∈ found.
Proof.
  unfold find_asset_urls. intros Hf Hel Hname Hhref Hsearch.
  apply bind_Some in Hf as (tagged & _ & Hf).
  apply bind_Some in Hf as (srcsets & _ & Hf).
  apply bind_Some in Hf as (styles & _ & Hf).
  apply bind_Some in Hf as (sheets & _ & Hf).
  apply bind_Some in Hf as (anchors & Ha & [= <-]).
  destruct (mapM_elem_of _ _ _ href Ha) as (u & Hu & Hin).
  { apply list_elem_of_filter. split; [done|].
    apply list_elem_of_omap. exists el. split; [|done].
    by apply list_elem_of_filter. }
  exists u. split; [done|]. apply elem_of_list_to_set.
  rewrite !elem_of_app. auto.
Qed.

End Rewriter.


Lemma mapM_elem_of_inv {A B} (f : A → option B) (l : list A) (k : list B) (y : B) :
  mapM f l = Some k → y ∈ k → ∃ x, x ∈ l ∧ f x = Some y.
Proof.
  rewrite mapM_Some. intros Hl Hy. revert y Hy.
  induction Hl as [|a b l k Hab _ IH]; intros y Hy.
  - by apply elem_of_nil in Hy.
  - apply elem_of_cons in Hy as [->|Hy].
    + exists a. split; [left|done].
    + destruct (IH y Hy) as (x & ? & ?). exists x. split; [by right|done].
Qed.

(** What the extractor returns is nothing but the references resolved against
    its base. *)
Lemma extract_css_only_resolved `{UrlLib} base_url css_text (found : gset string) u :
  extract_css_urls_from_text base_url css_text = Some found →
  u ∈ found →
  ∃ r, r ∈ css_references css_text ∧ urljoin base_url r = Some u.
Proof.
  unfold extract_css_urls_from_text, css_references. intros Hf.
  apply bind_Some in Hf as (urls & Hu & Hf).
  apply bind_Some in Hf as (imports & Hi & [= <-]).
  rewrite elem_of_union, !elem_of_list_to_set. intros [Hin|Hin].
  - destruct (mapM_elem_of_inv _ _ _ _ Hu Hin) as (r & ? & ?).
    exists r. split; [|done]. apply elem_of_app. by left.
  - destruct (mapM_elem_of_inv _ _ _ _ Hi Hin) as (r & ? & ?).
    exists r. split; [|done]. apply elem_of_app. by right.
Qed.

Section StylesheetSources.
Context {U : UrlLib} {L : HtmlLib} {P : PySet}.
Variable w : World.

(** The extractor fails exactly when [urljoin] rejects one of the
    references. *)
Lemma extract_css_defined base_url css_text :
  is_Some (extract_css_urls_from_text base_url css_text) ↔
  ∀ r, r ∈ css_references css_text → is_Some (urljoin base_url r).
Proof.
  unfold extract_css_urls_from_text, css_references. split.
  - intros [found Hf] r.
    apply bind_Some in Hf as (urls & Hu & Hf).
    apply bind_Some in Hf as (imports & Hi & _).
    intros [Hr|Hr]%elem_of_app.
    + destruct (mapM_elem_of _ _ _ _ Hu Hr) as (u & -> & _). by eexists.
    + destruct (mapM_elem_of _ _ _ _ Hi Hr) as (u & -> & _). by eexists.
  - intros Hall.
    destruct (mapM_is_Some_2 (urljoin base_url)
                (filter (λ mclean, mclean ≠ "")
                   (strip_quotes <$> Re.findall Re.url_pattern css_text)))
      as [urls ->].
    { apply Forall_forall. intros r Hr. apply Hall, elem_of_app. by left. }
    destruct (mapM_is_Some_2 (urljoin base_url)
                (Re.findall Re.import_pattern css_text)) as [imports ->].
    { apply Forall_forall. intros r Hr. apply Hall, elem_of_app. by right. }
    by eexists.
Qed.

(** What a stylesheet contributes: when [urljoin] resolves every reference
    against the base, the resolved references; otherwise nothing. *)
Lemma extract_css_spec base_url css_text u :
  (∃ found, extract_css_urls_from_text base_url css_text = Some found ∧ u ∈ found) ↔
  (∀ r, r ∈ css_references css_text → is_Some (urljoin base_url r)) ∧
  ∃ r, r ∈ css_references css_text ∧ urljoin base_url r = Some u.
Proof.
  split.
  - intros (found & Hf & Hu). split.
    + apply extract_css_defined. by eexists.
    + by eapply extract_css_only_resolved.
  - intros [Hall (r & Hr & Hu)].
    apply extract_css_defined in Hall as [found Hf]. exists found. split; [done|].
    destruct (extract_css_resolves _ _ _ _ Hf Hr) as (u' & Hu' & Hin). congruence.
Qed.

(** The set after the loop over the stylesheet links holds what it held
    before and what the stylesheets answered with status 200 contribute. *)
Lemma fetch_css_spec web_url links : ∀ k asset_urls evs asset_urls' x,
  fetch_css w web_url k links asset_urls = (evs, asset_urls') →
  x ∈ asset_urls' ↔
  x ∈ asset_urls ∨
  ∃ i css_url text found,
    links !! i = Some css_url ∧
    get_css w (k + i) css_url = Response 200 text ∧
    extract_css_urls_from_text web_url text = Some found ∧ x ∈ found.
Proof.
  intros k a evs a' x Hcss. split.
  - revert k a evs a' Hcss.
    induction links as [|css_url rest IH]; intros k a evs a'; simpl.
    + intros [= <- <-]. by left.
    + destruct (fetch_css w web_url (S k) rest _) as [evs' a''] eqn:Hrest.
      intros [= <- <-] Hx.
      destruct (IH _ _ _ _ Hrest Hx)
        as [Hin|(i & u & text & found & Hi & Hget & Hex & Hxf)].
      * destruct (get_css w k css_url) as [code text|] eqn:Hget; [|by left].
        destruct (Nat.eqb code 200) eqn:Hcode; [|by left].
        apply Nat.eqb_eq in Hcode as ->.
        destruct (extract_css_urls_from_text web_url text) as [found|] eqn:Hex;
          [|by left].
        apply elem_of_union in Hin as [?|?]; [by left|right].
        exists 0, css_url, text, found. by rewrite Nat.add_0_r.
      * right. exists (S i), u, text, found. split_and!; [done| |done..].
        by replace (k + S i) with (S k + i) by lia.
  - intros [Hin|(i & css_url & text & found & Hi & Hget & Hex & Hin)].
    + by apply (fetch_css_mono w _ _ _ _ _ _ Hcss).
    + by apply (fetch_css_receives w _ _ _ _ _ _ _ _ _ _ Hcss Hi Hget Hex).
Qed.

End StylesheetSources.

(** * The claims *)

(** Claim C1.  The specification promises one [asset] or [asset_error] event
    for each of the N discovered URLs.  On a page with nine images, every one
    of which the server delivers, the run announces ten items in its single
    [meta] event, reports on eight of the nine URLs, and then waits for ever
    in the second batch: the eight generators of the first batch still hold
    the eight permits of the semaphore.  The ninth URL is never reported on.
    ([within_limit_all_reported] and [above_limit_blocked] give the general
    picture on both sides of the limit.) *)
Theorem ninth_asset_is_never_reported :
  (size <$> discovered Examples.nine_run) = Some 9 ∧
  filter (λ e, is_meta e = true) (trace Examples.nine_run) = [Meta 10] ∧
  length (filter (λ e, is_download_event e = true) (trace Examples.nine_run)) = 8 ∧
  (∃ url, url ∈ default ∅ (discovered Examples.nine_run) ∧
          url ∉ omap download_url (trace Examples.nine_run)) ∧
  outcome_of Examples.nine_run = Blocked.
Proof.
  split_and!; try (vm_compute; reflexivity).
  exists "http://ex.com/0.png". split.
  - apply (bool_decide_unpack _). vm_compute. exact I.
  - apply (bool_decide_unpack _). vm_compute. exact I.
Qed.

(** Claim C2.  The specification includes an anchor exactly when the path of
    its URL has a static-resource extension, and excludes links that carry
    such an extension only in the query string.  The code searches the pattern
    in the whole [href]: the navigational link [/article?ref=logo.png], whose
    path [/article] has no extension, is collected as an asset.
    ([anchor_collected] states the criterion the code applies.) *)
Theorem link_with_extension_in_query_is_collected :
  find_asset_urls "http://ex.com/" Examples.anchor_page
    = Some {[ "http://ex.com/article?ref=logo.png" ]} ∧
  path <$> urlparse "http://ex.com/article?ref=logo.png" = Some "/article" ∧
  path_has_static_extension "http://ex.com/article?ref=logo.png" = false.
Proof. vm_compute. by split_and!. Qed.

(** Claim C3.  The Local Path Mapper is a function of the URL alone, and for
    every URL it returns the path the specification describes
    ([claimed_local_path]): the host with its colons replaced as the path
    prefix, then the path component, whose file is [index.html] when the path
    is empty or ends with a slash; each of the characters backslash, colon,
    star, question mark, double quote, angle brackets and bar replaced by an
    underscore; and, exactly when the query is not empty, an underscore and
    the first 40 characters of the query with every character that is not a
    letter or a digit replaced by an underscore.  A URL without a host
    ([data:], [mailto:], a relative reference) is mapped to its path alone.
    When [urlparse] raises, so does the mapper. *)
Theorem safe_filename_from_url_spec (url : string) :
  @safe_filename_from_url PyUrl url = claimed_local_path <$> @urlparse PyUrl url ∧
  ∀ path1 path2,
    @safe_filename_from_url PyUrl url = Some path1 →
    @safe_filename_from_url PyUrl url = Some path2 → path1 = path2.
Proof.
  split; [|congruence].
  destruct (@urlparse PyUrl url) as [p|] eqn:Hp.
  - apply safe_filename_from_url_described; [done|]. by apply (urlparse_netloc url).
  - unfold safe_filename_from_url. by rewrite Hp.
Qed.

(** Forbidden characters in the path and a query of more than 40 characters;
    a URL without a host; a URL without a path. *)
Lemma safe_filename_from_url_witness :
  safe_filename_from_url
    "http://ex.com:8080/a*b/c<d>.png?q=0123456789&r=abcdefghijklmnopqrstuvwxyz-ABCDEFGH"
  = Some "ex.com_8080/a_b/c_d_.png_q_0123456789_r_abcdefghijklmnopqrstuvwxy" ∧
  safe_filename_from_url "data:image/png;base64,AAAA" = Some "image/png;base64,AAAA" ∧
  safe_filename_from_url "http://ex.com" = Some "ex.com/index.html".
Proof.
  split_and!.
  - etrans; [exact (proj1 (safe_filename_from_url_spec
      "http://ex.com:8080/a*b/c<d>.png?q=0123456789&r=abcdefghijklmnopqrstuvwxyz-ABCDEFGH"))|].
    vm_compute. reflexivity.
  - etrans; [exact (proj1 (safe_filename_from_url_spec "data:image/png;base64,AAAA"))|].
    vm_compute. reflexivity.
  - etrans; [exact (proj1 (safe_filename_from_url_spec "http://ex.com"))|].
    vm_compute. reflexivity.
Defined.

(** Claim C4.  In every run that writes the manifest, the [downloaded_bytes]
    field of [info.json] is the sum of the [size] fields of the [asset] events
    of the run; the other events, [asset_error] among them, add nothing. *)
Theorem manifest_bytes_sum {U : UrlLib} {L : HtmlLib} {P : PySet}
    (w : World) (web : string) (i : Info) :
  manifest (sse_generator w web) = Some i →
  file_at (workspace (sse_generator w web)) ["info.json"] (Json i) ∧
  downloaded_bytes i = sum_list_with asset_size (trace (sse_generator w web)).
Proof.
  intros Hm. by destruct (manifest_spec w web i Hm).
Qed.

Lemma manifest_bytes_sum_witness :
  ∃ i, manifest Examples.scenario_run = Some i ∧
       file_at (workspace Examples.scenario_run) ["info.json"] (Json i) ∧
       downloaded_bytes i = sum_list_with asset_size (trace Examples.scenario_run).
Proof.
  exists {| cloned_from := "http://ex.com/";
            timestamp_utc := "2025-01-01T12:00:05Z";
            total_files_downloaded := 2;
            downloaded_bytes := 4;
            zip_name := "stark_20250101120000.zip" |}.
  split; [vm_compute; reflexivity|].
  apply (manifest_bytes_sum (L := Examples.ExampleHtml)
           (Examples.losing Examples.scenario_html "http://ex.com/b.png") "ex.com/").
  vm_compute. reflexivity.
Defined.

(** Claim C5.  The specification lets every run that survives the fetch of
    the root page and the packaging end with one [done] event.  On the page
    with nine images the root page is fetched, no download fails and no
    [error] event is sent, and yet the run never reaches [done]: it waits for
    ever in the second batch of downloads (the defect of claim C1) and writes
    no archive.  ([done_is_last], [root_fetch_failure] and
    [aborted_ends_with_error] show that the rest of the claim holds.) *)
Theorem more_than_eight_assets_never_done :
  get_page (Examples.serving Examples.nine_html "") = Response 200 Examples.nine_html ∧
  outcome_of Examples.nine_run = Blocked ∧
  forallb (λ e, negb (is_done e) && negb (is_error e)) (trace Examples.nine_run) = true ∧
  forallb (λ e, match e with AssetError _ _ => false | _ => true end)
          (trace Examples.nine_run) = true ∧
  archive Examples.nine_run = None.
Proof. split_and!; vm_compute; reflexivity. Qed.

(** Claim C6.  In the events of a run there is at most one [meta]; it comes
    before every [asset] and [asset_error] event, these come before
    [status: rewriting_html], and that one before every event of the manifest
    and of the archive, [done] included: an event of an earlier stage is at an
    earlier position than an event of a later stage. *)
Theorem event_order {U : UrlLib} {L : HtmlLib} {P : PySet}
    (w : World) (web : string) (i j : nat) (ei ej : event) (a b : nat) :
  trace (sse_generator w web) !! i = Some ei →
  trace (sse_generator w web) !! j = Some ej →
  stage ei = Some a →
  stage ej = Some b →
  a < b →
  i < j ∧ length (filter (λ e, is_meta e = true) (trace (sse_generator w web))) ≤ 1.
Proof.
  intros Hi Hj Ha Hb Hab. split; [|apply trace_meta_once].
  destruct (trace_in_stage_order w web) as (_ & Hsorted & _).
  destruct (decide (i < j)) as [|Hge]; [done|exfalso].
  destruct (decide (i = j)) as [->|Hne].
  - rewrite Hi in Hj. injection Hj as ->. rewrite Ha in Hb. injection Hb as ->. lia.
  - assert (j < i) as Hlt by lia.
    pose proof (sorted_lookup _ _ _ _ _ _ Hsorted Hlt Hj Hi b a Hb Ha). lia.
Qed.

Lemma event_order_witness :
  2 < 3 ∧ length (filter (λ e, is_meta e = true) (trace Examples.scenario_run)) ≤ 1.
Proof.
  apply (event_order (L := Examples.ExampleHtml)
           (Examples.losing Examples.scenario_html "http://ex.com/b.png") "ex.com/"
           2 3 (Meta 3)
           (Asset "http://ex.com/a.png" "/tmp/stark_clone_20250101120000/ex.com/a.png" 4)
           1 2).
  - vm_compute. reflexivity.
  - vm_compute. reflexivity.
  - reflexivity.
  - reflexivity.
  - lia.
Defined.

(** Claim C7.  The specification has the Rewriter skip every element whose
    target attribute is empty.  For [src], [href] and [poster] it does
    ([rewrite_attr_spec]); the loop over [srcset] has no such test, although
    the same loop of the extractor has one ([if src:]): an image with an empty
    [srcset] leaves the Rewriter with the mapped path of the page itself as
    its [srcset]. *)
Theorem empty_srcset_is_rewritten :
  rewrite_html "http://ex.com/" Examples.srcset_page
    = Some [Examples.el "img" [("srcset", "ex.com/index.html")]] ∧
  find_asset_urls "http://ex.com/" Examples.srcset_page = Some ∅.
Proof. vm_compute. by split. Qed.

(** Claim C8.  When packaging succeeds, the archive has exactly one entry for
    every file under the workspace at that time, named by the path of the file
    from the workspace root; the manifest, written before, is among them. *)
Theorem archive_holds_workspace {U : UrlLib} {L : HtmlLib} {P : PySet}
    (w : World) (web : string) (entries : list (string * fdata)) :
  archive (sse_generator w web) = Some entries →
  NoDup entries.*1 ∧
  (∀ nm d, (nm, d) ∈ entries ↔
           ∃ p, nm = Py.join "/" p ∧ file_at (workspace (sse_generator w web)) p d) ∧
  (∀ i, manifest (sse_generator w web) = Some i → ("info.json", Json i) ∈ entries).
Proof.
  intros Ha%archive_spec.
  destruct (zip_entries_spec w _ entries (workspace_wf w web) Ha) as [Hnd Hin].
  split_and!; [done|done|].
  intros i [_ Hfile]%manifest_spec. apply Hin. by exists ["info.json"].
Qed.

Lemma archive_holds_workspace_witness :
  ∃ entries,
    archive Examples.scenario_run = Some entries ∧
    NoDup entries.*1 ∧
    (∀ nm d, (nm, d) ∈ entries ↔
             ∃ p, nm = Py.join "/" p ∧ file_at (workspace Examples.scenario_run) p d) ∧
    (∀ i, manifest Examples.scenario_run = Some i → ("info.json", Json i) ∈ entries).
Proof.
  eexists. split; [vm_compute; reflexivity|].
  apply (archive_holds_workspace (L := Examples.ExampleHtml)
           (Examples.losing Examples.scenario_html "http://ex.com/b.png") "ex.com/").
  vm_compute. reflexivity.
Defined.

(** What a stylesheet contributes stays in the asset set, the URL of the page
    apart. *)
Lemma discover_keeps {U : UrlLib} {L : HtmlLib} {P : PySet} (w : World)
    web_url doc evs asset_urls links i css_url text (found : gset string) u :
  discover w web_url doc = Some (evs, asset_urls) →
  css_links web_url doc = Some links →
  links !! i = Some css_url →
  get_css w i css_url = Response 200 text →
  extract_css_urls_from_text web_url text = Some found →
  u ∈ found → u = web_url ∨ u ∈ asset_urls.
Proof.
  unfold discover. intros Hd Hl Hi Hget Hex Hin.
  destruct (find_asset_urls web_url doc) as [base|]; [|done]. simpl in Hd.
  rewrite Hl in Hd. simpl in Hd.
  destruct (fetch_css w web_url 0 links base) as [evs' a] eqn:Hcss.
  injection Hd as <- <-.
  destruct (decide (u = web_url)) as [|Hne]; [by left|right].
  apply elem_of_difference. split; [|by rewrite elem_of_singleton].
  apply elem_of_union_l.
  eapply (fetch_css_receives w web_url links 0); [exact Hcss|exact Hi|exact Hget|exact Hex|done].
Qed.

(** From the page the bare name [icon.svg] resolves to another URL than from
    the stylesheet in [/css/]; the run collects the former and not the
    latter. *)
Lemma stylesheet_base_is_the_page :
  urljoin "http://ex.com/index.html" "icon.svg" = Some "http://ex.com/icon.svg" ∧
  urljoin "http://ex.com/css/main.css" "icon.svg" = Some "http://ex.com/css/icon.svg" ∧
  (elements <$> discovered Examples.linked_run)
    = Some ["http://ex.com/css/main.css"; "http://ex.com/icon.svg";
            "http://ex.com/img/a.png"].
Proof. split_and!; vm_compute; reflexivity. Qed.

(** Claim C9, as the code has it.  In every state the download stage can
    reach, at most [CONCURRENT_DOWNLOADS] downloads are in flight, and the
    downloads are started batch by batch: a download that has been started
    (it waits for a permit, is in flight, or has reported) belongs to the
    current batch of eight or to an earlier one; every download of an earlier
    batch has reported its event; and a download that waits for a permit or
    is in flight belongs to the current batch. *)
Theorem in_flight_bounded_by_batches (n : nat) (s : Scheduler.state) :
  Scheduler.reachable n s →
  Scheduler.in_flight s ≤ CONCURRENT_DOWNLOADS ∧
  (∀ k t, Scheduler.tasks s !! k = Some t → t ≠ Scheduler.Created →
          k < Scheduler.batch_start s + CONCURRENT_DOWNLOADS) ∧
  (∀ k t, Scheduler.tasks s !! k = Some t → k < Scheduler.batch_start s →
          t = Scheduler.Yielded) ∧
  (∀ k t, Scheduler.tasks s !! k = Some t →
          t = Scheduler.Waiting ∨ t = Scheduler.InFlight →
          Scheduler.in_batch s k = true).
Proof.
  intros (Hlen & Hperm & Hpast & Hfuture)%invariant_reachable. split_and!.
  - pose proof (in_flight_le_holding s). lia.
  - intros k t Hk Ht.
    destruct (decide (Scheduler.batch_start s + CONCURRENT_DOWNLOADS ≤ k)) as [Hge|]; [|lia].
    by specialize (Hfuture k _ Hk Hge).
  - exact Hpast.
  - intros k t Hk Ht. apply in_batch_spec. split.
    + destruct (decide (k < Scheduler.batch_start s)) as [Hlt|]; [|lia].
      specialize (Hpast k _ Hk Hlt). by destruct Ht; simplify_eq.
    + destruct (decide (Scheduler.batch_start s + CONCURRENT_DOWNLOADS ≤ k)) as [Hge|]; [|lia].
      specialize (Hfuture k _ Hk Hge). by destruct Ht; simplify_eq.
Qed.

(** The state [Scheduler.later_state]: the second batch is the current one,
    the eight downloads of the first have reported and the ninth waits. *)
Lemma in_flight_bounded_witness :
  Scheduler.batch_start Scheduler.later_state = 8 ∧
  Scheduler.tasks Scheduler.later_state !! 8 = Some Scheduler.Waiting ∧
  Scheduler.in_flight Scheduler.later_state ≤ CONCURRENT_DOWNLOADS ∧
  (∀ k t, Scheduler.tasks Scheduler.later_state !! k = Some t →
          t ≠ Scheduler.Created →
          k < Scheduler.batch_start Scheduler.later_state + CONCURRENT_DOWNLOADS) ∧
  (∀ k t, Scheduler.tasks Scheduler.later_state !! k = Some t →
          k < Scheduler.batch_start Scheduler.later_state →
          t = Scheduler.Yielded) ∧
  (∀ k t, Scheduler.tasks Scheduler.later_state !! k = Some t →
          t = Scheduler.Waiting ∨ t = Scheduler.InFlight →
          Scheduler.in_batch Scheduler.later_state k = true).
Proof.
  split; [reflexivity|]. split; [reflexivity|].
  apply (in_flight_bounded_by_batches 9 Scheduler.later_state).
  apply (run_reachable_from Scheduler.later_schedule). reflexivity.
Defined.

(** Claim C9, as the specification states it, fails: with eight downloads of
    the first batch in flight the ninth cannot start when one of them
    completes; no step from that state starts it. *)
Lemma ninth_download_keeps_waiting : ¬ Scheduler.waits_until_one_completes.
Proof.
  intros Hq.
  destruct (Hq 9 Scheduler.busy_state 8) as (s' & [a Ha] & Hs').
  - exact busy_state_reachable.
  - reflexivity.
  - vm_compute. lia.
  - destruct a as [k|k|].
    + do 9 (destruct k as [|k]; [by simplify_eq/=|]). by simplify_eq/=.
    + do 9 (destruct k as [|k]; [by simplify_eq/=|]). by simplify_eq/=.
    + by simplify_eq/=.
Qed.

(** Claim C10, as the code has it.  The references found in a linked
    stylesheet are resolved against the URL of the page, and the URL of the
    stylesheet is used for nothing but the request.  The asset set of a run
    holds exactly: the references of the page; the stylesheet links; and, for
    every stylesheet answered with status 200 all of whose references
    [urljoin] resolves against the URL of the page, [urljoin(page_url, r)] for
    every reference [r] the two patterns find in it; the URL of the page
    itself left out.  So [urljoin(stylesheet_url, r)] is in the set only when
    it is one of these. *)
Theorem stylesheet_references_use_page_base {U : UrlLib} {L : HtmlLib} {P : PySet}
    (w : World) (web : string) (asset_urls page_found : gset string) (code : nat)
    (html : string) (links : list string) (u : string) :
  discovered (sse_generator w web) = Some asset_urls →
  get_page w = Response code html →
  find_asset_urls (ensure_scheme web) (BeautifulSoup html) = Some page_found →
  css_links (ensure_scheme web) (BeautifulSoup html) = Some links →
  u ∈ asset_urls ↔
  u ≠ ensure_scheme web ∧
  (u ∈ page_found ∨ u ∈ links ∨
   ∃ k css_url text,
     links !! k = Some css_url ∧
     get_css w k css_url = Response 200 text ∧
     (∀ r, r ∈ css_references text → is_Some (urljoin (ensure_scheme web) r)) ∧
     ∃ r, r ∈ css_references text ∧ urljoin (ensure_scheme web) r = Some u).
Proof.
  intros Hd Hpage Hfind Hlinks.
  apply discovered_spec in Hd as (code' & html' & evs & Hpage' & _ & Hd).
  assert (html' = html) as -> by congruence.
  unfold discover in Hd. rewrite Hfind, Hlinks in Hd. simpl in Hd.
  destruct (fetch_css w (ensure_scheme web) 0 links page_found) as [evs' a] eqn:Hcss.
  injection Hd as _ <-.
  rewrite elem_of_difference, elem_of_union, elem_of_singleton, elem_of_list_to_set.
  rewrite (fetch_css_spec w _ _ _ _ _ _ u Hcss).
  split.
  - intros [[[Hin|(k & css_url & text & found & Hk & Hget & Hex & Hin)]|Hin] Hne];
      (split; [done|]); [by left| |by right; left].
    right; right. exists k, css_url, text. split_and!; [done..| |].
    + apply extract_css_defined. by eexists.
    + by eapply extract_css_only_resolved.
  - intros [Hne [Hin|[Hin|(k & css_url & text & Hk & Hget & Hall & Hr)]]];
      (split; [|done]); [by left; left|by right|].
    left; right.
    destruct (proj2 (extract_css_spec _ _ u) (conj Hall Hr)) as (found & Hex & Hin).
    by exists k, css_url, text, found.
Qed.

(** The run [Examples.linked_run]: the bare name [icon.svg] of the stylesheet
    [/css/main.css] is in the asset set as [http://ex.com/icon.svg]; for
    [http://ex.com/css/icon.svg] the same equivalence holds, whose two sides
    are false. *)
Lemma stylesheet_references_witness :
  ("http://ex.com/icon.svg"
     ∈ ({[ "http://ex.com/css/main.css"; "http://ex.com/icon.svg";
           "http://ex.com/img/a.png" ]} : gset string) ↔
   "http://ex.com/icon.svg" ≠ ensure_scheme "http://ex.com/index.html" ∧
   ("http://ex.com/icon.svg" ∈ ({[ "http://ex.com/css/main.css" ]} : gset string) ∨
    "http://ex.com/icon.svg" ∈ ["http://ex.com/css/main.css"] ∨
    ∃ k css_url text,
      ["http://ex.com/css/main.css"] !! k = Some css_url ∧
      get_css (Examples.serving Examples.linked_html Examples.linked_css) k css_url
      = Response 200 text ∧
      (∀ r, r ∈ css_references text →
            is_Some (urljoin (ensure_scheme "http://ex.com/index.html") r)) ∧
      ∃ r, r ∈ css_references text ∧
           urljoin (ensure_scheme "http://ex.com/index.html") r
           = Some "http://ex.com/icon.svg")) ∧
  ("http://ex.com/css/icon.svg"
     ∈ ({[ "http://ex.com/css/main.css"; "http://ex.com/icon.svg";
           "http://ex.com/img/a.png" ]} : gset string) ↔
   "http://ex.com/css/icon.svg" ≠ ensure_scheme "http://ex.com/index.html" ∧
   ("http://ex.com/css/icon.svg" ∈ ({[ "http://ex.com/css/main.css" ]} : gset string) ∨
    "http://ex.com/css/icon.svg" ∈ ["http://ex.com/css/main.css"] ∨
    ∃ k css_url text,
      ["http://ex.com/css/main.css"] !! k = Some css_url ∧
      get_css (Examples.serving Examples.linked_html Examples.linked_css) k css_url
      = Response 200 text ∧
      (∀ r, r ∈ css_references text →
            is_Some (urljoin (ensure_scheme "http://ex.com/index.html") r)) ∧
      ∃ r, r ∈ css_references text ∧
           urljoin (ensure_scheme "http://ex.com/index.html") r
           = Some "http://ex.com/css/icon.svg")).
Proof.
  split.
  - apply (stylesheet_references_use_page_base (L := Examples.ExampleHtml)
             (Examples.serving Examples.linked_html Examples.linked_css)
             "http://ex.com/index.html" _ _ 200 Examples.linked_html).
    + vm_compute. reflexivity.
    + reflexivity.
    + vm_compute. reflexivity.
    + vm_compute. reflexivity.
  - apply (stylesheet_references_use_page_base (L := Examples.ExampleHtml)
             (Examples.serving Examples.linked_html Examples.linked_css)
             "http://ex.com/index.html" _ _ 200 Examples.linked_html).
    + vm_compute. reflexivity.
    + reflexivity.
    + vm_compute. reflexivity.
    + vm_compute. reflexivity.
Defined.

(** Claim C10, as the specification states it, fails in four ways.  A
    root-relative reference resolves to the same URL from the page and from a
    stylesheet in another directory of the same host.  A stylesheet answered
    with the success status 203 contributes nothing: [icon.svg] is not
    received.  A reference that resolves to the URL of the page is left out
    of the set.  And one reference that [urljoin] rejects keeps back the
    others of its stylesheet: [a.png] is not received. *)
Lemma stylesheet_claim_fails :
  ¬ resolves_differently_whenever_elsewhere ∧
  (is_success 203 = true ∧
   css_references Examples.linked_css = ["/img/a.png"; "icon.svg"] ∧
   relative_reference "icon.svg" ∧
   urljoin "http://ex.com/index.html" "icon.svg" = Some "http://ex.com/icon.svg" ∧
   (elements <$> discovered Sheets.non_authoritative_run)
   = Some ["http://ex.com/css/main.css"]) ∧
  (css_references Sheets.self_css = ["index.html"; "icon.svg"] ∧
   relative_reference "index.html" ∧
   urljoin "http://ex.com/index.html" "index.html" = Some "http://ex.com/index.html" ∧
   (elements <$> discovered Sheets.self_run)
   = Some ["http://ex.com/css/main.css"; "http://ex.com/icon.svg"]) ∧
  (css_references Sheets.unresolvable_css = ["a.png"; "http://["] ∧
   relative_reference "a.png" ∧
   urljoin "http://ex.com/index.html" "a.png" = Some "http://ex.com/a.png" ∧
   urljoin "http://ex.com/index.html" "http://[" = None ∧
   (elements <$> discovered Sheets.unresolvable_run)
   = Some ["http://ex.com/css/main.css"]).
Proof.
  split_and!; try (vm_compute; reflexivity).
  intros Hclaim.
  apply (Hclaim "http://ex.com/index.html" "http://ex.com/css/main.css" "/img/a.png").
  - reflexivity.
  - left. vm_compute. discriminate.
  - vm_compute. reflexivity.
Qed.

(** * Further properties *)

(** ** The utilities *)

Lemma startswith_app (p s : string) : Py.startswith (p +:+ s) p = true.
Proof.
  induction p as [|c p IH]; [by destruct s|].
  change (String c p +:+ s) with (String c (p +:+ s)). simpl.
  by rewrite Ascii.eqb_refl, IH.
Qed.

Lemma ensure_scheme_fixed (url : string) :
  ensure_scheme (ensure_scheme url) = ensure_scheme url.
Proof.
  unfold ensure_scheme at 2.
  destruct (Py.startswith url "http://") eqn:H1; cbn [negb andb].
  - unfold ensure_scheme. by rewrite H1.
  - destruct (Py.startswith url "https://") eqn:H2; cbn [negb andb].
    + unfold ensure_scheme. by rewrite H1, H2.
    + unfold ensure_scheme. by rewrite (startswith_app "http://" url), H1, H2.
Qed.

(** Property X1.  [ensure_scheme] returns a URL that starts with [http://] or
    [https://], and applying it a second time changes nothing. *)
Theorem ensure_scheme_idempotent (url : string) :
  (Py.startswith (ensure_scheme url) "http://" = true ∨
   Py.startswith (ensure_scheme url) "https://" = true) ∧
  ensure_scheme (ensure_scheme url) = ensure_scheme url.
Proof.
  split; [|apply ensure_scheme_fixed].
  unfold ensure_scheme.
  destruct (Py.startswith url "http://") eqn:H1; cbn [negb andb]; [by left|].
  destruct (Py.startswith url "https://") eqn:H2; cbn [negb andb]; [by right|].
  left. apply (startswith_app "http://" url).
Qed.

(** Property X2.  [copy_endpoint] starts no run for an empty [web] parameter;
    for any other it streams the run [sse_generator(web)] of the parameter as
    it was given: the scheme the endpoint puts in front is the one
    [sse_generator] would add itself. *)
Theorem copy_endpoint_streams_the_run {U : UrlLib} {L : HtmlLib} {P : PySet}
    (w : World) (web : string) :
  copy_endpoint w web
  = if String.eqb web "" then MissingWeb
    else StreamingResponse (sse_generator w web).
Proof.
  unfold copy_endpoint. destruct (String.eqb web ""); [done|]. f_equal.
  change (if negb (Py.startswith web "http://") && negb (Py.startswith web "https://")
          then "http://" +:+ web else web) with (ensure_scheme web).
  unfold sse_generator. by rewrite ensure_scheme_fixed.
Qed.

(** ** More on the Local Path Mapper *)

Lemma all_chars_app f (a b : string) :
  Urllib.all_chars f (a +:+ b) = Urllib.all_chars f a && Urllib.all_chars f b.
Proof.
  induction a as [|c a IH]; [done|].
  change (String c a +:+ b) with (String c (a +:+ b)). simpl.
  by rewrite IH, andb_assoc.
Qed.

Lemma all_chars_map (f : ascii → bool) (g : ascii → ascii) (s : string) :
  (∀ c, f (g c) = true) → Urllib.all_chars f (Py.map g s) = true.
Proof. intros Hfg. induction s as [|c s IH]; [done|]. simpl. by rewrite Hfg, IH. Qed.

Lemma all_chars_take (f : ascii → bool) (n : nat) (s : string) :
  Urllib.all_chars f s = true → Urllib.all_chars f (Py.take n s) = true.
Proof.
  revert n. induction s as [|c s IH]; intros [|n]; try done. simpl.
  intros [-> Hs]%andb_true_iff. by rewrite IH.
Qed.

Lemma all_chars_no_char (f : ascii → bool) (c : ascii) (s : string) :
  f c = false → Urllib.all_chars f s = true → Urllib.has_char c s = false.
Proof.
  intros Hc. induction s as [|d s IH]; [done|]. simpl.
  intros [Hd Hs]%andb_true_iff. rewrite IH by done.
  destruct (Ascii.eqb_spec c d) as [->|]; [congruence|done].
Qed.

Lemma sanitized_allowed (c : ascii) :
  negb (forbidden_char (if forbidden_char c then "_"%char else c)) = true.
Proof. by destruct (forbidden_char c) eqn:Hc; [|rewrite Hc]. Qed.

Lemma fingerprint_allowed (c : ascii) :
  negb (forbidden_char (if alnum_char c then c else "_"%char)) = true.
Proof. destruct c as [[] [] [] [] [] [] [] []]; reflexivity. Qed.

Lemma endswith_app_ne (a b : string) :
  b ≠ "" → Py.endswith (a +:+ b) "/" = Py.endswith b "/".
Proof.
  intros Hb. induction a as [|c a IH]; [done|].
  change (String c a +:+ b) with (String c (a +:+ b)).
  rewrite endswith_slash_cons. destruct (a +:+ b) as [|d t] eqn:Hab; [|done].
  destruct a; [by simpl in Hab|done].
Qed.

Lemma endswith_lstrip (s : string) :
  Py.endswith s "/" = false → Py.endswith (Py.lstrip ["/"%char] s) "/" = false.
Proof.
  induction s as [|c s IH]; [done|]. cbn [Py.lstrip].
  destruct (Py.mem c ["/"%char]) eqn:Hc; [|done].
  rewrite endswith_slash_cons. destruct s as [|d s]; [|exact IH].
  intros _. reflexivity.
Qed.

Lemma app_ne_nil (a b : string) : b ≠ "" → a +:+ b ≠ "".
Proof.
  intros Hb. destruct a as [|c a]; [done|].
  by change (String c a +:+ b) with (String c (a +:+ b)).
Qed.

Lemma map_ne_nil (g : ascii → ascii) (s : string) : s ≠ "" → Py.map g s ≠ "".
Proof. by destruct s. Qed.

Lemma sanitize_keeps_slash (c : ascii) :
  Ascii.eqb (if forbidden_char c then "_"%char else c) "/" = Ascii.eqb c "/".
Proof. destruct c as [[] [] [] [] [] [] [] []]; reflexivity. Qed.

(** The file name that is joined to the host: not empty, and not ending
    with a slash. *)
Lemma mapped_file_name (p : string) :
  let path := if String.eqb p "" then "/" else p in
  let path := if Py.endswith path "/" then path +:+ "index.html" else path in
  let filename := Py.lstrip ["/"%char] path in
  let filename := if String.eqb filename "" then "index.html" else filename in
  filename ≠ "" ∧ Py.endswith filename "/" = false.
Proof.
  cbv zeta.
  set (path1 := if String.eqb p "" then "/" else p).
  set (path2 := if Py.endswith path1 "/" then path1 +:+ "index.html" else path1).
  assert (Py.endswith path2 "/" = false) as H2.
  { unfold path2. destruct (Py.endswith path1 "/") eqn:He; [|done].
    by rewrite endswith_app_ne. }
  destruct (String.eqb (Py.lstrip ["/"%char] path2) "") eqn:Hl.
  - done.
  - split; [by apply String.eqb_neq|by apply endswith_lstrip].
Qed.

Lemma os_path_join_file (a b : string) :
  b ≠ "" → Py.endswith b "/" = false →
  Py.os_path_join a b ≠ "" ∧ Py.endswith (Py.os_path_join a b) "/" = false.
Proof.
  intros Hb He. unfold Py.os_path_join.
  destruct (Py.startswith b "/"); [done|].
  destruct (String.eqb a "" || Py.endswith a "/").
  - split; [by apply app_ne_nil|by rewrite endswith_app_ne].
  - assert ("/" +:+ b ≠ "") as Hsb by done.
    split; [by apply app_ne_nil|].
    rewrite endswith_app_ne by done. by rewrite (endswith_app_ne "/" b).
Qed.

(** Property X3.  Whatever the URL, the path [safe_filename_from_url] returns
    holds none of the characters backslash, colon, star, question mark, double
    quote, angle brackets and bar. *)
Theorem safe_filename_has_no_forbidden_char `{UrlLib} (url local_rel : string) :
  safe_filename_from_url url = Some local_rel →
  Urllib.all_chars (λ c, negb (forbidden_char c)) local_rel = true.
Proof.
  unfold safe_filename_from_url. intros Hs.
  apply bind_Some in Hs as (parsed & _ & Hs).
  apply (inj Some) in Hs. subst local_rel.
  destruct (String.eqb (query parsed) "").
  - apply all_chars_map, sanitized_allowed.
  - rewrite !all_chars_app, !andb_true_iff. split_and!.
    + apply all_chars_map, sanitized_allowed.
    + reflexivity.
    + apply all_chars_take, all_chars_map, fingerprint_allowed.
Qed.

Lemma safe_filename_no_forbidden_witness :
  Urllib.all_chars (λ c, negb (forbidden_char c)) "ex.com_8080/a/b_c.png_x_1_y__2" = true.
Proof.
  apply (safe_filename_has_no_forbidden_char "http://ex.com:8080/a/b:c.png?x=1&y=<2").
  reflexivity.
Defined.

(** Property X4.  Whatever the URL, the path [safe_filename_from_url] returns
    names a file: it is not empty and does not end with a slash. *)
Theorem safe_filename_names_a_file `{UrlLib} (url local_rel : string) :
  safe_filename_from_url url = Some local_rel →
  local_rel ≠ "" ∧ Py.endswith local_rel "/" = false.
Proof.
  unfold safe_filename_from_url. intros Hs.
  apply bind_Some in Hs as (parsed & _ & Hs).
  apply (inj Some) in Hs. subst local_rel.
  destruct (mapped_file_name (path parsed)) as [Hne He]. cbv zeta in Hne, He.
  destruct (os_path_join_file (Py.replace ":" "_" (netloc parsed)) _ Hne He) as [Hjn Hje].
  set (joined := Py.os_path_join _ _) in *.
  set (cleaned := Py.map _ joined).
  assert (cleaned ≠ "" ∧ Py.endswith cleaned "/" = false) as [Hcn Hce].
  { split; [by apply map_ne_nil|].
    unfold cleaned. rewrite endswith_map; [done|apply sanitize_keeps_slash]. }
  destruct (String.eqb (query parsed) ""); [done|].
  set (tail := Py.take 40 _).
  assert (Urllib.has_char "/" ("_" +:+ tail) = false) as Hno.
  { apply (all_chars_no_char (λ c, negb (forbidden_char c) && negb (Ascii.eqb c "/"))); [done|].
    change ("_" +:+ tail) with (String "_" tail). simpl.
    apply all_chars_take, all_chars_map.
    intros c. destruct c as [[] [] [] [] [] [] [] []]; reflexivity. }
  split; [by apply app_ne_nil|].
  rewrite endswith_app_ne by done. by apply no_slash_endswith.
Qed.

Lemma safe_filename_names_a_file_witness :
  "ex.com/shop/index.html_page_2" ≠ "" ∧
  Py.endswith "ex.com/shop/index.html_page_2" "/" = false.
Proof.
  apply (safe_filename_names_a_file "http://ex.com/shop/?page=2").
  reflexivity.
Defined.

(** ** The names of a run *)

Lemma zipped_name_digits (w : World) :
  Urllib.all_chars Py.is_digit (utcnow_stamp w) = true →
  zipped_name w = "stark_" +:+ utcnow_stamp w +:+ ".zip".
Proof.
  intros Hd.
  assert (Urllib.has_char "_" (utcnow_stamp w) = false) as Hno
    by (by apply (all_chars_no_char Py.is_digit)).
  unfold zipped_name.
  change ("stark_clone_" +:+ utcnow_stamp w)
    with ("stark" +:+ String "_" ("clone" +:+ String "_" (utcnow_stamp w))).
  rewrite split_app_sep by done. rewrite split_app_sep by done.
  by rewrite split_sepfree.
Qed.

(** Property X5.  The timestamp [strftime] gives consists of digits; the
    archive is then named after the timestamp of the workspace directory:
    [root.name.split('_')[-1]] recovers it. *)
Theorem zipped_name_carries_stamp (w : World) :
  Urllib.all_chars Py.is_digit (utcnow_stamp w) = true →
  make_workspace w = "/tmp/stark_clone_" +:+ utcnow_stamp w ∧
  zipped_name w = "stark_" +:+ utcnow_stamp w +:+ ".zip" ∧
  zipped_fullpath w = "/tmp/stark_" +:+ utcnow_stamp w +:+ ".zip".
Proof.
  intros Hz%zipped_name_digits.
  split_and!; [done|done|]. unfold zipped_fullpath. by rewrite Hz.
Qed.

Lemma zipped_name_witness :
  make_workspace (Examples.serving "" "") = "/tmp/stark_clone_" +:+ "20250101120000" ∧
  zipped_name (Examples.serving "" "") = "stark_" +:+ "20250101120000" +:+ ".zip" ∧
  zipped_fullpath (Examples.serving "" "") = "/tmp/stark_" +:+ "20250101120000" +:+ ".zip".
Proof.
  apply (zipped_name_carries_stamp (Examples.serving "" "")). reflexivity.
Defined.

(** ** More on the Asset Extractor *)

Lemma tag_reference_resolved `{UrlLib} (base_url : string) (doc : soup)
    (found : gset string) (i : nat) (el : element) (tag attr v : string) :
  find_asset_urls base_url doc = Some found →
  (tag, attr) ∈ [("img", "src"); ("script", "src"); ("link", "href");
                 ("source", "src"); ("video", "poster"); ("audio", "src")] →
  doc !! i = Some el → name el = tag → attrs el !! attr = Some v → v ≠ "" →
  ∃ u, urljoin base_url v = Some u ∧ u ∈ found.
Proof.
  unfold find_asset_urls. intros Hf Hpair Hel%list_elem_of_lookup_2 Hname Hattr Hv.
  apply bind_Some in Hf as (tagged & Ht & Hf).
  apply bind_Some in Hf as (srcsets & _ & Hf).
  apply bind_Some in Hf as (styles & _ & Hf).
  apply bind_Some in Hf as (sheets & _ & Hf).
  apply bind_Some in Hf as (anchors & _ & [= <-]).
  destruct (mapM_elem_of _ _ _ v Ht) as (u & Hu & Hin).
  { apply list_elem_of_bind. exists (tag, attr). split; [|done].
    apply list_elem_of_omap. exists el. split; [by apply list_elem_of_filter|].
    unfold get_truthy. rewrite Hattr. simpl.
    by apply String.eqb_neq in Hv as ->. }
  exists u. split; [done|]. apply elem_of_list_to_set.
  rewrite !elem_of_app. auto.
Qed.

(** Property X6.  The extractor collects the reference of every [img],
    [script], [link], [source], [video] and [audio] element whose [src],
    [href] or [poster] attribute (the one listed for the tag) is present and
    not empty, resolved against the base URL. *)
Theorem find_asset_urls_collects `{UrlLib} (base_url : string) (doc : soup)
    (found : gset string) (i : nat) (el : element) (tag attr v : string) :
  find_asset_urls base_url doc = Some found →
  (tag, attr) ∈ [("img", "src"); ("script", "src"); ("link", "href");
                 ("source", "src"); ("video", "poster"); ("audio", "src")] →
  doc !! i = Some el → name el = tag → attrs el !! attr = Some v → v ≠ "" →
  ∃ u, urljoin base_url v = Some u ∧ u ∈ found.
Proof. apply tag_reference_resolved. Qed.

Lemma find_asset_urls_collects_witness :
  ∃ u, urljoin "http://ex.com/" "/song.mp3" = Some u ∧
       u ∈ ({[ "http://ex.com/a.png"; "http://ex.com/song.mp3" ]} : gset string).
Proof.
  apply (find_asset_urls_collects "http://ex.com/" Cases.audio_page _ 1
           (Examples.el "audio" [("src", "/song.mp3")]) "audio" "src" "/song.mp3").
  - vm_compute. reflexivity.
  - apply (bool_decide_unpack _). vm_compute. exact I.
  - reflexivity.
  - reflexivity.
  - vm_compute. reflexivity.
  - discriminate.
Defined.

(** ** More on the Rewriter *)

Lemma mapM_lookup {A B} (f : A → option B) (l : list A) (k : list B) i x :
  mapM f l = Some k → l !! i = Some x → ∃ y, k !! i = Some y ∧ f x = Some y.
Proof.
  rewrite mapM_Some. intros Hl Hx.
  destruct (Forall2_lookup_l _ _ _ i x Hl Hx) as (y & ? & ?). by exists y.
Qed.

Lemma mapM_length_eq {A B} (f : A → option B) (l : list A) (k : list B) :
  mapM f l = Some k → length k = length l.
Proof. rewrite mapM_Some. intros Hl. symmetry. by eapply Forall2_length. Qed.

Section RewriterFacts.
Context {U : UrlLib}.
Variable web_url : string.

(** The Rewriter works element by element: what it leaves at a position is
    what the seven passes make of the element at that position. *)
Lemma rewrite_html_elementwise doc doc' :
  rewrite_html web_url doc = Some doc' →
  length doc' = length doc ∧
  ∀ i el, doc !! i = Some el →
    ∃ e1 e2 e3 e4 e5 e6 el',
      rewrite_one web_url "img" "src" el = Some e1 ∧
      rewrite_one web_url "script" "src" e1 = Some e2 ∧
      rewrite_one web_url "link" "href" e2 = Some e3 ∧
      rewrite_one web_url "source" "src" e3 = Some e4 ∧
      rewrite_one web_url "video" "poster" e4 = Some e5 ∧
      rewrite_srcset web_url e5 = Some e6 ∧ rewrite_style web_url e6 = Some el' ∧
      doc' !! i = Some el'.
Proof.
  unfold rewrite_html, rewrite_all. fold (rewrite_one web_url "img" "src").
  intros Hr.
  apply bind_Some in Hr as (d1 & H1 & Hr).
  apply bind_Some in Hr as (d2 & H2 & Hr).
  apply bind_Some in Hr as (d3 & H3 & Hr).
  apply bind_Some in Hr as (d4 & H4 & Hr).
  apply bind_Some in Hr as (d5 & H5 & Hr).
  apply bind_Some in Hr as (d6 & H6 & H7). split.
  - rewrite (mapM_length_eq _ _ _ H7), (mapM_length_eq _ _ _ H6),
      (mapM_length_eq _ _ _ H5), (mapM_length_eq _ _ _ H4),
      (mapM_length_eq _ _ _ H3), (mapM_length_eq _ _ _ H2).
    by apply mapM_length_eq in H1.
  - intros i el Hi.
    destruct (mapM_lookup _ _ _ _ _ H1 Hi) as (e1 & Hi1 & ?).
    destruct (mapM_lookup _ _ _ _ _ H2 Hi1) as (e2 & Hi2 & ?).
    destruct (mapM_lookup _ _ _ _ _ H3 Hi2) as (e3 & Hi3 & ?).
    destruct (mapM_lookup _ _ _ _ _ H4 Hi3) as (e4 & Hi4 & ?).
    destruct (mapM_lookup _ _ _ _ _ H5 Hi4) as (e5 & Hi5 & ?).
    destruct (mapM_lookup _ _ _ _ _ H6 Hi5) as (e6 & Hi6 & ?).
    destruct (mapM_lookup _ _ _ _ _ H7 Hi6) as (e7 & Hi7 & ?).
    by exists e1, e2, e3, e4, e5, e6, e7.
Qed.

Lemma alike_set_attr attr v el :
  is_Some (attrs el !! attr) → alike el (set_attr attr v el).
Proof.
  intros Hattr. split_and!; [done|done|]. simpl. by apply dom_insert_lookup_L.
Qed.

Lemma alike_trans e1 e2 e3 : alike e1 e2 → alike e2 e3 → alike e1 e3.
Proof. unfold alike. intros (-> & -> & ->) (-> & -> & ->). done. Qed.

Lemma rewrite_one_alike tag attr el el' :
  rewrite_one web_url tag attr el = Some el' → alike el el'.
Proof.
  unfold rewrite_one. destruct (decide (name el = tag)); [|by intros [= <-]].
  intros Hr%rewrite_attr_spec. unfold get_truthy in Hr.
  destruct (attrs el !! attr) as [v|] eqn:Hv; simpl in Hr; [|by subst].
  destruct (String.eqb v ""); [by subst|].
  destruct Hr as (? & ? & _ & _ & ->). apply alike_set_attr. by rewrite Hv.
Qed.

Lemma rewrite_srcset_alike el el' :
  rewrite_srcset web_url el = Some el' → alike el el'.
Proof.
  unfold rewrite_srcset. destruct (attrs el !! "srcset") as [ss|] eqn:Hss.
  - intros Hr. apply bind_Some in Hr as (parts & _ & [= <-]).
    apply alike_set_attr. by rewrite Hss.
  - by intros [= <-].
Qed.

Lemma rewrite_style_alike el el' :
  rewrite_style web_url el = Some el' → alike el el'.
Proof.
  unfold rewrite_style. destruct (attrs el !! "style") as [st|] eqn:Hst.
  - intros Hr. apply bind_Some in Hr as (new_style & _ & [= <-]).
    apply alike_set_attr. by rewrite Hst.
  - by intros [= <-].
Qed.

(** A text without [url(] has no match of the pattern: [re.sub] returns it
    as it is. *)
Lemma sub_without_url (repl : string → option string) (s : string) :
  Py.contains "url(" s = false → Re.sub Re.url_pattern repl s = Some s.
Proof.
  unfold Re.sub. induction s as [|c s IH]; [done|].
  cbn [Py.contains]. destruct (Py.startswith (String c s) "url(") eqn:Hs; [done|].
  intros Hc. cbn [Re.scan]. unfold Re.url_pattern at 1. rewrite Hs.
  cbn [foldr]. by rewrite (IH Hc).
Qed.

Lemma set_attr_same attr v el : attrs el !! attr = Some v → set_attr attr v el = el.
Proof. intros Hv. unfold set_attr. rewrite insert_id by done. by destruct el. Qed.

Lemma rewrite_style_without_url el :
  (∀ style, attrs el !! "style" = Some style → Py.contains "url(" style = false) →
  rewrite_style web_url el = Some el.
Proof.
  intros Hst. unfold rewrite_style.
  destruct (attrs el !! "style") as [st|] eqn:Hs; [|done].
  rewrite sub_without_url by auto. simpl. by rewrite set_attr_same.
Qed.

(** Property X7.  The Rewriter changes nothing but the values of attributes:
    the rewritten document has the elements of the page in the same number and
    order, each with its tag name, its text and its set of attribute names. *)
Theorem rewrite_html_keeps_structure (doc doc' : soup) :
  rewrite_html web_url doc = Some doc' →
  length doc' = length doc ∧
  ∀ i el el', doc !! i = Some el → doc' !! i = Some el' →
    name el' = name el ∧ text el' = text el ∧ dom (attrs el') = dom (attrs el).
Proof.
  intros [Hlen Hel]%rewrite_html_elementwise. split; [done|].
  intros i el el' Hi Hi'.
  destruct (Hel i el Hi) as (e1 & e2 & e3 & e4 & e5 & e6 & e7 &
    H1%rewrite_one_alike & H2%rewrite_one_alike & H3%rewrite_one_alike &
    H4%rewrite_one_alike & H5%rewrite_one_alike & H6%rewrite_srcset_alike & H7%rewrite_style_alike & Hi7).
  assert (e7 = el') as -> by congruence.
  apply (alike_trans _ e6); [|done]. apply (alike_trans _ e5); [|done].
  apply (alike_trans _ e4); [|done]. apply (alike_trans _ e3); [|done].
  apply (alike_trans _ e2); [|done]. by apply (alike_trans _ e1).
Qed.

(** Property X8.  The Rewriter leaves an element as it is when its tag is none
    of [img], [script], [link], [source] and [video], it has no [srcset], and
    its [style], if any, holds no [url(]. The [src] of an [audio] element,
    which the extractor collects, is such a case. *)
Theorem rewrite_html_leaves_others (doc doc' : soup) (i : nat) (el : element) :
  rewrite_html web_url doc = Some doc' →
  doc !! i = Some el →
  name el ∉ ["img"; "script"; "link"; "source"; "video"] →
  attrs el !! "srcset" = None →
  (∀ style, attrs el !! "style" = Some style → Py.contains "url(" style = false) →
  doc' !! i = Some el.
Proof.
  intros [_ Hel]%rewrite_html_elementwise Hi Hname Hss Hst.
  destruct (Hel i el Hi) as (e1 & e2 & e3 & e4 & e5 & e6 & e7 &
    H1 & H2 & H3 & H4 & H5 & H6 & H7 & Hi7).
  rewrite !not_elem_of_cons in Hname. destruct Hname as (N1 & N2 & N3 & N4 & N5 & _).
  unfold rewrite_one in H1, H2, H3, H4, H5.
  rewrite decide_False in H1 by done. injection H1 as <-.
  rewrite decide_False in H2 by done. injection H2 as <-.
  rewrite decide_False in H3 by done. injection H3 as <-.
  rewrite decide_False in H4 by done. injection H4 as <-.
  rewrite decide_False in H5 by done. injection H5 as <-.
  unfold rewrite_srcset in H6. rewrite Hss in H6. injection H6 as <-.
  rewrite rewrite_style_without_url in H7 by done. by injection H7 as <-.
Qed.

End RewriterFacts.

Lemma rewrite_html_keeps_structure_witness :
  length [Examples.el "img" [("src", "ex.com/a.png")];
          Examples.el "audio" [("src", "/song.mp3")]]
  = length Cases.audio_page ∧
  ∀ i el el', Cases.audio_page !! i = Some el →
    [Examples.el "img" [("src", "ex.com/a.png")];
     Examples.el "audio" [("src", "/song.mp3")]] !! i = Some el' →
    name el' = name el ∧ text el' = text el ∧ dom (attrs el') = dom (attrs el).
Proof.
  apply (rewrite_html_keeps_structure "http://ex.com/" Cases.audio_page).
  vm_compute. reflexivity.
Defined.

Lemma rewrite_html_leaves_others_witness :
  [Examples.el "img" [("src", "ex.com/a.png")];
   Examples.el "audio" [("src", "/song.mp3")]] !! 1
  = Some (Examples.el "audio" [("src", "/song.mp3")]).
Proof.
  apply (rewrite_html_leaves_others "http://ex.com/" Cases.audio_page _ 1).
  - vm_compute. reflexivity.
  - reflexivity.
  - apply (bool_decide_unpack _). vm_compute. exact I.
  - vm_compute. reflexivity.
  - intros style Hs. vm_compute in Hs. discriminate.
Defined.

(** ** The events of the stages, by kind *)

Section StageEvents.
Context {U : UrlLib} {L : HtmlLib} {P : PySet}.
Variable w : World.

Lemma fetch_html_reports web_url evs r :
  fetch_html w web_url = (evs, r) → Forall (λ e, is_report e = true) evs.
Proof.
  unfold fetch_html. destruct (get_page w) as [code body|msg].
  - destruct (is_success code); intros [= <- <-]; by repeat constructor.
  - intros [= <- <-]; by repeat constructor.
Qed.

Lemma fetch_css_events web_url links : ∀ k asset_urls evs asset_urls',
  fetch_css w web_url k links asset_urls = (evs, asset_urls') →
  evs = fetching_css <$> links.
Proof.
  induction links as [|css_url rest IH]; intros k a evs a'; simpl.
  - by intros [= <- <-].
  - destruct (fetch_css w web_url (S k) rest _) as [evs' a''] eqn:Hrest.
    intros [= <- <-]. by rewrite (IH _ _ _ _ Hrest).
Qed.

Lemma discover_spec web_url doc evs asset_urls :
  discover w web_url doc = Some (evs, asset_urls) →
  ∃ found links css_found,
    find_asset_urls web_url doc = Some found ∧
    css_links web_url doc = Some links ∧
    fetch_css w web_url 0 links found = (evs, css_found) ∧
    evs = fetching_css <$> links ∧
    asset_urls = (css_found ∪ list_to_set links) ∖ {[web_url]}.
Proof.
  unfold discover. intros Hd.
  apply bind_Some in Hd as (found & Hf & Hd).
  apply bind_Some in Hd as (links & Hl & Hd).
  destruct (fetch_css w web_url 0 links found) as [evs' a] eqn:Hcss.
  injection Hd as <- <-. exists found, links, a.
  split_and!; [done..| |done]. by eapply fetch_css_events.
Qed.

Lemma discover_reports web_url doc evs asset_urls :
  discover w web_url doc = Some (evs, asset_urls) →
  Forall (λ e, is_report e = true) evs.
Proof.
  intros (found & links & a & _ & _ & _ & -> & _)%discover_spec.
  apply Forall_fmap. by apply Forall_true.
Qed.

Lemma rewrite_stage_reports web_url t evs t' :
  rewrite_stage w web_url t = (evs, t') → Forall (λ e, is_report e = true) evs.
Proof.
  unfold rewrite_stage. intros Hr.
  repeat case_match; simplify_eq; by repeat constructor.
Qed.

Lemma info_stage_reports web_url st t evs t' info :
  info_stage w web_url st t = (evs, t', info) → Forall (λ e, is_report e = true) evs.
Proof.
  unfold info_stage. intros Hr.
  repeat case_match; simplify_eq; by repeat constructor.
Qed.

(** The manifest, when it is written, is the record [info] of the source. *)
Lemma info_stage_manifest web_url st t evs t' i :
  info_stage w web_url st t = (evs, t', Some i) →
  i = {| cloned_from := web_url;
         timestamp_utc := utcnow_iso w +:+ "Z";
         total_files_downloaded := length (downloaded_files st) + 1;
         downloaded_bytes := bytes_downloaded st;
         zip_name := zipped_name w |}.
Proof.
  unfold info_stage. intros Hr. by repeat case_match; simplify_eq.
Qed.

Lemma zip_stage_reports t evs zf :
  zip_stage w t = (evs, zf) → Forall (λ e, is_report e = true) evs.
Proof.
  unfold zip_stage. intros Hr.
  repeat case_match; simplify_eq; by repeat constructor.
Qed.

(** *** The download stage *)

Lemma download_and_save_saved root url st ev st' :
  download_and_save w root url st = Some (ev, st') →
  saved_as w root ev ∧
  length (downloaded_files st')
  = length (downloaded_files st) + (if is_asset ev then 1 else 0).
Proof.
  unfold download_and_save. destruct (sem st) as [|permits]; [done|].
  intros Hd. apply (inj Some) in Hd.
  destruct (get_asset w url) as [code content|msg] eqn:Hget;
    [|by simplify_eq/=; split; [|lia]].
  destruct (is_success code) eqn:Hcode; [|by simplify_eq/=; split; [|lia]].
  destruct (safe_filename_from_url url) as [local_rel|] eqn:Hsafe;
    [|by simplify_eq/=; split; [|lia]].
  destruct (io_ok w (SaveAsset url)); [|by simplify_eq/=; split; [|lia]].
  simpl in Hd.
  destruct (Fs.write_file local_rel (Data content) (ws st)) as [ws' [|]];
    [|by simplify_eq/=; split; [|lia]].
  simplify_eq/=. split.
  - by exists code, content, local_rel.
  - rewrite length_app. simpl. lia.
Qed.

Lemma gather_saved root batch : ∀ st evs st',
  gather w root batch st = Some (evs, st') →
  Forall (saved_as w root) evs ∧
  length (downloaded_files st')
  = length (downloaded_files st) + length (filter (λ e, is_asset e = true) evs).
Proof.
  induction batch as [|url rest IH]; intros st evs st'; simpl.
  - intros [= <- <-]. split; [constructor|simpl; lia].
  - intros Hg. apply bind_Some in Hg as ([ev st1] & Hd & Hg).
    apply bind_Some in Hg as ([evs' st2] & Hr & Hg). simplify_eq/=.
    apply download_and_save_saved in Hd as [Hev Hn1].
    apply IH in Hr as [Hevs Hn2]. split; [by constructor|].
    rewrite filter_cons. destruct (is_asset ev) eqn:Ha.
    + rewrite decide_True by done. simpl. lia.
    + rewrite decide_False by (by intros ?). lia.
Qed.

Lemma emit_progress_cases k st prog st' :
  emit_progress w k st = (prog, st') →
  (prog = [] ∨ ∃ speed, prog = [Progress (bytes_downloaded st) speed]) ∧
  bytes_downloaded st' = bytes_downloaded st ∧
  downloaded_files st' = downloaded_files st.
Proof.
  unfold emit_progress. destruct (500 <=? _)%Z; intros [= <- <-]; simpl; eauto.
Qed.

Lemma run_batches_saved root batches : ∀ k st evs st' fin,
  run_batches w root batches k st = (evs, st', fin) →
  Forall (saved_as w root) evs ∧
  length (downloaded_files st')
  = length (downloaded_files st) + length (filter (λ e, is_asset e = true) evs).
Proof.
  induction batches as [|batch rest IH]; intros k st evs st' fin; simpl.
  - intros [= <- <- <-]. split; [constructor|simpl; lia].
  - destruct (gather w root batch st) as [[results st1]|] eqn:Hg;
      [|intros [= <- <- <-]; split; [constructor|simpl; lia]].
    destruct (emit_progress w k st1) as [prog st2] eqn:Hp.
    destruct (run_batches w root rest (S k) st2) as [[evs' st3] fin'] eqn:Hr.
    intros [= <- <- <-].
    apply gather_saved in Hg as [Hres Hn1].
    apply emit_progress_cases in Hp as (Hprog & _ & Hn2).
    apply IH in Hr as [Hevs Hn3]. rewrite Hn2 in Hn3.
    rewrite !Forall_app, !filter_app, !length_app.
    destruct Hprog as [->|[speed ->]]; (split; [split_and!; by repeat constructor|]).
    + simpl. lia.
    + rewrite filter_cons, decide_False by (by intros ?). simpl. lia.
Qed.

(** A [progress] event carries the bytes downloaded up to it. *)
Lemma run_batches_progress root batches : ∀ k st evs st' fin,
  run_batches w root batches k st = (evs, st', fin) →
  ∀ j b speed, evs !! j = Some (Progress b speed) →
    b = bytes_downloaded st + sum_list_with asset_size (take j evs).
Proof.
  induction batches as [|batch rest IH]; intros k st evs st' fin; simpl.
  - intros [= <- <- <-] j b speed Hj. by rewrite lookup_nil in Hj.
  - destruct (gather w root batch st) as [[results st1]|] eqn:Hg;
      [|intros [= <- <- <-] j b speed Hj; by rewrite lookup_nil in Hj].
    destruct (emit_progress w k st1) as [prog st2] eqn:Hp.
    destruct (run_batches w root rest (S k) st2) as [[evs' st3] fin'] eqn:Hr.
    intros [= <- <- <-] j b speed Hj.
    apply gather_spec in Hg as (Hdl & _ & _ & _ & Hbytes & _).
    apply emit_progress_cases in Hp as (Hprog & Hb2 & _).
    destruct (decide (j < length results)) as [Hlt|Hge].
    { rewrite lookup_app_l in Hj by done.
      by apply (Forall_lookup_1 _ _ _ _ Hdl) in Hj. }
    rewrite lookup_app_r in Hj by lia.
    rewrite take_app_ge, sum_list_with_app by lia.
    destruct Hprog as [->|[speed' ->]].
    + simpl in Hj. change ([] ++ evs') with evs'.
      rewrite (IH _ _ _ _ _ Hr _ _ _ Hj). lia.
    + destruct (j - length results) as [|j'] eqn:Hj'; simpl in Hj.
      * injection Hj as <- <-. simpl. lia.
      * simpl. rewrite (IH _ _ _ _ _ Hr _ _ _ Hj). lia.
Qed.

(** The downloads reported on are among those asked for. *)
Lemma run_batches_urls root batches : ∀ k st evs st' fin,
  run_batches w root batches k st = (evs, st', fin) →
  omap download_url evs ⊆ concat batches.
Proof.
  induction batches as [|batch rest IH]; intros k st evs st' fin; simpl.
  - by intros [= <- <- <-].
  - destruct (gather w root batch st) as [[results st1]|] eqn:Hg;
      [|intros [= <- <- <-]; apply list_subseteq_nil].
    destruct (emit_progress w k st1) as [prog st2] eqn:Hp.
    destruct (run_batches w root rest (S k) st2) as [[evs' st3] fin'] eqn:Hr.
    intros [= <- <- <-].
    apply gather_spec in Hg as (_ & Hu & _).
    apply emit_progress_spec in Hp as (Hprog & _).
    apply IH in Hr. rewrite !omap_app, Hu.
    rewrite (no_download_urls prog).
    + change ([] ++ ?l) with l. intros x [?|?]%elem_of_app; apply elem_of_app; auto.
    + eapply Forall_impl; [exact Hprog|]. intros e He.
      by destruct (progress_event_facts e He) as (_ & ? & _).
Qed.

End StageEvents.

(** ** The layout of a trace *)

Lemma report_sizes (l : list event) :
  Forall (λ e, is_report e = true ∨ is_meta e = true) l →
  sum_list_with asset_size l = 0.
Proof.
  intros Hl. apply no_asset_sizes. eapply Forall_impl; [exact Hl|].
  by intros [] [?|?].
Qed.

Lemma no_asset_filter (l : list event) :
  Forall (λ e, is_asset e = false) l → filter (λ e, is_asset e = true) l = [].
Proof.
  induction 1 as [|e l He _ IH]; [done|].
  rewrite filter_cons, decide_False; [done|congruence].
Qed.

Section Layout.
Context {U : UrlLib} {L : HtmlLib} {P : PySet}.
Variable w : World.
Variable web : string.

(** The events of a run: reports and [meta], then the download stage, then
    reports and [done]. *)
Lemma trace_layout :
  ∃ pre mid post tasks st0 st fin,
    trace (sse_generator w web) = pre ++ mid ++ post ∧
    Forall (λ e, is_report e = true ∨ is_meta e = true) pre ∧
    Forall (λ e, is_report e = true ∨ is_done e = true) post ∧
    run_tasks_and_emit w (make_workspace w) tasks st0 = (mid, st, fin) ∧
    bytes_downloaded st0 = 0 ∧ downloaded_files st0 = [] ∧
    (∀ u, u ∈ tasks → ∃ s, discovered (sse_generator w web) = Some s ∧ u ∈ s) ∧
    (∀ i, manifest (sse_generator w web) = Some i →
          i = {| cloned_from := ensure_scheme web;
                 timestamp_utc := utcnow_iso w +:+ "Z";
                 total_files_downloaded := length (downloaded_files st) + 1;
                 downloaded_bytes := bytes_downloaded st;
                 zip_name := zipped_name w |}).
Proof.
  pose (idle := {| sem := CONCURRENT_DOWNLOADS; ws := Dir [];
                   bytes_downloaded := 0; bytes_since_last := 0;
                   last_update := 0%Z; downloaded_files := [] |}).
  run_cases w web.
  all: try (apply fetch_html_reports in Hfetch).
  all: try (apply discover_reports in Hdisc).
  all: try (apply rewrite_stage_reports in Hrw).
  all: try (pose proof (info_stage_reports _ _ _ _ _ _ _ Hinfo) as Hinfo').
  all: try (apply zip_stage_reports in Hzip).
  all: assert (∀ l, Forall (λ e, is_report e = true) l →
                    Forall (λ e, is_report e = true ∨ is_meta e = true) l) as Hl
         by (intros l Hl; eapply Forall_impl; [exact Hl|]; auto).
  all: assert (∀ l, Forall (λ e, is_report e = true) l →
                    Forall (λ e, is_report e = true ∨ is_done e = true) l) as Hr
         by (intros l Hr; eapply Forall_impl; [exact Hr|]; auto).
  - eexists (evs1 ++ evs2 ++ [Meta _]), evs4, (evs5 ++ evs6 ++ evs7 ++ [Done _ _ _]),
      _, _, st, true.
    split_and!; [reflexivity| | |exact Hrun|done|done| |].
    + rewrite !Forall_app. split_and!; auto; by repeat constructor.
    + rewrite !Forall_app. split_and!; auto; by repeat constructor.
    + intros u Hu. exists asset_urls. split; [done|].
      by rewrite (list_of_set_perm asset_urls), elem_of_elements in Hu.
    + intros i ->. by apply info_stage_manifest in Hinfo.
  - eexists (evs1 ++ evs2 ++ [Meta _]), evs4, (evs5 ++ evs6 ++ evs7), _, _, st, true.
    split_and!; [reflexivity| | |exact Hrun|done|done| |].
    + rewrite !Forall_app. split_and!; auto; by repeat constructor.
    + rewrite !Forall_app. split_and!; auto.
    + intros u Hu. exists asset_urls. split; [done|].
      by rewrite (list_of_set_perm asset_urls), elem_of_elements in Hu.
    + intros i ->. by apply info_stage_manifest in Hinfo.
  - eexists (evs1 ++ evs2 ++ [Meta _]), evs4, [], _, _, st, false.
    split_and!; [by rewrite app_nil_r| |done|exact Hrun|done|done| |done].
    + rewrite !Forall_app. split_and!; auto; by repeat constructor.
    + intros u Hu. exists asset_urls. split; [done|].
      by rewrite (list_of_set_perm asset_urls), elem_of_elements in Hu.
  - eexists (evs1 ++ evs2 ++ [Meta _]), [], [], [], idle, idle, true.
    split_and!; [by rewrite !app_nil_r| |done|done|done|done| |done].
    + rewrite !Forall_app. split_and!; auto; by repeat constructor.
    + by intros u ?%elem_of_nil.
  - eexists evs1, [], [], [], idle, idle, true.
    split_and!; [by rewrite !app_nil_r|auto|done|done|done|done| |done].
    by intros u ?%elem_of_nil.
  - eexists evs1, [], [], [], idle, idle, true.
    split_and!; [by rewrite !app_nil_r|auto|done|done|done|done| |done].
    by intros u ?%elem_of_nil.
Qed.

(** Property X9.  Every [asset] event of a run reports a download that
    succeeded: its URL is one of the discovered URLs, the server answered the
    request for it with a 2xx status, [size] is the length of the body
    received, and [saved] is the path of the workspace root extended by
    [safe_filename_from_url(url)]. *)
Theorem asset_event_reports_saved_file (i : nat) (url saved : string) (size : nat) :
  trace (sse_generator w web) !! i = Some (Asset url saved size) →
  (∃ s, discovered (sse_generator w web) = Some s ∧ url ∈ s) ∧
  ∃ code content local_rel,
    get_asset w url = Response code content ∧ is_success code = true ∧
    size = String.length content ∧
    safe_filename_from_url url = Some local_rel ∧
    saved = Fs.path_str (make_workspace w) local_rel.
Proof.
  destruct trace_layout as (pre & mid & post & tasks & st0 & st & fin &
    -> & Hpre & Hpost & Hrun & _ & _ & Htasks & _).
  intros Hi%list_elem_of_lookup_2.
  apply elem_of_app in Hi as [Hi|Hi].
  { rewrite Forall_forall in Hpre. by destruct (Hpre _ Hi). }
  apply elem_of_app in Hi as [Hi|Hi].
  2: { rewrite Forall_forall in Hpost. by destruct (Hpost _ Hi). }
  split.
  - apply Htasks. pose proof (run_batches_urls _ _ _ _ _ _ _ _ Hrun) as Hu.
    rewrite concat_batches_of in Hu. apply Hu.
    apply list_elem_of_omap. by exists (Asset url saved size).
  - apply run_batches_saved in Hrun as [Hsaved _].
    rewrite Forall_forall in Hsaved. exact (Hsaved _ Hi).
Qed.

(** Property X10.  Every [progress] event of a run carries as [bytes_total]
    the sum of the sizes of the [asset] events sent before it. *)
Theorem progress_reports_bytes_so_far (i b speed : nat) :
  trace (sse_generator w web) !! i = Some (Progress b speed) →
  b = sum_list_with asset_size (take i (trace (sse_generator w web))).
Proof.
  destruct trace_layout as (pre & mid & post & tasks & st0 & st & fin &
    -> & Hpre & Hpost & Hrun & Hb0 & _).
  intros Hi.
  destruct (decide (i < length pre)) as [Hlt|Hge].
  { rewrite lookup_app_l in Hi by done.
    by destruct (Forall_lookup_1 _ _ _ _ Hpre Hi). }
  rewrite lookup_app_r in Hi by lia.
  rewrite take_app_ge, sum_list_with_app, (report_sizes pre) by (done || lia).
  destruct (decide (i - length pre < length mid)) as [Hlt|Hge'].
  2: { rewrite lookup_app_r in Hi by lia.
       by destruct (Forall_lookup_1 _ _ _ _ Hpost Hi). }
  rewrite lookup_app_l in Hi by done.
  rewrite take_app_le by lia.
  rewrite (run_batches_progress _ _ _ _ _ _ _ _ Hrun _ _ _ Hi). lia.
Qed.

(** Property X11.  The manifest of a run names the URL with its scheme as
    [cloned_from] and the archive as [zip_name], and counts as
    [total_files_downloaded] the [asset] events of the run and the page. *)
Theorem manifest_counts_files (i : Info) :
  manifest (sse_generator w web) = Some i →
  cloned_from i = ensure_scheme web ∧
  zip_name i = zipped_name w ∧
  timestamp_utc i = utcnow_iso w +:+ "Z" ∧
  total_files_downloaded i
  = length (filter (λ e, is_asset e = true) (trace (sse_generator w web))) + 1.
Proof.
  destruct trace_layout as (pre & mid & post & tasks & st0 & st & fin &
    -> & Hpre & Hpost & Hrun & _ & Hf0 & _ & Hinfo).
  intros ->%Hinfo. split_and!; [done..|]. cbn [total_files_downloaded].
  apply run_batches_saved in Hrun as [_ ->]. rewrite Hf0.
  rewrite !filter_app, !length_app.
  rewrite (no_asset_filter pre), (no_asset_filter post); [simpl; lia| |].
  - eapply Forall_impl; [exact Hpost|]. by intros [] [?|?].
  - eapply Forall_impl; [exact Hpre|]. by intros [] [?|?].
Qed.

End Layout.

Lemma asset_event_witness :
  (∃ s, discovered Examples.scenario_run = Some s ∧ "http://ex.com/a.png" ∈ s) ∧
  ∃ code content local_rel,
    get_asset (Examples.losing Examples.scenario_html "http://ex.com/b.png")
      "http://ex.com/a.png" = Response code content ∧
    is_success code = true ∧
    4 = String.length content ∧
    safe_filename_from_url "http://ex.com/a.png" = Some local_rel ∧
    "/tmp/stark_clone_20250101120000/ex.com/a.png"
    = Fs.path_str (make_workspace
                     (Examples.losing Examples.scenario_html "http://ex.com/b.png"))
        local_rel.
Proof.
  apply (asset_event_reports_saved_file (L := Examples.ExampleHtml)
           (Examples.losing Examples.scenario_html "http://ex.com/b.png") "ex.com/" 3).
  vm_compute. reflexivity.
Defined.

Lemma progress_bytes_witness :
  4 = sum_list_with asset_size (take 5 (trace Examples.scenario_run)).
Proof.
  apply (progress_reports_bytes_so_far (L := Examples.ExampleHtml)
           (Examples.losing Examples.scenario_html "http://ex.com/b.png") "ex.com/" 5 4 4).
  vm_compute. reflexivity.
Defined.

Lemma manifest_counts_files_witness :
  "http://ex.com/" = ensure_scheme "ex.com/" ∧
  "stark_20250101120000.zip"
  = zipped_name (Examples.losing Examples.scenario_html "http://ex.com/b.png") ∧
  "2025-01-01T12:00:05Z" = "2025-01-01T12:00:05" +:+ "Z" ∧
  2 = length (filter (λ e, is_asset e = true) (trace Examples.scenario_run)) + 1.
Proof.
  apply (manifest_counts_files (L := Examples.ExampleHtml)
           (Examples.losing Examples.scenario_html "http://ex.com/b.png") "ex.com/"
           {| cloned_from := "http://ex.com/";
              timestamp_utc := "2025-01-01T12:00:05Z";
              total_files_downloaded := 2;
              downloaded_bytes := 4;
              zip_name := "stark_20250101120000.zip" |}).
  vm_compute. reflexivity.
Defined.

(** ** How a run goes, by what it meets *)

Lemma download_events_count (l : list event) :
  length (filter (λ e, is_download_event e = true) l) = length (omap download_url l).
Proof.
  induction l as [|e l IH]; [done|].
  rewrite filter_cons. destruct (is_download_event e) eqn:He.
  - rewrite decide_True by done. destruct e; try done; simpl; by rewrite IH.
  - rewrite decide_False by (by intros ?). by destruct e.
Qed.

Section Courses.
Context {U : UrlLib} {L : HtmlLib} {P : PySet}.
Variable w : World.
Variable web : string.

Lemma fetch_html_success web_url evs html :
  fetch_html w web_url = (evs, Some html) →
  evs = [Status "fetching_html"; Status "fetched_html"] ∧
  ∃ code, get_page w = Response code html ∧ is_success code = true.
Proof.
  unfold fetch_html. destruct (get_page w) as [code body|msg]; [|done].
  destruct (is_success code) eqn:Hc; [|done]. intros [= <- <-]. eauto.
Qed.

(** Property X12.  A run that discovers at most [CONCURRENT_DOWNLOADS] URLs
    and can write the page and the archive completes: its last event is [done]
    with the path and the name of the archive, whatever happens to the single
    downloads, to the rewriting and to the manifest. *)
Theorem small_run_completes (s : gset string) :
  discovered (sse_generator w web) = Some s →
  size s ≤ CONCURRENT_DOWNLOADS →
  io_ok w WritePage = true →
  io_ok w WriteZip = true →
  outcome_of (sse_generator w web) = Completed ∧
  is_Some (archive (sse_generator w web)) ∧
  ∃ pre,
    trace (sse_generator w web)
    = pre ++ [Done (zipped_fullpath w) (zipped_name w)
                (Z.to_nat ((time_end w - time_start w) / 1000))].
Proof.
  pose proof (workspace_wf w web) as Hwf. revert Hwf.
  run_cases w web; try done.
  all: intros Hwf [= ->] Hsize Hio Hzipok; try congruence.
  - split_and!; [done|by eexists|]. rewrite !app_assoc. by eexists.
  - unfold zip_stage in Hzip. rewrite Hzipok in Hzip.
    by rewrite (zip_entries_files w t6 Hwf) in Hzip.
  - match type of Hrun with
    | run_tasks_and_emit _ ?root ?tasks ?st0 = _ =>
        destruct (run_tasks_within_limit w root tasks st0) as (evs & st' & Hr & _);
          [by rewrite list_of_set_length|]
    end.
    congruence.
Qed.

Lemma blocked_without_manifest :
  outcome_of (sse_generator w web) = Blocked →
  manifest (sse_generator w web) = None ∧
  Forall (λ e, is_done e = false) (trace (sse_generator w web)).
Proof.
  intros Hb. split.
  - revert Hb. by run_cases w web.
  - destruct (done_is_last w web) as [(Hc & _)|(_ & _ & Hnd)]; [congruence|done].
Qed.

(** Property X13.  A run that discovers more than [CONCURRENT_DOWNLOADS] URLs
    never ends: it reports on [CONCURRENT_DOWNLOADS] of them and then waits
    for ever, without [done], manifest or archive. *)
Theorem large_run_blocks (s : gset string) :
  discovered (sse_generator w web) = Some s →
  CONCURRENT_DOWNLOADS < size s →
  io_ok w WritePage = true →
  outcome_of (sse_generator w web) = Blocked ∧
  length (filter (λ e, is_download_event e = true) (trace (sse_generator w web)))
  = CONCURRENT_DOWNLOADS ∧
  Forall (λ e, is_done e = false) (trace (sse_generator w web)) ∧
  manifest (sse_generator w web) = None ∧
  archive (sse_generator w web) = None.
Proof.
  intros Hd Hsize Hio.
  destruct (above_limit_blocked w web s Hd Hsize Hio) as (Hb & Hu & Ha).
  destruct (blocked_without_manifest Hb) as [Hm Hnd].
  split_and!; [done| |done..].
  rewrite download_events_count, Hu, length_take, list_of_set_length. lia.
Qed.

(** Property X14.  When the page cannot be written to the workspace, the
    exception leaves the generator: the stream stops after [meta], without any
    [error] event, and nothing is downloaded or packaged. *)
Theorem page_write_failure_crashes (s : gset string) :
  discovered (sse_generator w web) = Some s →
  io_ok w WritePage = false →
  outcome_of (sse_generator w web) = Crashed ∧
  (∃ pre, trace (sse_generator w web) = pre ++ [Meta (size s + 1)] ∧
          Forall (λ e, is_error e = false) pre) ∧
  workspace (sse_generator w web) = Dir [] ∧
  manifest (sse_generator w web) = None ∧
  archive (sse_generator w web) = None.
Proof.
  run_cases w web; try done.
  all: intros [= ->] Hio; try congruence.
  split_and!; [done| |done..].
  exists (evs1 ++ evs2). split; [by rewrite app_assoc|].
  apply fetch_html_success in Hfetch as [-> _].
  apply discover_spec in Hdisc as (? & links & ? & _ & _ & _ & -> & _).
  rewrite Forall_app. split; [by repeat constructor|].
  apply Forall_fmap. by apply Forall_true.
Qed.

(** Property X15.  A reference in the page that [urljoin] rejects ends the run
    with the exception: the stream stops after [fetched_html], without [meta]
    and without any [error] event. *)
Theorem unresolvable_reference_crashes (code : nat) (html : string) (i : nat)
    (el : element) (tag attr v : string) :
  get_page w = Response code html →
  is_success code = true →
  (tag, attr) ∈ [("img", "src"); ("script", "src"); ("link", "href");
                 ("source", "src"); ("video", "poster"); ("audio", "src")] →
  BeautifulSoup html !! i = Some el →
  name el = tag → attrs el !! attr = Some v → v ≠ "" →
  urljoin (ensure_scheme web) v = None →
  outcome_of (sse_generator w web) = Crashed ∧
  trace (sse_generator w web) = [Status "fetching_html"; Status "fetched_html"] ∧
  discovered (sse_generator w web) = None.
Proof.
  intros Hpage Hcode Hpair Hel Hname Hattr Hv Hjoin.
  assert (discover w (ensure_scheme web) (BeautifulSoup html) = None) as Hdisc.
  { unfold discover.
    destruct (find_asset_urls (ensure_scheme web) (BeautifulSoup html))
      as [found|] eqn:Hfind; [|done].
    destruct (tag_reference_resolved _ _ _ _ _ _ _ _ Hfind Hpair Hel Hname Hattr Hv)
      as (u & Hu & _). congruence. }
  unfold sse_generator, fetch_html. cbv zeta. by rewrite Hpage, Hcode, Hdisc.
Qed.

(** Property X16.  A run that gets as far as [meta] opens its stream with
    [fetching_html] and [fetched_html], then one [fetching_css] event for each
    stylesheet link of the page, in the order of the page and whatever the
    answers to these requests, then [meta] with the number of discovered URLs
    plus one. *)
Theorem stream_opening (s : gset string) (code : nat) (body : string)
    (links : list string) :
  discovered (sse_generator w web) = Some s →
  get_page w = Response code body →
  css_links (ensure_scheme web) (BeautifulSoup body) = Some links →
  ∃ rest,
    trace (sse_generator w web)
    = [Status "fetching_html"; Status "fetched_html"]
      ++ (fetching_css <$> links) ++ Meta (size s + 1) :: rest.
Proof.
  intros Hd Hpage Hlinks. revert Hd.
  run_cases w web; try done.
  all: intros [= ->].
  all: apply fetch_html_success in Hfetch as (-> & code' & Hpage' & _).
  all: assert (html = body) as -> by congruence.
  all: apply discover_spec in Hdisc as (? & links' & ? & _ & Hl' & _ & -> & _).
  all: assert (links' = links) as -> by congruence.
  all: rewrite <-?app_assoc; cbn [app]; by eexists.
Qed.

Lemma fetch_css_only web_url links : ∀ k asset_urls evs asset_urls' x,
  fetch_css w web_url k links asset_urls = (evs, asset_urls') →
  x ∈ asset_urls' →
  x ∈ asset_urls ∨
  ∃ i css_url text found,
    links !! i = Some css_url ∧
    get_css w (k + i) css_url = Response 200 text ∧
    extract_css_urls_from_text web_url text = Some found ∧ x ∈ found.
Proof.
  induction links as [|css_url rest IH]; intros k a evs a' x; simpl.
  - intros [= <- <-]. by left.
  - destruct (fetch_css w web_url (S k) rest _) as [evs' a''] eqn:Hrest.
    intros [= <- <-] Hx.
    destruct (IH _ _ _ _ _ Hrest Hx) as [Hin|(i & u & text & found & Hi & Hget & Hex & Hxf)].
    + destruct (get_css w k css_url) as [code text|] eqn:Hget; [|by left].
      destruct (Nat.eqb code 200) eqn:Hcode; [|by left].
      apply Nat.eqb_eq in Hcode as ->.
      destruct (extract_css_urls_from_text web_url text) as [found|] eqn:Hex; [|by left].
      apply elem_of_union in Hin as [?|?]; [by left|right].
      exists 0, css_url, text, found. by rewrite Nat.add_0_r.
    + right. exists (S i), u, text, found. split_and!; [done| |done..].
      by replace (k + S i) with (S k + i) by lia.
Qed.

(** Property X17.  The URLs a run discovers are exactly the references of the
    page, the stylesheet links of the page and the references of the
    stylesheets answered with status 200, the URL of the page itself left out. *)
Theorem discovered_set_spec (s found : gset string) (code : nat) (html : string)
    (links : list string) (u : string) :
  discovered (sse_generator w web) = Some s →
  get_page w = Response code html →
  find_asset_urls (ensure_scheme web) (BeautifulSoup html) = Some found →
  css_links (ensure_scheme web) (BeautifulSoup html) = Some links →
  u ∈ s ↔
  u ≠ ensure_scheme web ∧
  (u ∈ found ∨ u ∈ links ∨
   ∃ k css_url text css_found,
     links !! k = Some css_url ∧
     get_css w k css_url = Response 200 text ∧
     extract_css_urls_from_text (ensure_scheme web) text = Some css_found ∧
     u ∈ css_found).
Proof.
  intros Hd Hpage Hfind Hlinks.
  apply discovered_spec in Hd as (code' & html' & evs & Hpage' & _ & Hd).
  assert (html' = html) as -> by congruence.
  apply discover_spec in Hd as (found' & links' & a & Hf' & Hl' & Hcss & _ & ->).
  assert (found' = found) as -> by congruence.
  assert (links' = links) as -> by congruence.
  rewrite elem_of_difference, elem_of_union, elem_of_singleton, elem_of_list_to_set.
  split.
  - intros [[Hin|Hin] Hne]; (split; [done|]); [|by auto].
    destruct (fetch_css_only _ _ _ _ _ _ _ Hcss Hin) as [?|(k & ? & ? & ? & ? & ? & ? & ?)];
      [by left|].
    right; right. by eexists k, _, _, _.
  - intros [Hne [Hin|[Hin|(k & css_url & text & css_found & Hk & Hget & Hex & Hin)]]];
      (split; [|done]).
    + left. by apply (fetch_css_mono _ _ _ _ _ _ _ Hcss).
    + by right.
    + left. by apply (fetch_css_receives _ _ _ _ _ _ _ _ _ _ _ Hcss Hk Hget Hex).
Qed.

(** Property X18.  When the request for the root page raises or is answered
    with a status outside 2xx, the stream is [fetching_html] followed by one
    [error] event that starts with [failed_fetch_html: ], and the run gives
    up: nothing is discovered, written or packaged. *)
Theorem root_page_failure_aborts :
  (∀ code body, get_page w = Response code body → is_success code = false) →
  (∃ m, trace (sse_generator w web)
        = [Status "fetching_html"; Error ("failed_fetch_html: " +:+ m)]) ∧
  outcome_of (sse_generator w web) = Aborted ∧
  discovered (sse_generator w web) = None ∧
  workspace (sse_generator w web) = Dir [] ∧
  manifest (sse_generator w web) = None ∧
  archive (sse_generator w web) = None.
Proof.
  intros Hfail. unfold sse_generator, fetch_html. cbv zeta.
  destruct (get_page w) as [code body|msg] eqn:Hpage.
  - rewrite (Hfail code body eq_refl). split_and!; [by eexists|done..].
  - split_and!; [by eexists|done..].
Qed.

Lemma done_event_fields :
  Forall (λ e, is_done e = true →
               e = Done (zipped_fullpath w) (zipped_name w)
                     (Z.to_nat ((time_end w - time_start w) / 1000)))
    (trace (sse_generator w web)).
Proof.
  assert (∀ l, Forall (λ e, is_done e = false) l →
               Forall (λ e, is_done e = true →
                 e = Done (zipped_fullpath w) (zipped_name w)
                       (Z.to_nat ((time_end w - time_start w) / 1000))) l) as Hnd.
  { intros l Hl. eapply Forall_impl; [exact Hl|]. intros e He. by rewrite He. }
  run_cases w web.
  all: try (apply fetch_html_quiet, quiet_not_done in Hfetch).
  all: try (apply discover_quiet, quiet_not_done in Hdisc).
  all: try (apply run_batches_spec in Hrun as (_ & Hrun & _);
            assert (Forall (λ e, is_done e = false) evs4) as Hrun'
              by (eapply Forall_impl; [exact Hrun|]; by intros e (_ & ? & _))).
  all: try (apply rewrite_stage_events in Hrw as (e5 & -> & (_ & _ & He5 & _))).
  all: try (apply info_stage_events, closing_not_done in Hinfo).
  all: try (apply zip_stage_events, closing_not_done in Hzip).
  all: rewrite ?Forall_app; repeat split.
  all: try (apply Hnd; try done; by repeat constructor).
  constructor; [by intros _|constructor].
Qed.

Lemma has_char_app (c : ascii) (a b : string) :
  Urllib.has_char c (a +:+ b) = Urllib.has_char c a || Urllib.has_char c b.
Proof.
  induction a as [|d a IH]; [done|].
  change (String d a +:+ b) with (String d (a +:+ b)). simpl.
  by rewrite IH, orb_assoc.
Qed.

(** Property X19.  The [zip_name] of a [done] event, given to [download_zip],
    leads to the archive of the run: the path the endpoint looks up is the
    [zip_path] of the event. *)
Theorem done_names_the_download (path_exists : string → bool) (i : nat)
    (zip_path zip_nm : string) (elapsed : nat) :
  trace (sse_generator w web) !! i = Some (Done zip_path zip_nm elapsed) →
  Urllib.all_chars Py.is_digit (utcnow_stamp w) = true →
  path_exists zip_path = true →
  download_zip path_exists zip_nm = FileResponse zip_path zip_nm.
Proof.
  intros Hi Hdigits Hexists.
  pose proof (Forall_lookup_1 _ _ _ _ done_event_fields Hi eq_refl) as Hd.
  injection Hd as -> -> _.
  assert (Fs.path_str TMP_ROOT (zipped_name w) = zipped_fullpath w) as Hpath.
  { unfold Fs.path_str, zipped_fullpath. do 2 f_equal.
    unfold Fs.components. rewrite zipped_name_digits by done.
    rewrite split_sepfree.
    - rewrite filter_cons, decide_True; [done|]. by split.
    - rewrite !has_char_app.
      by rewrite (all_chars_no_char Py.is_digit "/" _ eq_refl Hdigits). }
  unfold download_zip. cbv zeta. by rewrite Hpath, Hexists.
Qed.

End Courses.

Lemma small_run_completes_witness :
  outcome_of Examples.scenario_run = Completed ∧
  is_Some (archive Examples.scenario_run) ∧
  ∃ pre,
    trace Examples.scenario_run
    = pre ++ [Done (zipped_fullpath (Examples.losing Examples.scenario_html "http://ex.com/b.png"))
                (zipped_name (Examples.losing Examples.scenario_html "http://ex.com/b.png"))
                (Z.to_nat ((5000 - 0) / 1000))].
Proof.
  apply (small_run_completes (L := Examples.ExampleHtml)
           (Examples.losing Examples.scenario_html "http://ex.com/b.png") "ex.com/"
           {[ "http://ex.com/a.png"; "http://ex.com/b.png" ]}).
  - vm_compute. reflexivity.
  - vm_compute. lia.
  - reflexivity.
  - reflexivity.
Defined.

Lemma large_run_blocks_witness :
  outcome_of Examples.nine_run = Blocked ∧
  length (filter (λ e, is_download_event e = true) (trace Examples.nine_run))
  = CONCURRENT_DOWNLOADS ∧
  Forall (λ e, is_done e = false) (trace Examples.nine_run) ∧
  manifest Examples.nine_run = None ∧
  archive Examples.nine_run = None.
Proof.
  apply (large_run_blocks (L := Examples.ExampleHtml)
           (Examples.serving Examples.nine_html "") "http://ex.com/"
           (list_to_set ((λ k, "http://ex.com/" +:+ String (ascii_of_nat (48 + k)) ".png")
                           <$> seq 0 9))).
  - vm_compute. reflexivity.
  - vm_compute. lia.
  - reflexivity.
Defined.

Lemma page_write_failure_witness :
  outcome_of Cases.read_only_run = Crashed ∧
  (∃ pre, trace Cases.read_only_run
          = pre ++ [Meta (size ({[ "http://ex.com/a.png"; "http://ex.com/song.mp3" ]}
                                  : gset string) + 1)] ∧
          Forall (λ e, is_error e = false) pre) ∧
  workspace Cases.read_only_run = Dir [] ∧
  manifest Cases.read_only_run = None ∧
  archive Cases.read_only_run = None.
Proof.
  apply (page_write_failure_crashes (L := Cases.pages)
           (Cases.read_only Cases.audio_html) "http://ex.com/"
           {[ "http://ex.com/a.png"; "http://ex.com/song.mp3" ]}).
  - vm_compute. reflexivity.
  - reflexivity.
Defined.

Lemma unresolvable_reference_witness :
  outcome_of Cases.broken_run = Crashed ∧
  trace Cases.broken_run = [Status "fetching_html"; Status "fetched_html"] ∧
  discovered Cases.broken_run = None.
Proof.
  apply (unresolvable_reference_crashes (L := Cases.pages)
           (Examples.serving Cases.broken_html "") "http://ex.com/"
           200 Cases.broken_html 0 (Examples.el "img" [("src", "http://[")])
           "img" "src" "http://[").
  - reflexivity.
  - reflexivity.
  - apply (bool_decide_unpack _). vm_compute. exact I.
  - vm_compute. reflexivity.
  - reflexivity.
  - vm_compute. reflexivity.
  - discriminate.
  - vm_compute. reflexivity.
Defined.

Lemma stream_opening_witness :
  ∃ rest,
    trace Examples.linked_run
    = [Status "fetching_html"; Status "fetched_html"]
      ++ (fetching_css <$> ["http://ex.com/css/main.css"])
      ++ Meta (size ({[ "http://ex.com/css/main.css"; "http://ex.com/icon.svg";
                        "http://ex.com/img/a.png" ]} : gset string) + 1) :: rest.
Proof.
  apply (stream_opening (L := Examples.ExampleHtml)
           (Examples.serving Examples.linked_html Examples.linked_css)
           "http://ex.com/index.html"
           {[ "http://ex.com/css/main.css"; "http://ex.com/icon.svg";
              "http://ex.com/img/a.png" ]} 200 Examples.linked_html).
  - vm_compute. reflexivity.
  - reflexivity.
  - vm_compute. reflexivity.
Defined.

Lemma discovered_set_witness :
  "http://ex.com/icon.svg"
    ∈ ({[ "http://ex.com/css/main.css"; "http://ex.com/icon.svg";
          "http://ex.com/img/a.png" ]} : gset string) ↔
  "http://ex.com/icon.svg" ≠ ensure_scheme "http://ex.com/index.html" ∧
  ("http://ex.com/icon.svg" ∈ ({[ "http://ex.com/css/main.css" ]} : gset string) ∨
   "http://ex.com/icon.svg" ∈ ["http://ex.com/css/main.css"] ∨
   ∃ k css_url text css_found,
     ["http://ex.com/css/main.css"] !! k = Some css_url ∧
     get_css (Examples.serving Examples.linked_html Examples.linked_css) k css_url
     = Response 200 text ∧
     extract_css_urls_from_text (ensure_scheme "http://ex.com/index.html") text
     = Some css_found ∧
     "http://ex.com/icon.svg" ∈ css_found).
Proof.
  apply (discovered_set_spec (L := Examples.ExampleHtml)
           (Examples.serving Examples.linked_html Examples.linked_css)
           "http://ex.com/index.html" _ _ 200 Examples.linked_html).
  - vm_compute. reflexivity.
  - reflexivity.
  - vm_compute. reflexivity.
  - vm_compute. reflexivity.
Defined.

Lemma root_page_failure_witness :
  (∃ m, trace Cases.offline_run
        = [Status "fetching_html"; Error ("failed_fetch_html: " +:+ m)]) ∧
  outcome_of Cases.offline_run = Aborted ∧
  discovered Cases.offline_run = None ∧
  workspace Cases.offline_run = Dir [] ∧
  manifest Cases.offline_run = None ∧
  archive Cases.offline_run = None.
Proof.
  apply (root_page_failure_aborts (L := Cases.pages) Cases.offline "http://ex.com/").
  intros code body Hget. vm_compute in Hget. discriminate.
Defined.

Lemma done_names_the_download_witness :
  download_zip (String.eqb "/tmp/stark_20250101120000.zip") "stark_20250101120000.zip"
  = FileResponse "/tmp/stark_20250101120000.zip" "stark_20250101120000.zip".
Proof.
  apply (done_names_the_download (L := Examples.ExampleHtml)
           (Examples.losing Examples.scenario_html "http://ex.com/b.png") "ex.com/"
           (String.eqb "/tmp/stark_20250101120000.zip") 12 _ _ 5).
  - vm_compute. reflexivity.
  - reflexivity.
  - reflexivity.
Defined.

(** ** Files stay in the workspace *)

Lemma node_at_in_file p d : p ≠ [] → Fs.node_at p (File d) = None.
Proof. by destruct p. Qed.

Lemma set_at_cons new nm p es :
  p ≠ [] →
  Fs.set_at (nm :: p) new (Dir es)
  = match Fs.entry_lookup nm es with
    | Some sub => Dir (Fs.entry_set nm (Fs.set_at p new sub) es)
    | None => Dir es
    end.
Proof. by destruct p. Qed.

(** Putting a node where there is none, or where a file is, leaves the
    files at the other paths as they are. *)
Lemma node_at_set_at_other new p : ∀ t q d,
  Fs.node_at q t = Some (File d) →
  (∀ es, Fs.node_at p t ≠ Some (Dir es)) →
  q ≠ p →
  Fs.node_at q (Fs.set_at p new t) = Some (File d).
Proof.
  induction p as [|nm p IH]; intros t q d Hq Hp Hne.
  - destruct t as [d0|es]; [|by specialize (Hp es)].
    destruct q; [done|]. by rewrite node_at_in_file in Hq.
  - destruct t as [d0|es]; [by destruct p|].
    destruct q as [|k q]; [done|].
    simpl in Hq. destruct (Fs.entry_lookup k es) as [subq|] eqn:Hk; [|done].
    simpl in Hq. destruct (decide (p = [])) as [->|Hpne].
    + cbn [Fs.set_at Fs.node_at]. destruct (decide (nm = k)) as [->|Hnk].
      * exfalso. destruct subq as [d1|es1].
        -- rewrite node_at_in_file in Hq; [done|]. intros ->. done.
        -- apply (Hp es1). simpl. by rewrite Hk.
      * rewrite entry_lookup_set_ne by done. by rewrite Hk.
    + rewrite set_at_cons by done.
      destruct (Fs.entry_lookup nm es) as [sub|] eqn:Hl; [|by simpl; rewrite Hk].
      cbn [Fs.node_at]. destruct (decide (nm = k)) as [->|Hnk].
      * rewrite entry_lookup_set_eq. simpl.
        assert (sub = subq) as -> by congruence.
        apply IH; [done| |congruence].
        intros es' Hes. apply (Hp es'). simpl. by rewrite Hl.
      * rewrite entry_lookup_set_ne by done. by rewrite Hk.
Qed.

(** A node put into an existing directory is found there. *)
Lemma node_at_set_at_same new c p : ∀ t es,
  Fs.node_at p t = Some (Dir es) →
  Fs.node_at (p ++ [c]) (Fs.set_at (p ++ [c]) new t) = Some new.
Proof.
  induction p as [|nm p IH]; intros t es Hp.
  - simpl in Hp. injection Hp as ->. cbn [app Fs.set_at Fs.node_at].
    by rewrite entry_lookup_set_eq.
  - destruct t as [d0|es0]; [done|]. simpl in Hp.
    destruct (Fs.entry_lookup nm es0) as [sub|] eqn:Hl; [|done]. simpl in Hp.
    change ((nm :: p) ++ [c]) with (nm :: (p ++ [c])).
    rewrite set_at_cons by (by destruct p). rewrite Hl.
    cbn [Fs.node_at]. rewrite entry_lookup_set_eq. simpl. by eapply IH.
Qed.

Lemma node_at_parent p : ∀ t es,
  Fs.node_at p t = Some (Dir es) →
  ∃ es', Fs.node_at (removelast p) t = Some (Dir es').
Proof.
  intros t es Hp. destruct (decide (p = [])) as [->|Hne]; [by exists es|].
  rewrite (app_removelast_last "" Hne), node_at_app in Hp.
  destruct (Fs.node_at (removelast p) t) as [[d|es']|]; [done|by exists es'|done].
Qed.

(** [mkdir(parents=True)] keeps the files, ends in a directory, and without
    [..] ends in the directory it was asked for. *)
Lemma mkdirs_keeps comps : ∀ cur t t' r,
  Fs.mkdirs comps cur t = (t', r) →
  (∀ p, cur = Fs.Inside p → ∃ es, Fs.node_at p t = Some (Dir es)) →
  (∀ q d, Fs.node_at q t = Some (File d) → Fs.node_at q t' = Some (File d)) ∧
  (∀ p', r = Some (Fs.Inside p') → ∃ es, Fs.node_at p' t' = Some (Dir es)) ∧
  (∀ p, cur = Fs.Inside p → ".." ∉ comps →
        r = Some (Fs.Inside (p ++ comps)) ∨ r = None).
Proof.
  induction comps as [|c comps IH]; intros cur t t' r Hm Hcur.
  - simpl in Hm. injection Hm as <- <-. split_and!; [done| |].
    + intros p' [= ->]. by apply Hcur.
    + intros p -> _. left. by rewrite app_nil_r.
  - cbn [Fs.mkdirs] in Hm. destruct cur as [p|].
    2: { destruct (IH _ _ _ _ Hm) as (Hk & Hd & _); [done|]. by split_and!. }
    destruct (Hcur p eq_refl) as [es Hp].
    destruct (String.eqb c "..") eqn:E.
    { apply String.eqb_eq in E as ->.
      assert (∀ q, Fs.Inside p = Fs.Inside q → ".." ∉ ".." :: comps →
                   r = Some (Fs.Inside (q ++ ".." :: comps)) ∨ r = None) as H3.
      { intros q _ Hno. exfalso. apply Hno. left. }
      destruct p as [|a p].
      - destruct (IH _ _ _ _ Hm) as (Hk & Hd & _); [done|]. by split_and!.
      - destruct (IH _ _ _ _ Hm) as (Hk & Hd & _); [|by split_and!].
        intros q Hq. assert (q = removelast (a :: p)) as -> by congruence.
        by eapply node_at_parent. }
    apply String.eqb_neq in E.
    assert (∀ r0, (r0 = Some (Fs.Inside ((p ++ [c]) ++ comps)) ∨ r0 = None) →
              ∀ q, Fs.Inside p = Fs.Inside q → ".." ∉ c :: comps →
                r0 = Some (Fs.Inside (q ++ c :: comps)) ∨ r0 = None) as H3.
    { intros r0 Hr0 q [= <-] _. by rewrite <-app_assoc in Hr0. }
    destruct (Fs.node_at (p ++ [c]) t) as [[d|es']|] eqn:Hn.
    + injection Hm as <- <-. split_and!; [done|done|]. intros q _ _. by right.
    + destruct (IH _ _ _ _ Hm) as (Hk & Hd & Hr).
      { intros q [= <-]. by exists es'. }
      split_and!; [done|done|]. intros q Hq Hno. apply H3; [|done..].
      apply (Hr _ eq_refl). intros Hin. apply Hno. by right.
    + destruct (IH _ _ _ _ Hm) as (Hk & Hd & Hr).
      { intros q [= <-]. exists []. by eapply node_at_set_at_same. }
      split_and!; [|done|].
      * intros q d Hq. apply Hk. apply node_at_set_at_other; [done| |].
        -- intros es'. by rewrite Hn.
        -- intros ->. by rewrite Hn in Hq.
      * intros q Hq Hno. apply H3; [|done..].
        apply (Hr _ eq_refl). intros Hin. apply Hno. by right.
Qed.

(** Writing a file keeps the files there are (the one written over keeps
    its place), and puts the file at its path. *)
Lemma write_file_keeps rel d t t' ok :
  Fs.write_file rel d t = (t', ok) → is_dir t →
  (∀ q, has_file t q → has_file t' q) ∧
  (ok = true → ".." ∉ Fs.components rel →
   Fs.node_at (Fs.components rel) t' = Some (File d)).
Proof.
  unfold Fs.write_file. intros Hw Hdir.
  destruct (reverse (Fs.components rel)) as [|fname rdirs] eqn:Hrev.
  { injection Hw as <- <-. by split. }
  assert (Fs.components rel = reverse rdirs ++ [fname]) as Hcomp.
  { by rewrite <-(reverse_involutive (Fs.components rel)), Hrev, reverse_cons. }
  rewrite Hcomp.
  destruct (Fs.mkdirs (reverse rdirs) (Fs.Inside []) t) as [t1 r] eqn:Hm.
  destruct (mkdirs_keeps _ _ _ _ _ Hm) as (Hk & Hd & Hr).
  { intros p [= <-]. destruct t as [?|es]; [done|]. by exists es. }
  assert (∀ q, has_file t q → has_file t1 q) as Hk'.
  { intros q [d0 Hq]. exists d0. by apply Hk. }
  assert (".." ∉ reverse rdirs ++ [fname] →
          r = Some (Fs.Inside (reverse rdirs)) ∨ r = None) as Hr'.
  { intros Hno. apply (Hr [] eq_refl). intros Hin. apply Hno, elem_of_app. by left. }
  destruct r as [[p|]|].
  - destruct (String.eqb fname "..") eqn:E; [injection Hw as <- <-; by split|].
    destruct (Hd p eq_refl) as [es Hp].
    assert (Fs.set_at (p ++ [fname]) (File d) t1 = t' ∧ ok = true ∨ t1 = t' ∧ ok = false)
      as [[<- ->]|[<- ->]].
    { destruct (Fs.node_at (p ++ [fname]) t1) as [[?|?]|]; simplify_eq; auto. }
    2: by split.
    assert (∀ es', Fs.node_at (p ++ [fname]) t1 ≠ Some (Dir es')) as Hnd.
    { intros es' Hes. rewrite Hes in Hw. by simplify_eq. }
    split.
    + intros q [d0 Hq]%Hk'. destruct (decide (q = p ++ [fname])) as [->|Hne].
      * exists d. by eapply node_at_set_at_same.
      * exists d0. by apply node_at_set_at_other.
    + intros _ Hno. destruct (Hr' Hno) as [[= ->]|]; [|done].
      by eapply node_at_set_at_same.
  - injection Hw as <- <-. split; [done|].
    intros _ Hno. by destruct (Hr' Hno).
  - injection Hw as <- <-. by split.
Qed.

Lemma file_at_node_at p : ∀ t d,
  Fs.node_at p t = Some (File d) → is_dir t → file_at t p d.
Proof.
  induction p as [|nm p IH]; intros t d Hp Hdir.
  - simpl in Hp. injection Hp as ->. done.
  - destruct t as [d0|es]; [done|]. simpl in Hp.
    destruct (Fs.entry_lookup nm es) as [sub|] eqn:Hl; [|done]. simpl in Hp.
    apply entry_lookup_Some_in in Hl.
    destruct (decide (p = [])) as [->|Hne].
    + simpl in Hp. injection Hp as ->. by constructor.
    + apply (file_below _ _ sub); [done|]. apply IH; [done|].
      destruct sub; [by rewrite node_at_in_file in Hp|done].
Qed.

Section FilesStay.
Context {U : UrlLib} {L : HtmlLib} {P : PySet}.
Variable w : World.

Lemma download_and_save_keeps root url st ev st' :
  download_and_save w root url st = Some (ev, st') → is_dir (ws st) →
  (∀ q, has_file (ws st) q → has_file (ws st') q) ∧ stored (ws st') ev.
Proof.
  unfold download_and_save. destruct (sem st) as [|permits]; [done|].
  intros Hd Hdir. apply (inj Some) in Hd.
  destruct (get_asset w url) as [code content|msg]; [|by simplify_eq/=].
  destruct (is_success code); [|by simplify_eq/=].
  destruct (safe_filename_from_url url) as [local_rel|] eqn:Hsafe; [|by simplify_eq/=].
  destruct (io_ok w (SaveAsset url)); [|by simplify_eq/=].
  simpl in Hd.
  destruct (Fs.write_file local_rel (Data content) (ws st)) as [ws' ok] eqn:Hw.
  destruct (write_file_keeps _ _ _ _ _ Hw Hdir) as [Hk Hput].
  destruct ok; simplify_eq/=; (split; [done|]); [|done].
  intros rel Hrel Hno. assert (rel = local_rel) as -> by congruence.
  exists (Data content). by apply Hput.
Qed.

Lemma stored_mono (t t' : node) (e : event) :
  (∀ q, has_file t q → has_file t' q) → stored t e → stored t' e.
Proof. intros Hk. destruct e; try done. simpl. intros He rel Hrel Hno. auto. Qed.

Lemma gather_keeps root batch : ∀ st evs st',
  gather w root batch st = Some (evs, st') →
  wf_node (ws st) → is_dir (ws st) →
  (∀ q, has_file (ws st) q → has_file (ws st') q) ∧ Forall (stored (ws st')) evs.
Proof.
  induction batch as [|url rest IH]; intros st evs st'; simpl.
  - intros [= <- <-]. by split.
  - intros Hg Hwf Hdir. apply bind_Some in Hg as ([ev st1] & Hd & Hg).
    apply bind_Some in Hg as ([evs' st2] & Hr & Hg). simplify_eq/=.
    destruct (download_and_save_ws _ _ _ _ _ _ Hd Hwf Hdir) as [Hwf1 Hdir1].
    apply download_and_save_keeps in Hd as [Hk1 Hev]; [|done].
    destruct (IH _ _ _ Hr Hwf1 Hdir1) as [Hk2 Hevs].
    split; [by auto|]. constructor; [|done]. by eapply stored_mono.
Qed.

Lemma run_batches_keeps root batches : ∀ k st evs st' fin,
  run_batches w root batches k st = (evs, st', fin) →
  wf_node (ws st) → is_dir (ws st) →
  (∀ q, has_file (ws st) q → has_file (ws st') q) ∧ Forall (stored (ws st')) evs.
Proof.
  induction batches as [|batch rest IH]; intros k st evs st' fin; simpl.
  - intros [= <- <- <-]. by split.
  - destruct (gather w root batch st) as [[results st1]|] eqn:Hg;
      [|intros [= <- <- <-]; by split].
    destruct (emit_progress w k st1) as [prog st2] eqn:Hp.
    destruct (run_batches w root rest (S k) st2) as [[evs' st3] fin'] eqn:Hr.
    intros [= <- <- <-] Hwf Hdir.
    destruct (gather_ws _ _ _ _ _ _ Hg Hwf Hdir) as [Hwf1 Hdir1].
    destruct (gather_keeps _ _ _ _ _ Hg Hwf Hdir) as [Hk1 Hres].
    apply emit_progress_spec in Hp as (Hprog & _ & Hws & _).
    rewrite <-Hws in Hwf1, Hdir1, Hk1, Hres.
    destruct (IH _ _ _ _ _ Hr Hwf1 Hdir1) as [Hk2 Hevs].
    split; [by auto|]. rewrite !Forall_app. split_and!; [|  |done].
    + eapply Forall_impl; [exact Hres|]. intros e. by apply stored_mono.
    + eapply Forall_impl; [exact Hprog|]. by intros [].
Qed.

Lemma rewrite_stage_keeps web_url t evs t' :
  rewrite_stage w web_url t = (evs, t') → is_dir t →
  ∀ q, has_file t q → has_file t' q.
Proof.
  unfold rewrite_stage. intros Hr Hdir.
  repeat case_match; simplify_eq; try done.
  all: match goal with
       | H : Fs.write_file _ _ _ = _ |- _ =>
           by destruct (write_file_keeps _ _ _ _ _ H Hdir)
       end.
Qed.

Lemma info_stage_keeps web_url st t evs t' info :
  info_stage w web_url st t = (evs, t', info) → is_dir t →
  ∀ q, has_file t q → has_file t' q.
Proof.
  unfold info_stage. intros Hr Hdir.
  repeat case_match; simplify_eq; try done.
  all: match goal with
       | H : Fs.write_file _ _ _ = _ |- _ =>
           by destruct (write_file_keeps _ _ _ _ _ H Hdir)
       end.
Qed.

Variable web : string.

(** What a packaged run leaves in its workspace. *)
Lemma packaged_workspace entries :
  archive (sse_generator w web) = Some entries →
  is_dir (workspace (sse_generator w web)) ∧
  has_file (workspace (sse_generator w web)) ["index.html"] ∧
  Forall (stored (workspace (sse_generator w web))) (trace (sse_generator w web)).
Proof.
  run_cases w web; try done. intros _.
  destruct (first_write_wf html) as [Hwf0 Hdir0].
  destruct (run_batches_ws _ _ _ _ _ _ _ _ Hrun Hwf0 Hdir0) as [Hwf4 Hdir4].
  destruct (rewrite_stage_ws _ _ _ _ _ Hrw Hwf4 Hdir4) as [Hwf5 Hdir5].
  destruct (info_stage_spec _ _ _ _ _ _ _ Hinfo Hwf5 Hdir5) as (_ & Hdir6 & _).
  destruct (run_batches_keeps _ _ _ _ _ _ _ Hrun Hwf0 Hdir0) as [Hk4 Hst4].
  pose proof (rewrite_stage_keeps _ _ _ _ Hrw Hdir4) as Hk5.
  pose proof (info_stage_keeps _ _ _ _ _ _ Hinfo Hdir5) as Hk6.
  split_and!; [done| |].
  - apply Hk6, Hk5, Hk4. by eexists.
  - assert (∀ l, Forall (λ e, is_report e = true) l → Forall (stored t6) l) as Hrep.
    { intros l Hl. eapply Forall_impl; [exact Hl|]. by intros []. }
    rewrite !Forall_app. split_and!.
    + by eapply Hrep, fetch_html_reports.
    + by eapply Hrep, discover_reports.
    + by repeat constructor.
    + eapply Forall_impl; [exact Hst4|]. intros e. apply stored_mono. auto.
    + by eapply Hrep, rewrite_stage_reports.
    + by eapply Hrep, info_stage_reports.
    + by eapply Hrep, zip_stage_reports.
    + by repeat constructor.
Qed.

(** Property X20.  The archive of a run holds the page as [index.html] and,
    for every [asset] event of the run, an entry for the saved file.  The
    entry is named by the path of the file from the workspace root: the
    components of the mapped path [safe_filename_from_url(url)] joined by
    slashes, its empty components and its [.] components dropped (for
    [ex.com/a//b.png] the entry [ex.com/a/b.png]).  This holds provided the
    mapped path has no [..] component. *)
Theorem archive_holds_page_and_assets (entries : list (string * fdata)) :
  archive (sse_generator w web) = Some entries →
  (∃ d, ("index.html", d) ∈ entries) ∧
  ∀ i url saved size local_rel,
    trace (sse_generator w web) !! i = Some (Asset url saved size) →
    safe_filename_from_url url = Some local_rel →
    ".." ∉ Fs.components local_rel →
    ∃ d, (Py.join "/" (Fs.components local_rel), d) ∈ entries.
Proof.
  intros Ha. destruct (packaged_workspace _ Ha) as (Hdir & Hpage & Hst).
  apply archive_spec in Ha.
  destruct (zip_entries_spec w _ entries (workspace_wf w web) Ha) as [_ Hin].
  split.
  - destruct Hpage as [d Hd]. exists d. apply Hin. exists ["index.html"].
    split; [done|]. by apply file_at_node_at.
  - intros i url saved size local_rel Hi Hrel Hno.
    pose proof (Forall_lookup_1 _ _ _ _ Hst Hi) as He. simpl in He.
    destruct (He _ Hrel Hno) as [d Hd]. exists d. apply Hin.
    exists (Fs.components local_rel). split; [done|]. by apply file_at_node_at.
Qed.

End FilesStay.

Lemma archive_holds_page_and_assets_witness :
  ∃ entries,
    archive Examples.scenario_run = Some entries ∧
    (∃ d, ("index.html", d) ∈ entries) ∧
    ∀ i url saved size local_rel,
      trace Examples.scenario_run !! i = Some (Asset url saved size) →
      safe_filename_from_url url = Some local_rel →
      ".." ∉ Fs.components local_rel →
      ∃ d, (Py.join "/" (Fs.components local_rel), d) ∈ entries.
Proof.
  eexists. split; [vm_compute; reflexivity|].
  apply (archive_holds_page_and_assets (L := Examples.ExampleHtml)
           (Examples.losing Examples.scenario_html "http://ex.com/b.png") "ex.com/").
  vm_compute. reflexivity.
Defined.

(** ** More on the regular expressions *)

(** A pattern that starts with a fixed text finds nothing in a text that
    does not hold it. *)
Lemma findall_without (m : string → option (string * string)) (pre : string) :
  (∀ s, Py.startswith s pre = false → m s = None) →
  ∀ s, Py.contains pre s = false → Re.findall m s = [].
Proof.
  intros Hm. unfold Re.findall. induction s as [|c s IH]; [done|].
  cbn [Py.contains]. destruct (Py.startswith (String c s) pre) eqn:Hs; [done|].
  intros Hc. cbn [Re.scan]. rewrite (Hm _ Hs). simpl. by apply IH.
Qed.

(** Property X21.  A stylesheet text that holds neither [url(] nor [@import]
    contributes no reference. *)
Theorem stylesheet_without_references `{UrlLib} (base_url css_text : string) :
  Py.contains "url(" css_text = false →
  Py.contains "@import" css_text = false →
  extract_css_urls_from_text base_url css_text = Some ∅.
Proof.
  intros Hurl Himport. unfold extract_css_urls_from_text.
  rewrite (findall_without Re.url_pattern "url(") by
    (done || (intros s Hs; unfold Re.url_pattern; by rewrite Hs)).
  rewrite (findall_without Re.import_pattern "@import") by
    (done || (intros s Hs; unfold Re.import_pattern; by rewrite Hs)).
  simpl. by rewrite ?(left_id_L ∅ (∪)).
Qed.

Lemma stylesheet_without_references_witness :
  extract_css_urls_from_text "http://ex.com/" "body { color: red }" = Some ∅.
Proof.
  apply (stylesheet_without_references "http://ex.com/" "body { color: red }").
  - reflexivity.
  - reflexivity.
Defined.

(** ** The rewritten references *)

Section RewrittenReferences.
Context {U : UrlLib}.
Variable web_url : string.

(** A pass over the elements of another tag leaves the element alone. *)
Lemma rewrite_one_other tag attr el el' :
  name el ≠ tag → rewrite_one web_url tag attr el = Some el' → el' = el.
Proof. intros Hne. unfold rewrite_one. rewrite decide_False by done. congruence. Qed.

(** The pass over the elements of its tag puts the mapped path. *)
Lemma rewrite_one_maps tag attr el el' v :
  name el = tag → attrs el !! attr = Some v → v ≠ "" →
  rewrite_one web_url tag attr el = Some el' →
  name el' = name el ∧
  ∃ abs_url new_rel,
    urljoin web_url v = Some abs_url ∧
    safe_filename_from_url abs_url = Some new_rel ∧
    attrs el' !! attr = Some new_rel.
Proof.
  intros Hname Hattr Hv. unfold rewrite_one. rewrite decide_True by done.
  intros Hr%rewrite_attr_spec. unfold get_truthy in Hr. rewrite Hattr in Hr.
  simpl in Hr. apply String.eqb_neq in Hv. rewrite Hv in Hr.
  destruct Hr as (abs_url & new_rel & ? & ? & ->). split; [done|].
  exists abs_url, new_rel. split_and!; [done..|]. simpl. apply lookup_insert_eq.
Qed.

Lemma rewrite_srcset_other el el' attr :
  attr ≠ "srcset" → rewrite_srcset web_url el = Some el' →
  attrs el' !! attr = attrs el !! attr.
Proof.
  intros Hne. unfold rewrite_srcset. destruct (attrs el !! "srcset"); [|congruence].
  intros Hr. apply bind_Some in Hr as (parts & _ & [= <-]).
  simpl. by apply lookup_insert_ne.
Qed.

Lemma rewrite_style_other el el' attr :
  attr ≠ "style" → rewrite_style web_url el = Some el' →
  attrs el' !! attr = attrs el !! attr.
Proof.
  intros Hne. unfold rewrite_style. destruct (attrs el !! "style"); [|congruence].
  intros Hr. apply bind_Some in Hr as (new_style & _ & [= <-]).
  simpl. by apply lookup_insert_ne.
Qed.

(** Property X22.  After the rewriting, the [src] of an [img], [script] or
    [source] element, the [href] of a [link] and the [poster] of a [video],
    when it was present and not empty, is [safe_filename_from_url] of the
    reference resolved against the URL of the page: the path, from the
    workspace root, at which the download stage saves that URL. *)
Theorem rewrite_html_maps_reference (doc doc' : soup) (i : nat) (el : element)
    (tag attr v : string) :
  rewrite_html web_url doc = Some doc' →
  doc !! i = Some el →
  (tag, attr) ∈ [("img", "src"); ("script", "src"); ("link", "href");
                 ("source", "src"); ("video", "poster")] →
  name el = tag → attrs el !! attr = Some v → v ≠ "" →
  ∃ abs_url new_rel el',
    urljoin web_url v = Some abs_url ∧
    safe_filename_from_url abs_url = Some new_rel ∧
    doc' !! i = Some el' ∧ attrs el' !! attr = Some new_rel.
Proof.
  intros [_ Hel]%rewrite_html_elementwise Hi Hpair Hname Hattr Hv.
  destruct (Hel i el Hi) as (e1 & e2 & e3 & e4 & e5 & e6 & e7 &
    H1 & H2 & H3 & H4 & H5 & H6 & H7 & Hi7).
  assert (attr ≠ "srcset" ∧ attr ≠ "style") as [Hss Hst].
  { rewrite !elem_of_cons, elem_of_nil in Hpair.
    destruct Hpair as [?|[?|[?|[?|[?|[]]]]]]; by simplify_eq. }
  apply (rewrite_style_other _ _ attr Hst) in H7.
  apply (rewrite_srcset_other _ _ attr Hss) in H6.
  rewrite !elem_of_cons, elem_of_nil in Hpair.
  destruct Hpair as [Hp|[Hp|[Hp|[Hp|[Hp|[]]]]]]; injection Hp as -> ->.
  - destruct (rewrite_one_maps _ _ _ _ _ Hname Hattr Hv H1) as (Hn & a & r & ? & ? & Hr).
    apply rewrite_one_other in H2 as ->; [|by rewrite Hn, Hname].
    apply rewrite_one_other in H3 as ->; [|by rewrite Hn, Hname].
    apply rewrite_one_other in H4 as ->; [|by rewrite Hn, Hname].
    apply rewrite_one_other in H5 as ->; [|by rewrite Hn, Hname].
    exists a, r, e7. split_and!; [done..|]. by rewrite H7, H6.
  - apply rewrite_one_other in H1 as ->; [|by rewrite Hname].
    destruct (rewrite_one_maps _ _ _ _ _ Hname Hattr Hv H2) as (Hn & a & r & ? & ? & Hr).
    apply rewrite_one_other in H3 as ->; [|by rewrite Hn, Hname].
    apply rewrite_one_other in H4 as ->; [|by rewrite Hn, Hname].
    apply rewrite_one_other in H5 as ->; [|by rewrite Hn, Hname].
    exists a, r, e7. split_and!; [done..|]. by rewrite H7, H6.
  - apply rewrite_one_other in H1 as ->; [|by rewrite Hname].
    apply rewrite_one_other in H2 as ->; [|by rewrite Hname].
    destruct (rewrite_one_maps _ _ _ _ _ Hname Hattr Hv H3) as (Hn & a & r & ? & ? & Hr).
    apply rewrite_one_other in H4 as ->; [|by rewrite Hn, Hname].
    apply rewrite_one_other in H5 as ->; [|by rewrite Hn, Hname].
    exists a, r, e7. split_and!; [done..|]. by rewrite H7, H6.
  - apply rewrite_one_other in H1 as ->; [|by rewrite Hname].
    apply rewrite_one_other in H2 as ->; [|by rewrite Hname].
    apply rewrite_one_other in H3 as ->; [|by rewrite Hname].
    destruct (rewrite_one_maps _ _ _ _ _ Hname Hattr Hv H4) as (Hn & a & r & ? & ? & Hr).
    apply rewrite_one_other in H5 as ->; [|by rewrite Hn, Hname].
    exists a, r, e7. split_and!; [done..|]. by rewrite H7, H6.
  - apply rewrite_one_other in H1 as ->; [|by rewrite Hname].
    apply rewrite_one_other in H2 as ->; [|by rewrite Hname].
    apply rewrite_one_other in H3 as ->; [|by rewrite Hname].
    apply rewrite_one_other in H4 as ->; [|by rewrite Hname].
    destruct (rewrite_one_maps _ _ _ _ _ Hname Hattr Hv H5) as (Hn & a & r & ? & ? & Hr).
    exists a, r, e7. split_and!; [done..|]. by rewrite H7, H6.
Qed.

End RewrittenReferences.

Lemma rewrite_html_maps_reference_witness :
  ∃ abs_url new_rel el',
    urljoin "http://ex.com/" "/a.png" = Some abs_url ∧
    safe_filename_from_url abs_url = Some new_rel ∧
    [Examples.el "img" [("src", "ex.com/a.png")];
     Examples.el "audio" [("src", "/song.mp3")]] !! 0 = Some el' ∧
    attrs el' !! "src" = Some new_rel.
Proof.
  apply (rewrite_html_maps_reference "http://ex.com/" Cases.audio_page _ 0
           (Examples.el "img" [("src", "/a.png")]) "img" "src" "/a.png").
  - vm_compute. reflexivity.
  - reflexivity.
  - apply (bool_decide_unpack _). vm_compute. exact I.
  - reflexivity.
  - vm_compute. reflexivity.
  - discriminate.
Defined.

(** ** No URL is reported on twice *)

Section Once.
Context {U : UrlLib} {L : HtmlLib} {P : PySet}.
Variable w : World.
Variable web : string.

Lemma no_downloads_without_page_write :
  io_ok w WritePage = false ∨ discovered (sse_generator w web) = None →
  omap download_url (trace (sse_generator w web)) = [].
Proof.
  run_cases w web.
  1-3: by intros [?|?]; congruence.
  all: intros _.
  all: try (apply fetch_html_quiet, quiet_no_urls in Hfetch).
  all: try (apply discover_quiet, quiet_no_urls in Hdisc).
  all: by rewrite ?omap_app, ?Hfetch, ?Hdisc.
Qed.

(** Property X23.  A run reports on no URL twice: the URLs of its [asset] and
    [asset_error] events are pairwise distinct. *)
Theorem no_url_reported_twice :
  NoDup (omap download_url (trace (sse_generator w web))).
Proof.
  destruct (io_ok w WritePage) eqn:Hio.
  2: { rewrite no_downloads_without_page_write by auto. constructor. }
  destruct (discovered (sse_generator w web)) as [s|] eqn:Hd.
  2: { rewrite no_downloads_without_page_write by auto. constructor. }
  destruct (decide (size s ≤ CONCURRENT_DOWNLOADS)) as [Hle|Hgt].
  - destruct (within_limit_all_reported w web s Hd Hle Hio) as [Hperm _].
    rewrite Hperm. apply NoDup_elements.
  - destruct (above_limit_blocked w web s Hd) as (_ & -> & _); [lia|done|].
    eapply sublist_NoDup; [|apply sublist_take].
    rewrite (list_of_set_perm s). apply NoDup_elements.
Qed.

End Once.
